(** * LoRa alert pipeline: transmitter, relay and receiver sketches

    A shallow embedding of the detection loop of [Transmitter.ino], of the
    relay of [Intermediate_Nod.ino] (hybrid ESP-NOW / LoRa forwarder) and of
    its single-transport variant, and of the decoder of the receiver sketch.

    Conventions of the embedding:
    - [unsigned long] is 32 bits wide on the ESP8266 and the ESP32; it is a
      [Z] reduced modulo [2^32] after each operation;
    - [int] is 32 bits wide, two's complement;
    - a [char] buffer is a [list ascii]; a [const char*] is the list of the
      bytes from the pointer onwards, and the C string it denotes ends at
      the first NUL;
    - [float] and [double] are IEEE-754 binary32 and binary64 values
      ([spec_float]), every operation rounding to nearest even;
    - the actions of a sketch on its peripherals (radio, serial log, LED,
      delay) are appended to a trace kept in the state; what the peripherals
      answer (clock readings, packet bytes, send results) is an argument.

    The definitions come first, module by module; the properties follow. *)

From Stdlib Require Import ZArith Bool Ascii String List Lia.
From Stdlib Require Import Floats.SpecFloat.
From Stdlib Require DecimalString.
From stdpp Require Import base list.

Local Open Scope Z_scope.

(** ** Machine integers *)

Module Machine.

Definition ULONG_MODULUS : Z := 2 ^ 32.
Definition INT_MAX : Z := 2 ^ 31 - 1.
Definition INT_MIN : Z := - 2 ^ 31.

(** Value of an [unsigned long] expression. *)
Definition ulong (z : Z) : Z := z mod ULONG_MODULUS.

(** [a - b] on [unsigned long] operands. *)
Definition usub (a b : Z) : Z := ulong (a - b).

(** [a + b] on [unsigned long] operands. *)
Definition uadd (a b : Z) : Z := ulong (a + b).

(** Value of an [int] expression (two's complement wrap-around). *)
Definition sint (z : Z) : Z := (z + 2 ^ 31) mod ULONG_MODULUS - 2 ^ 31.

Definition is_ulong (z : Z) : Prop := 0 <= z < ULONG_MODULUS.

End Machine.

(** ** C strings *)

Module CStr.

Definition NUL : ascii := Ascii.zero.

(** A string literal, without its terminator. *)
Definition lit (s : string) : list ascii := list_ascii_of_string s.

(** The byte a pointer designates; past the end of the modelled memory
    the terminator is read. *)
Definition deref (p : list ascii) : ascii :=
  match p with
  | [] => NUL
  | c :: _ => c
  end.

(** The C string a pointer designates: the bytes before the first NUL. *)
Fixpoint cstr (p : list ascii) : list ascii :=
  match p with
  | [] => []
  | c :: r => if Ascii.eqb c NUL then [] else c :: cstr r
  end.

(** [strlen(p)] *)
Definition strlen (p : list ascii) : nat := length (cstr p).

(** [strcmp(a, b) == 0] *)
Fixpoint strcmp_eq (a b : list ascii) : bool :=
  match a with
  | [] => Ascii.eqb (deref b) NUL
  | c :: a' =>
      if Ascii.eqb c (deref b)
      then if Ascii.eqb c NUL then true else strcmp_eq a' (tail b)
      else false
  end.

(** [strncmp(a, b, n) == 0] *)
Fixpoint strncmp_eq (a b : list ascii) (n : nat) : bool :=
  match n with
  | O => true
  | S n' =>
      if Ascii.eqb (deref a) (deref b)
      then if Ascii.eqb (deref a) NUL then true
           else strncmp_eq (tail a) (tail b) n'
      else false
  end.

(** [strchr(p, c)] for a [c] other than NUL: the pointer to the first
    occurrence of [c] in the string, or the null pointer. *)
Fixpoint strchr (p : list ascii) (c : ascii) : option (list ascii) :=
  match p with
  | [] => None
  | x :: r =>
      if Ascii.eqb x c then Some p
      else if Ascii.eqb x NUL then None
      else strchr r c
  end.

(** [++p] *)
Definition incr (p : list ascii) : list ascii := tail p.

(** The [n] bytes [strncpy(dst, src, n)] writes: the string [src] cut at
    [n] bytes, padded with NUL up to [n] bytes. *)
Fixpoint strncpy_bytes (src : list ascii) (n : nat) : list ascii :=
  match n with
  | O => []
  | S n' =>
      if Ascii.eqb (deref src) NUL then replicate n NUL
      else deref src :: strncpy_bytes (tail src) n'
  end.

(** [strncpy(dst, src, n)]: the first [n] bytes of [dst] are overwritten,
    the others kept. *)
Definition strncpy (dst src : list ascii) (n : nat) : list ascii :=
  strncpy_bytes src n ++ drop n dst.

End CStr.

(** ** Floating-point numbers *)

Module IEEE.

(** The values of both [float] and [double]; the format decides how an
    operation rounds. *)
Definition fp : Type := spec_float.


(** Correctly rounded quotient [m / 10^k] of two integers: the value of a
    decimal literal with [k] digits after the point. *)
Definition decimal (prec emax : Z) (m : positive) (k : Z) : fp :=
  SFdiv prec emax (S754_finite false m 0)
                  (S754_finite false (Z.to_pos (10 ^ k)) 0).

(** Rounding of a value to a format (conversion between formats). *)
Definition round_to (prec emax : Z) (x : fp) : fp :=
  match x with
  | S754_finite s m e => binary_round prec emax s m e
  | _ => x
  end.

(** [double] *)
Module F64.
Definition prec : Z := 53.
Definition emax : Z := 1024.
Definition add : fp -> fp -> fp := SFadd prec emax.
Definition sub : fp -> fp -> fp := SFsub prec emax.
Definition mul : fp -> fp -> fp := SFmul prec emax.
Definition div : fp -> fp -> fp := SFdiv prec emax.
Definition of_int (z : Z) : fp := binary_normalize prec emax z 0 false.
Definition of_float : fp -> fp := round_to prec emax.
Definition literal : positive -> Z -> fp := decimal prec emax.
End F64.

(** [float] *)
Module F32.
Definition prec : Z := 24.
Definition emax : Z := 128.
Definition add : fp -> fp -> fp := SFadd prec emax.
Definition sub : fp -> fp -> fp := SFsub prec emax.
Definition mul : fp -> fp -> fp := SFmul prec emax.
Definition div : fp -> fp -> fp := SFdiv prec emax.
Definition sqrt : fp -> fp := SFsqrt prec emax.
Definition ltb : fp -> fp -> bool := SFltb.
Definition eqb : fp -> fp -> bool := SFeqb.
Definition gtb (x y : fp) : bool := SFltb y x.
Definition of_int (z : Z) : fp := binary_normalize prec emax z 0 false.
Definition of_double : fp -> fp := round_to prec emax.
(** A [float] initialised from a decimal literal: the literal is a
    [double], converted on initialisation. *)
Definition literal (m : positive) (k : Z) : fp := of_double (F64.literal m k).
Definition zero : fp := S754_zero false.
End F32.

End IEEE.

(** ** The transmitter ([Transmitter.ino])

    The sketch with the live GPS. The variant with fixed sample coordinates
    has the same [loop]: it passes the sample coordinates to
    [sendLoRaAlert] and runs the filter over ten samples in [setup]. *)

Module Transmitter.
Import Machine CStr IEEE.

(** *** Configuration constants *)

Definition FLAME_SENSOR_ACTIVE_LOW : bool := true.
Definition FLAME_SAMPLES_NEEDED : Z := 3.
Definition FIRE_MIN_INTERVAL : Z := 5000.
Definition ALPHA : fp := F32.literal 5 1.
Definition QUAKE_THRESHOLD : fp := F32.literal 12 2.
Definition WINDOW_SIZE : nat := 10.
Definition FALLBACK_LAT : fp := F32.literal 30768885 6.
Definition FALLBACK_LNG : fp := F32.literal 7657521 5.

(** Pin levels. *)
Definition LOW : bool := false.
Definition HIGH : bool := true.

(** *** Data *)

(** What [sendLoRaAlert] hands to [snprintf] and then to the radio: the
    fields of the payload ["%s,%.6f,%.6f,%.2f,Sats:%u"]. *)
Record Alert := mkAlert {
  a_type : list ascii;
  a_lat : fp;
  a_lng : fp;
  a_extra : fp;
  a_sats : Z
}.

(** The global variables of the sketch, the [static] counter of [loop],
    and the packets handed to the radio so far (oldest first). *)
Record State := mkState {
  fireCount : Z;
  lastFireAlert : Z;
  lastQuakeAlert : Z;
  filteredAccel : fp;
  quakeWindow : list Z;
  windowIndex : nat;
  loraReady : bool;
  accelReady : bool;
  sent : list Alert
}.

(** What the peripherals answer during one pass of [loop]. *)
Record Tick := mkTick {
  now : Z;                  (* millis() *)
  flamePin : bool;          (* digitalRead(FLAME_SENSOR_PIN) *)
  accel_x : fp;             (* event.acceleration, in m/s^2 *)
  accel_y : fp;
  accel_z : fp;
  gps_valid : bool;         (* gps.location.isValid() *)
  gps_lat : fp;             (* gps.location.lat(), a double *)
  gps_lng : fp;
  gps_sats : Z              (* gps.satellites.value() *)
}.

Definition set_fireCount (v : Z) (st : State) : State :=
  mkState v (lastFireAlert st) (lastQuakeAlert st) (filteredAccel st)
          (quakeWindow st) (windowIndex st) (loraReady st) (accelReady st)
          (sent st).

Definition set_lastFireAlert (v : Z) (st : State) : State :=
  mkState (fireCount st) v (lastQuakeAlert st) (filteredAccel st)
          (quakeWindow st) (windowIndex st) (loraReady st) (accelReady st)
          (sent st).

Definition set_lastQuakeAlert (v : Z) (st : State) : State :=
  mkState (fireCount st) (lastFireAlert st) v (filteredAccel st)
          (quakeWindow st) (windowIndex st) (loraReady st) (accelReady st)
          (sent st).

Definition set_filteredAccel (v : fp) (st : State) : State :=
  mkState (fireCount st) (lastFireAlert st) (lastQuakeAlert st) v
          (quakeWindow st) (windowIndex st) (loraReady st) (accelReady st)
          (sent st).

Definition set_quakeWindow (v : list Z) (st : State) : State :=
  mkState (fireCount st) (lastFireAlert st) (lastQuakeAlert st)
          (filteredAccel st) v (windowIndex st) (loraReady st)
          (accelReady st) (sent st).

Definition set_windowIndex (v : nat) (st : State) : State :=
  mkState (fireCount st) (lastFireAlert st) (lastQuakeAlert st)
          (filteredAccel st) (quakeWindow st) v (loraReady st)
          (accelReady st) (sent st).

Definition set_sent (v : list Alert) (st : State) : State :=
  mkState (fireCount st) (lastFireAlert st) (lastQuakeAlert st)
          (filteredAccel st) (quakeWindow st) (windowIndex st)
          (loraReady st) (accelReady st) v.

(** *** [setup]

    [setup] never returns when the radio does not start (it blinks the LED
    forever); otherwise the globals have their initialisers, [loraReady]
    is set and [accelReady] tells whether the accelerometer answered. *)
Definition setup (lora_begin accel_begin : bool) : option State :=
  if lora_begin
  then Some (mkState 0 0 0 F32.zero (replicate WINDOW_SIZE 0) 0
                     true accel_begin [])
  else None.

(** *** [sendLoRaAlert] *)

(** The position [sendLoRaAlert] reports: the GPS fix when there is one,
    the fallback coordinates otherwise. *)
Definition currentLat (t : Tick) : fp :=
  if gps_valid t then F32.of_double (gps_lat t) else FALLBACK_LAT.

Definition currentLng (t : Tick) : fp :=
  if gps_valid t then F32.of_double (gps_lng t) else FALLBACK_LNG.

Definition sendLoRaAlert (t : Tick) (type : list ascii) (extra : fp)
    (st : State) : State :=
  if negb (loraReady st) then st
  else
    set_sent (sent st ++ [mkAlert type (currentLat t) (currentLng t) extra
                                  (gps_sats t)]) st.

(** *** [loop] *)

(** Lines 136-145: the flame counter and the FIRE alert. *)
Definition flameDetectedOf (t : Tick) : bool :=
  Bool.eqb (flamePin t) (if FLAME_SENSOR_ACTIVE_LOW then LOW else HIGH).

Definition fireDetection (t : Tick) (st : State) : State :=
  let flameDetected := flameDetectedOf t in
  let st :=
    if flameDetected then set_fireCount (sint (fireCount st + 1)) st
    else if fireCount st >? 0 then set_fireCount (sint (fireCount st - 1)) st
    else st in
  if (fireCount st >=? FLAME_SAMPLES_NEEDED)
     && (usub (now t) (lastFireAlert st) >? FIRE_MIN_INTERVAL)
  then
    let st := sendLoRaAlert t (lit "FIRE") (F32.literal 10 1) st in
    let st := set_lastFireAlert (now t) st in
    set_fireCount 0 st
  else st.

(** [x / 9.81]: the literal is a [double], so is the quotient. *)
Definition in_g (x : fp) : fp := F64.div (F64.of_float x) (F64.literal 981 2).

(** Lines 151-154: the norm of the acceleration with gravity removed. The
    operand of [sqrt] is a [float]; the root is correctly rounded, and the
    [double] root rounded to [float] is the same number. *)
Definition rawAccelOf (t : Tick) : fp :=
  let ax := F32.of_double (in_g (accel_x t)) in
  let ay := F32.of_double (in_g (accel_y t)) in
  let az := F32.of_double (F64.sub (in_g (accel_z t)) (F64.literal 10 1)) in
  F32.sqrt (F32.add (F32.add (F32.mul ax ax) (F32.mul ay ay))
                    (F32.mul az az)).

(** Line 155: the low-pass filter. *)
Definition lowPass (rawAccel filtered : fp) : fp :=
  F32.add (F32.mul ALPHA rawAccel)
          (F32.mul (F32.sub (F32.of_int 1) ALPHA) filtered).

(** Lines 159-160: the sum of the window. *)
Definition shakeCountOf (w : list Z) : Z :=
  fold_left (fun acc i => sint (acc + default 0 (w !! i)))
            (seq 0 WINDOW_SIZE) 0.

(** Lines 148-166: filter, vote, window and the QUAKE alert. *)
Definition quakeDetection (t : Tick) (st : State) : State :=
  if accelReady st then
    let rawAccel := rawAccelOf t in
    let st := set_filteredAccel (lowPass rawAccel (filteredAccel st)) st in
    let st :=
      set_quakeWindow
        (<[windowIndex st :=
             if F32.gtb (filteredAccel st) QUAKE_THRESHOLD then 1 else 0]>
           (quakeWindow st)) st in
    let st := set_windowIndex ((windowIndex st + 1) mod WINDOW_SIZE)%nat st in
    let shakeCount := shakeCountOf (quakeWindow st) in
    if (shakeCount >=? 4) && (usub (now t) (lastQuakeAlert st) >? 5000)
    then
      let st := sendLoRaAlert t (lit "QUAKE") (filteredAccel st) st in
      set_lastQuakeAlert (now t) st
    else st
  else st.

(** One pass of [loop]. The LED, the status line on the serial port and
    the GPS feed write none of the variables above and are left out. *)
Definition loop (t : Tick) (st : State) : State :=
  quakeDetection t (fireDetection t st).

(** Successive passes of [loop]. *)
Definition run (ts : list Tick) (st : State) : State :=
  fold_left (fun s t => loop t s) ts st.

(** *** Invariants and observations *)

(** The alerts of one type among those sent. *)
Definition alertsOf (type : list ascii) (l : list Alert) : list Alert :=
  List.filter (fun a => strcmp_eq (a_type a) type) l.

(** The vote a filtered value casts. *)
Definition voteOf (filtered : fp) : Z :=
  if F32.gtb filtered QUAKE_THRESHOLD then 1 else 0.

(** The sum of a list of votes. *)
Definition votes (w : list Z) : Z := foldr Z.add 0 w.

(** What holds of the state whenever [loop] starts: the radio is up, the
    window has ten slots, each 0 or 1, and the index is inside it. *)
Definition running (st : State) : Prop :=
  loraReady st = true
  /\ length (quakeWindow st) = WINDOW_SIZE
  /\ (windowIndex st < WINDOW_SIZE)%nat
  /\ Forall (fun v => v = 0 \/ v = 1) (quakeWindow st).

(** The leaky counter as the specification words it: one up on a
    detection, one down otherwise, never below zero. *)
Definition leaky (count : Z) (flame : bool) : Z :=
  Z.max 0 (count + (if flame then 1 else -1)).

End Transmitter.

(** ** The receiver sketch: decoding *)

Module Receiver.
Import CStr IEEE.

Inductive AlertType := NONE | FIRE | QUAKE.

(** The four results [parseMessage] writes through its pointers. *)
Record Parsed := mkParsed {
  p_type : AlertType;
  p_lat : fp;
  p_lng : fp;
  p_extra : fp
}.

Definition comma : ascii := ","%char.

Section Decoder.

(** [atof] of the C library: the [double] a numeral denotes. *)
Variable atof : list ascii -> fp.

(** A [float] assigned from [atof]. *)
Definition atof_float (p : list ascii) : fp := F32.of_double (atof p).

Definition parseMessage (msg : list ascii) : Parsed :=
  let type := NONE in
  let lat := F32.zero in
  let lng := F32.zero in
  let extra := F32.zero in
  let recognised (type : AlertType) :=
    match strchr msg comma with
    | None => mkParsed type lat lng extra
    | Some p =>
        let p := incr p in
        let lat := atof_float p in
        match strchr p comma with
        | None => mkParsed type lat lng extra
        | Some p =>
            let p := incr p in
            let lng := atof_float p in
            match strchr p comma with
            | None => mkParsed type lat lng extra
            | Some p =>
                let p := incr p in
                let extra := atof_float p in
                mkParsed type lat lng extra
            end
        end
    end in
  if strncmp_eq msg (lit "FIRE") 4 then recognised FIRE
  else if strncmp_eq msg (lit "QUAKE") 5 then recognised QUAKE
  else mkParsed type lat lng extra.

End Decoder.

(** The field that follows the [n]-th comma of a string, when the string
    has that many commas: the pointer [parseMessage] hands to [atof]. *)
Fixpoint field (n : nat) (msg : list ascii) : option (list ascii) :=
  match n with
  | O => Some msg
  | S n' =>
      match strchr msg comma with
      | None => None
      | Some p => field n' (incr p)
      end
  end.

(** The value of the [n]-th numeric field: what [atof] reads after the
    [n]-th comma, or zero when the string has fewer commas. *)
Definition fieldValue (atof : list ascii -> fp) (n : nat) (msg : list ascii)
    : fp :=
  match field n msg with
  | Some p => atof_float atof p
  | None => F32.zero
  end.

(** *** A conversion for plain numerals

    The numerals the transmitter prints are an optional sign, digits, a
    point and digits. [atof_plain] converts such a numeral as [strtod]
    does, to the nearest [double]; it reads no exponent, infinity or NaN.
    The statements below hold for every [atof]; this one runs them. *)

Definition digit (c : ascii) : option Z :=
  let n := Z.of_nat (nat_of_ascii c) in
  if (48 <=? n) && (n <=? 57) then Some (n - 48) else None.

(** Digits read from [p]: their value after [acc], how many were read
    after [cnt], and the rest of the string. *)
Fixpoint digits (p : list ascii) (acc cnt : Z) : Z * Z * list ascii :=
  match p with
  | [] => (acc, cnt, [])
  | c :: r =>
      match digit c with
      | Some d => digits r (10 * acc + d) (cnt + 1)
      | None => (acc, cnt, p)
      end
  end.

Definition atof_plain (p : list ascii) : fp :=
  let '(neg, p) :=
    match p with
    | c :: r =>
        if Ascii.eqb c "-"%char then (true, r)
        else if Ascii.eqb c "+"%char then (false, r)
        else (false, p)
    | [] => (false, p)
    end in
  let '(int_part, _, p) := digits p 0 0 in
  let '(mant, frac_digits) :=
    match p with
    | c :: r =>
        if Ascii.eqb c "."%char
        then let '(m, k, _) := digits r int_part 0 in (m, k)
        else (int_part, 0)
    | [] => (int_part, 0)
    end in
  match mant with
  | Zpos m =>
      SFdiv F64.prec F64.emax (S754_finite neg m 0)
            (S754_finite false (Z.to_pos (10 ^ frac_digits)) 0)
  | _ => S754_zero neg
  end.

End Receiver.

(** ** The relay: what [Intermediate_Nod.ino] and the single-transport
    relay sketch share *)

Module Relay.
Import Machine CStr IEEE.

Definition CACHE_SIZE : nat := 10.
Definition DEDUPE_WINDOW : Z := 5000.

(** [sizeof(msg)] of [MessageCache::msg], of the receive buffer of [loop]
    and of [EspNowMessage::msg]. *)
Definition MSG_BYTES : nat := 64.

Record MessageCache := mkMessageCache {
  msg : list ascii;          (* char msg[64] *)
  timestamp : Z              (* unsigned long *)
}.

(** The array [messageCache] and its write index. *)
Record Cache := mkCache {
  messageCache : list MessageCache;
  cacheIndex : nat
}.

(** What the sketch does to its peripherals. *)
Inductive Event :=
  | Log (text : string)                              (* Serial.println *)
  | Received (text : list ascii)                     (* the RECEIVED line *)
  | Delay (ms : Z)                                   (* delay(ms) *)
  | LoRaPacket (payload : list ascii) (sent : bool)  (* beginPacket .. endPacket *)
  | EspNowSend (payload : list ascii) (result : Z)   (* esp_now_send *)
  | BlinkRx
  | BlinkTx.

(** The cache as [setup] leaves it: the array is zero-initialised static
    storage, and [setup] clears the first byte and the time of each slot. *)
Definition emptySlot : MessageCache :=
  mkMessageCache (<[0%nat := NUL]> (replicate MSG_BYTES NUL)) 0.

Definition initialCache : Cache :=
  mkCache (replicate CACHE_SIZE emptySlot) 0.

(** [isDuplicate(text)], [now] being what [millis()] answers. *)
Definition isDuplicate (now : Z) (c : Cache) (text : list ascii) : bool :=
  existsb
    (fun i =>
       match messageCache c !! i with
       | Some slot =>
           strcmp_eq (msg slot) text
           && (usub now (timestamp slot) <? DEDUPE_WINDOW)
       | None => false
       end)
    (seq 0 CACHE_SIZE).

(** [cacheMessage(text)], [now] being what [millis()] answers. The index
    stays within the array: it is only ever assigned modulo [CACHE_SIZE]. *)
Definition cacheMessage (now : Z) (text : list ascii) (c : Cache) : Cache :=
  let slot := default emptySlot (messageCache c !! cacheIndex c) in
  let copied := strncpy (msg slot) text (MSG_BYTES - 1) in
  let copied := <[(MSG_BYTES - 1)%nat := NUL]> copied in
  mkCache (<[cacheIndex c := mkMessageCache copied now]> (messageCache c))
          ((cacheIndex c + 1) mod CACHE_SIZE)%nat.

(** [isValidMessage(text)] *)
Definition isValidMessage (text : list ascii) : bool :=
  if strncmp_eq text (lit "FIRE") 4 then true
  else if strncmp_eq text (lit "EARTHQUAKE") 10 then true
  else false.

(** The read loop of [loop]: bytes are taken from the radio while some are
    available and [idx < sizeof(msg) - 1]. *)
Fixpoint readBytes (available : list ascii) (buf : list ascii) (idx : nat)
    : list ascii * nat :=
  match available with
  | [] => (buf, idx)
  | b :: rest =>
      if (idx <? MSG_BYTES - 1)%nat
      then readBytes rest (<[idx := b]> buf) (S idx)
      else (buf, idx)
  end.

(** The receive buffer after the read loop and the terminator; [stack] is
    what the 64 bytes of the local array held before. *)
Definition readPacket (packet stack : list ascii) : list ascii :=
  let '(buf, idx) := readBytes packet stack 0 in
  <[idx := NUL]> buf.

(** Transmissions and delays among the events of a trace. *)
Definition isRadio (e : Event) : bool :=
  match e with
  | Delay _ | LoRaPacket _ _ | EspNowSend _ _ => true
  | _ => false
  end.

Definition isSend (e : Event) : bool :=
  match e with
  | LoRaPacket _ _ | EspNowSend _ _ => true
  | _ => false
  end.

(** *** Invariants and observations *)

(** A buffer of 64 bytes that holds a terminated string. *)
Definition terminated (buf : list ascii) : Prop :=
  length buf = MSG_BYTES /\ (strlen buf <= MSG_BYTES - 1)%nat.

(** The invariant of the cache. *)
Definition cache_wf (c : Cache) : Prop :=
  length (messageCache c) = CACHE_SIZE
  /\ (cacheIndex c < CACHE_SIZE)%nat
  /\ Forall (fun slot => terminated (msg slot)) (messageCache c).

(** The text a slot holds. *)
Definition slotText (slot : MessageCache) : list ascii := cstr (msg slot).

(** [n] successive [cacheMessage] calls, oldest first. *)
Definition cacheAll (records : list (Z * list ascii)) (c : Cache) : Cache :=
  fold_left (fun c r => cacheMessage (fst r) (snd r) c) records c.

End Relay.

(** ** The relay of [Intermediate_Nod.ino] *)

Module HybridRelay.
Import Machine CStr IEEE Relay.

(** The three constants that place the receiver; the sketch is built with
    [sketchConfig]. *)
Record Config := mkConfig {
  DISTANCE_THRESHOLD_METERS : fp;
  RECEIVER_LAT : fp;
  RECEIVER_LNG : fp
}.

Definition sketchConfig : Config :=
  mkConfig (F32.literal 500 1) (F32.literal 30768885 6) (F32.literal 7657521 5).

Record State := mkState {
  cache : Cache;
  messagesReceived : Z;
  messagesForwardedLoRa : Z;
  messagesForwardedEspNow : Z;
  messagesDuplicate : Z;
  trace : list Event
}.

(** What the peripherals answer during one pass of [loop]. *)
Record Env := mkEnv {
  packet : list ascii;       (* the bytes of the parsed packet, if any *)
  stack : list ascii;        (* the 64 bytes where [msg] is allocated *)
  millis_isDuplicate : Z;    (* millis() inside isDuplicate *)
  millis_cacheMessage : Z;   (* millis() inside cacheMessage *)
  esp_now_result : Z;        (* what esp_now_send returns *)
  lora_endPacket : bool      (* what LoRa.endPacket() returns *)
}.

Definition emit (e : Event) (st : State) : State :=
  mkState (cache st) (messagesReceived st) (messagesForwardedLoRa st)
          (messagesForwardedEspNow st) (messagesDuplicate st)
          (trace st ++ [e]).

Definition set_cache (c : Cache) (st : State) : State :=
  mkState c (messagesReceived st) (messagesForwardedLoRa st)
          (messagesForwardedEspNow st) (messagesDuplicate st) (trace st).

Definition incr_messagesReceived (st : State) : State :=
  mkState (cache st) (uadd (messagesReceived st) 1)
          (messagesForwardedLoRa st) (messagesForwardedEspNow st)
          (messagesDuplicate st) (trace st).

Definition incr_messagesForwardedLoRa (st : State) : State :=
  mkState (cache st) (messagesReceived st)
          (uadd (messagesForwardedLoRa st) 1) (messagesForwardedEspNow st)
          (messagesDuplicate st) (trace st).

Definition incr_messagesForwardedEspNow (st : State) : State :=
  mkState (cache st) (messagesReceived st) (messagesForwardedLoRa st)
          (uadd (messagesForwardedEspNow st) 1) (messagesDuplicate st)
          (trace st).

Definition incr_messagesDuplicate (st : State) : State :=
  mkState (cache st) (messagesReceived st) (messagesForwardedLoRa st)
          (messagesForwardedEspNow st) (uadd (messagesDuplicate st) 1)
          (trace st).

Definition initial : State := mkState initialCache 0 0 0 0 [].

(** The C library of the platform. [atof] returns a [double]. [sin], [cos]
    and [atan2] are called on [float] operands: with the overloads of
    <cmath> in scope they work on [float], with the functions of <math.h>
    alone the operands are promoted and the expression is evaluated in
    [double]; [math_prec] and [math_emax] tell which format it is (24 and
    128, or 53 and 1024). The square root is the correctly rounded one of
    that format. *)
Record CLibrary := mkCLibrary {
  atof : list ascii -> fp;
  sin : fp -> fp;
  cos : fp -> fp;
  atan2 : fp -> fp -> fp;
  math_prec : Z;
  math_emax : Z
}.

Section Sketch.

Variable libc : CLibrary.
Variable cfg : Config.

(** The macro [PI] of the Arduino core, a [double]. *)
Definition PI : fp := F64.literal 31415926535897932384626433832795 31.

(** [x * PI / 180] for a [float] [x], assigned to a [float]. *)
Definition radians (x : fp) : fp :=
  F32.of_double (F64.div (F64.mul (F64.of_float x) PI) (F64.of_int 180)).

(** The arithmetic of the format the library functions work in. *)
Definition promote : fp -> fp := round_to (math_prec libc) (math_emax libc).
Definition m_add : fp -> fp -> fp := SFadd (math_prec libc) (math_emax libc).
Definition m_mul : fp -> fp -> fp := SFmul (math_prec libc) (math_emax libc).
Definition m_sqrt : fp -> fp := SFsqrt (math_prec libc) (math_emax libc).
Definition m_of_int (z : Z) : fp :=
  binary_normalize (math_prec libc) (math_emax libc) z 0 false.

Definition calculateDistance (lat1 lon1 lat2 lon2 : fp) : fp :=
  let R := F32.of_int 6371000 in
  let phi1 := radians lat1 in
  let phi2 := radians lat2 in
  let deltaPhi := radians (F32.sub lat2 lat1) in
  let deltaLambda := radians (F32.sub lon2 lon1) in
  let half (x : fp) := promote (F32.div x (F32.of_int 2)) in
  let a :=
    F32.of_double
      (m_add
         (m_mul (sin libc (half deltaPhi)) (sin libc (half deltaPhi)))
         (m_mul
            (m_mul (m_mul (cos libc (promote phi1)) (cos libc (promote phi2)))
                   (sin libc (half deltaLambda)))
            (sin libc (half deltaLambda)))) in
  let c :=
    F32.of_double
      (m_mul (m_of_int 2)
             (atan2 libc (m_sqrt (promote a))
                         (m_sqrt (promote (F32.sub (F32.of_int 1) a))))) in
  F32.mul R c.

(** Lines 189-198 of [forwardMessage]: the coordinates of the transmitter
    read off the message, and its distance to the receiver. *)
Definition distanceToReceiver (text : list ascii) : fp :=
  let '(transLat, transLng) :=
    match strchr text ","%char with
    | Some p =>
        let p := incr p in
        let transLat := F32.of_double (atof libc p) in
        match strchr p ","%char with
        | Some p => (transLat, F32.of_double (atof libc (incr p)))
        | None => (transLat, F32.zero)
        end
    | None => (F32.zero, F32.zero)
    end in
  calculateDistance transLat transLng (RECEIVER_LAT cfg) (RECEIVER_LNG cfg).

(** The 64 bytes handed to [esp_now_send]. *)
Definition espNowMessage (text : list ascii) : list ascii :=
  <[(MSG_BYTES - 1)%nat := NUL]>
    (strncpy (replicate MSG_BYTES NUL) text (MSG_BYTES - 1)).

(** Lines 203-228 of [forwardMessage]: the choice of the transport and the
    transmission. *)
Definition forwardOver (env : Env) (dist : fp) (text : list ascii)
    (st : State) : State :=
  if F32.ltb dist (DISTANCE_THRESHOLD_METERS cfg) then
    let result := esp_now_result env in
    let st := emit (EspNowSend (espNowMessage text) result) st in
    if result =? 0 then
      let st := emit (Log "FORWARDED (ESP-NOW)") st in
      let st := incr_messagesForwardedEspNow st in
      emit BlinkTx st
    else emit (Log "ESP-NOW Forward failed") st
  else
    let st := emit (LoRaPacket (cstr text) (lora_endPacket env)) st in
    if lora_endPacket env then
      let st := emit (Log "FORWARDED (LoRa)") st in
      let st := incr_messagesForwardedLoRa st in
      emit BlinkTx st
    else emit (Log "LoRa Forward failed") st.

(** What [forwardOver] hands to a radio. *)
Definition hybridSend (env : Env) (dist : fp) (text : list ascii)
    : Event :=
  if F32.ltb dist (DISTANCE_THRESHOLD_METERS cfg)
  then EspNowSend (espNowMessage text)
                  (esp_now_result env)
  else LoRaPacket (cstr text) (lora_endPacket env).

(** Whether the radio took the message. *)
Definition hybridSuccess (env : Env) (dist : fp) : bool :=
  if F32.ltb dist (DISTANCE_THRESHOLD_METERS cfg)
  then esp_now_result env =? 0
  else lora_endPacket env.

Definition forwardMessage (env : Env) (text : list ascii) (st : State)
    : State :=
  let dist := distanceToReceiver text in
  let st := emit (Log "Distance to Receiver") st in
  forwardOver env dist text st.

(** One pass of [loop]. The LED time-outs and the statistics printed every
    ten seconds read the variables of the state and write none. *)
Definition loop (env : Env) (st : State) : State :=
  let packetSize := Z.of_nat (length (packet env)) in
  if packetSize >? 0 then
    let text := readPacket (packet env) (stack env) in
    let st := incr_messagesReceived st in
    let st := emit BlinkRx st in
    let st := emit (Received (cstr text)) st in
    if negb (isValidMessage text) then
      emit (Log "Invalid format - not forwarding") st
    else if isDuplicate (millis_isDuplicate env) (cache st) text then
      let st := incr_messagesDuplicate st in
      emit (Log "Duplicate - not forwarding") st
    else
      let st := set_cache (cacheMessage (millis_cacheMessage env) text
                                        (cache st)) st in
      forwardMessage env text st
  else st.

End Sketch.

(** The state in which [forwardMessage] starts. *)
Definition recorded (text : list ascii) (t_cache : Z)
    (st : State) : State :=
  set_cache
    (cacheMessage t_cache text (cache st))
    (emit (Received (cstr text))
       (emit BlinkRx (incr_messagesReceived st))).

End HybridRelay.

(** ** The single-transport relay

    The relay sketch that forwards over LoRa alone, after a random delay
    of 50 to 150 ms. Its cache, validation and [loop] are those of
    [Intermediate_Nod.ino]. *)

Module PlainRelay.
Import Machine CStr Relay.

Record State := mkState {
  cache : Cache;
  messagesReceived : Z;
  messagesForwarded : Z;
  messagesDuplicate : Z;
  trace : list Event
}.

(** What the peripherals answer during one pass of [loop]. *)
Record Env := mkEnv {
  packet : list ascii;       (* the bytes of the parsed packet, if any *)
  stack : list ascii;        (* the 64 bytes where [msg] is allocated *)
  millis_isDuplicate : Z;    (* millis() inside isDuplicate *)
  millis_cacheMessage : Z;   (* millis() inside cacheMessage *)
  random_50_150 : Z;         (* random(50, 150) *)
  lora_endPacket : bool      (* what LoRa.endPacket() returns *)
}.

Definition emit (e : Event) (st : State) : State :=
  mkState (cache st) (messagesReceived st) (messagesForwarded st)
          (messagesDuplicate st) (trace st ++ [e]).

Definition set_cache (c : Cache) (st : State) : State :=
  mkState c (messagesReceived st) (messagesForwarded st)
          (messagesDuplicate st) (trace st).

Definition incr_messagesReceived (st : State) : State :=
  mkState (cache st) (uadd (messagesReceived st) 1) (messagesForwarded st)
          (messagesDuplicate st) (trace st).

Definition incr_messagesForwarded (st : State) : State :=
  mkState (cache st) (messagesReceived st) (uadd (messagesForwarded st) 1)
          (messagesDuplicate st) (trace st).

Definition incr_messagesDuplicate (st : State) : State :=
  mkState (cache st) (messagesReceived st) (messagesForwarded st)
          (uadd (messagesDuplicate st) 1) (trace st).

Definition initial : State := mkState initialCache 0 0 0 [].

Definition forwardMessage (env : Env) (text : list ascii) (st : State)
    : State :=
  let st := emit (Delay (random_50_150 env)) st in
  let success := lora_endPacket env in
  let st := emit (LoRaPacket (cstr text) success) st in
  if success then
    let st := emit BlinkTx st in
    let st := incr_messagesForwarded st in
    emit (Log "FORWARDED") st
  else emit (Log "Forward failed") st.

Definition loop (env : Env) (st : State) : State :=
  let packetSize := Z.of_nat (length (packet env)) in
  if packetSize >? 0 then
    let text := readPacket (packet env) (stack env) in
    let st := incr_messagesReceived st in
    let st := emit BlinkRx st in
    let st := emit (Received (cstr text)) st in
    if negb (isValidMessage text) then
      emit (Log "Invalid format - not forwarding") st
    else if isDuplicate (millis_isDuplicate env) (cache st) text then
      let st := incr_messagesDuplicate st in
      emit (Log "Duplicate - not forwarding") st
    else
      let st := set_cache (cacheMessage (millis_cacheMessage env) text
                                        (cache st)) st in
      forwardMessage env text st
  else st.

(** The state in which [forwardMessage] starts. *)
Definition recorded (text : list ascii) (t_cache : Z)
    (st : State) : State :=
  set_cache
    (cacheMessage t_cache text (cache st))
    (emit (Received (cstr text))
       (emit BlinkRx (incr_messagesReceived st))).

End PlainRelay.

(** ** Sample messages

    The payloads the transmitter documentation gives as examples. *)

Module Samples.
Import CStr.

Definition fireMessage : list ascii := lit "FIRE,30.768885,76.575210,1.00".
Definition quakeMessage : list ascii := lit "QUAKE,30.768885,76.575210,0.15".

(** A stack area of 64 bytes. *)
Definition someStack : list ascii := replicate Relay.MSG_BYTES "x"%char.

(** A transmitter just started, with its accelerometer. *)
Definition booted : Transmitter.State :=
  Transmitter.mkState 0 0 0 IEEE.F32.zero
                      (replicate Transmitter.WINDOW_SIZE 0) 0 true true [].

(** Passes of [loop] without a GPS fix: at rest (gravity alone on the
    vertical axis), with a flame in sight, and shaken sideways at 5 m/s^2. *)
Definition gravity : IEEE.fp := IEEE.F32.literal 981 2.

Definition atRest (now : Z) : Transmitter.Tick :=
  Transmitter.mkTick now Transmitter.HIGH IEEE.F32.zero IEEE.F32.zero gravity
                     false IEEE.F32.zero IEEE.F32.zero 0.

Definition flameSeen (now : Z) : Transmitter.Tick :=
  Transmitter.mkTick now Transmitter.LOW IEEE.F32.zero IEEE.F32.zero gravity
                     false IEEE.F32.zero IEEE.F32.zero 0.

Definition shaken (now : Z) : Transmitter.Tick :=
  Transmitter.mkTick now Transmitter.HIGH (IEEE.F32.of_int 5) IEEE.F32.zero
                     gravity false IEEE.F32.zero IEEE.F32.zero 0.

(** Two packets of 70 bytes that differ in their last byte only. *)
Definition longPacket (last : ascii) : list ascii :=
  lit "FIRE,30.768885,76.575210,1.00" ++ replicate 40 "9"%char ++ [last].

End Samples.

(** ** Runs of the transmitter *)

Module TransmitterRuns.
Import Machine CStr IEEE Transmitter.

(** The passes of a run in which the flame sensor reported a flame. *)
Definition detections (ts : list Tick) : nat :=
  length (List.filter flameDetectedOf ts).

(** Clock readings that never go back and never wrap: each reading is an
    [unsigned long] at or after the one before, the first at or after
    [from]. *)
Fixpoint chronological (from : Z) (ts : list Tick) : Prop :=
  match ts with
  | [] => True
  | t :: rest =>
      from <= now t < ULONG_MODULUS /\ chronological (now t) rest
  end.

(** The votes written into the window during a run, oldest first. *)
Fixpoint casts (ts : list Tick) (st : State) : list Z :=
  match ts with
  | [] => []
  | t :: rest =>
      voteOf (lowPass (rawAccelOf t) (filteredAccel st))
        :: casts rest (loop t st)
  end.

(** The window read from the write index round to it: the slot the next
    vote overwrites comes first. *)
Definition unrolled (st : State) : list Z :=
  drop (windowIndex st) (quakeWindow st)
    ++ take (windowIndex st) (quakeWindow st).

End TransmitterRuns.

(** ** Runs of the relays *)

Module RelayRuns.
Import Machine CStr IEEE Relay.

(** Successive passes of [loop]. *)
Definition hybridRun (libc : HybridRelay.CLibrary) (cfg : HybridRelay.Config)
    (envs : list HybridRelay.Env) (st : HybridRelay.State)
    : HybridRelay.State :=
  fold_left (fun s e => HybridRelay.loop libc cfg e s) envs st.

Definition plainRun (envs : list PlainRelay.Env) (st : PlainRelay.State)
    : PlainRelay.State :=
  fold_left (fun s e => PlainRelay.loop e s) envs st.

(** Events of a kind among those of a trace. *)
Definition isReceived (e : Event) : bool :=
  match e with
  | Received _ => true
  | _ => false
  end.

Definition isLog (line : string) (e : Event) : bool :=
  match e with
  | Log l => String.eqb l line
  | _ => false
  end.

Definition isForwardedLoRa (e : Event) : bool :=
  match e with
  | LoRaPacket _ sent => sent
  | _ => false
  end.

Definition isForwardedEspNow (e : Event) : bool :=
  match e with
  | EspNowSend _ result => result =? 0
  | _ => false
  end.

Definition count (p : Event -> bool) (tr : list Event) : Z :=
  Z.of_nat (length (List.filter p tr)).

(** The text a transmission carries: the bytes printed into a LoRa packet,
    the string held by the 64 bytes of an ESP-NOW frame. *)
Definition carried (e : Event) : list ascii :=
  match e with
  | LoRaPacket payload _ => payload
  | EspNowSend payload _ => cstr payload
  | _ => []
  end.

(** The statistics of the hybrid relay agree with its trace. *)
Definition hybridCounted (st : HybridRelay.State) : Prop :=
  let tr := HybridRelay.trace st in
  HybridRelay.messagesReceived st = ulong (count isReceived tr)
  /\ HybridRelay.messagesDuplicate st
     = ulong (count (isLog "Duplicate - not forwarding") tr)
  /\ HybridRelay.messagesForwardedLoRa st = ulong (count isForwardedLoRa tr)
  /\ HybridRelay.messagesForwardedEspNow st
     = ulong (count isForwardedEspNow tr).

(** The statistics of the single-transport relay agree with its trace. *)
Definition plainCounted (st : PlainRelay.State) : Prop :=
  let tr := PlainRelay.trace st in
  PlainRelay.messagesReceived st = ulong (count isReceived tr)
  /\ PlainRelay.messagesDuplicate st
     = ulong (count (isLog "Duplicate - not forwarding") tr)
  /\ PlainRelay.messagesForwarded st = ulong (count isForwardedLoRa tr).

(** Every packet received is refused, dropped as a duplicate or handed to
    a radio, once. *)
Definition accounted (tr : list Event) : Prop :=
  count isReceived tr
  = count (isLog "Invalid format - not forwarding") tr
    + count (isLog "Duplicate - not forwarding") tr
    + count isSend tr.

End RelayRuns.

(** ** The receiver: display, buzzer and [loop] of the receiver sketch *)

Module ReceiverLoop.
Import Machine CStr IEEE Receiver.

Definition DISPLAY_TIMEOUT : Z := 15000.

(** [sizeof(msg)] of the receive buffer of [loop]. *)
Definition MSG_BYTES : nat := 80.

Definition LOW : bool := false.
Definition HIGH : bool := true.

(** The anonymous structure [buzzer]. *)
Record Buzzer := mkBuzzer {
  active : bool;
  isHigh : bool;
  beepsRemaining : Z;        (* uint8_t *)
  beepDuration : Z;          (* uint16_t *)
  nextToggle : Z             (* unsigned long *)
}.

(** A line drawn on the display: a text, or a label, a number printed with
    so many decimals, and a unit. *)
Inductive Line :=
  | Text (s : string)
  | Number (label : string) (value : fp) (decimals : nat) (suffix : string).

(** What the sketch does to its peripherals. *)
Inductive Event :=
  | BuzzerPin (level : bool)         (* digitalWrite(BUZZER_PIN, level) *)
  | Screen (lines : list Line)       (* clearDisplay() .. display() *)
  | SerialReceived (text : list ascii).

(** The global variables of the sketch and what it did so far (oldest
    first). *)
Record State := mkState {
  buzzer : Buzzer;
  lastAlertTime : Z;
  alertDisplayed : bool;
  displayReady : bool;
  out : list Event
}.

(** What the peripherals answer during one pass of [loop]. *)
Record Env := mkEnv {
  millis_updateBuzzer : Z;   (* millis() inside updateBuzzer *)
  millis_timeout : Z;        (* millis() of the time-out test *)
  packet : list ascii;       (* the bytes of the parsed packet, if any *)
  millis_startBuzzer : Z;    (* millis() inside startBuzzer *)
  millis_alert : Z           (* millis() assigned to lastAlertTime *)
}.

Definition emit (e : Event) (st : State) : State :=
  mkState (buzzer st) (lastAlertTime st) (alertDisplayed st) (displayReady st)
          (out st ++ [e]).

Definition set_buzzer (b : Buzzer) (st : State) : State :=
  mkState b (lastAlertTime st) (alertDisplayed st) (displayReady st) (out st).

Definition set_lastAlertTime (v : Z) (st : State) : State :=
  mkState (buzzer st) v (alertDisplayed st) (displayReady st) (out st).

Definition set_alertDisplayed (v : bool) (st : State) : State :=
  mkState (buzzer st) (lastAlertTime st) v (displayReady st) (out st).

(** *** The display *)

Definition listeningScreen : list Line :=
  [Text "Receiver Ready"; Text "Listening..."].

Definition showListeningScreen (st : State) : State :=
  if negb (displayReady st) then st
  else emit (Screen listeningScreen) st.

Definition alertScreen (type : AlertType) (lat lng extra : fp) : list Line :=
  match type with
  | FIRE => [Text "FIRE ALERT!"]
  | QUAKE => [Text "EARTHQUAKE!"]
  | NONE => []
  end
  ++ [Text ""; Number "Lat: " lat 5 ""; Number "Lng: " lng 5 ""]
  ++ match type with
     | QUAKE => [Number "Accel: " extra 2 "g"]
     | _ => []
     end.

Definition displayAlert (type : AlertType) (lat lng extra : fp) (st : State)
    : State :=
  if negb (displayReady st) then st
  else emit (Screen (alertScreen type lat lng extra)) st.

(** *** The buzzer *)

Definition startBuzzer (type : AlertType) (now : Z) (st : State) : State :=
  let beeps := match type with FIRE => 5 | _ => 3 end in
  let duration := match type with FIRE => 150 | _ => 300 end in
  let b := mkBuzzer true true beeps duration (uadd now duration) in
  emit (BuzzerPin HIGH) (set_buzzer b st).

(** [updateBuzzer()], [now] being what [millis()] answers. The comparison
    with [nextToggle] is the plain one of [unsigned long]. *)
Definition updateBuzzer (now : Z) (st : State) : State :=
  let b := buzzer st in
  if negb (active b) then st
  else if now >=? nextToggle b then
    let high := negb (isHigh b) in
    let st := emit (BuzzerPin (if high then HIGH else LOW)) st in
    if negb high then
      let remaining := (beepsRemaining b - 1) mod 256 in
      if remaining =? 0 then
        let b := mkBuzzer false high remaining (beepDuration b)
                          (nextToggle b) in
        emit (BuzzerPin LOW) (set_buzzer b st)
      else
        set_buzzer (mkBuzzer (active b) high remaining (beepDuration b)
                             (uadd now 120)) st
    else
      set_buzzer (mkBuzzer (active b) high (beepsRemaining b) (beepDuration b)
                           (uadd now (beepDuration b))) st
  else st.

(** *** [setup]

    [setup] never returns when the radio does not start. The second address
    of the display is tried when the first does not answer. *)
Definition initialBuzzer : Buzzer := mkBuzzer false false 0 0 0.

Definition setup (oled_3C oled_3D lora_begin : bool) : option State :=
  let ready := if oled_3C then true else oled_3D in
  let st := mkState initialBuzzer 0 false ready [] in
  let st := if ready then showListeningScreen st else st in
  let st := emit (BuzzerPin LOW) st in
  if lora_begin then Some st else None.

(** *** [loop] *)

(** The read loop: [msg] is zero-initialised, bytes are taken from the
    radio while some are available and [idx < sizeof(msg) - 1]. *)
Fixpoint readBytes (available : list ascii) (buf : list ascii) (idx : nat)
    : list ascii * nat :=
  match available with
  | [] => (buf, idx)
  | b :: rest =>
      if (idx <? MSG_BYTES - 1)%nat
      then readBytes rest (<[idx := b]> buf) (S idx)
      else (buf, idx)
  end.

Definition readPacket (packet : list ascii) : list ascii :=
  let '(buf, idx) := readBytes packet (replicate MSG_BYTES NUL) 0 in
  <[idx := NUL]> buf.

Section Sketch.

(** [atof] of the C library. *)
Variable atof : list ascii -> fp.

Definition loop (env : Env) (st : State) : State :=
  let st := updateBuzzer (millis_updateBuzzer env) st in
  let st :=
    if alertDisplayed st
       && (usub (millis_timeout env) (lastAlertTime st) >? DISPLAY_TIMEOUT)
    then set_alertDisplayed false (showListeningScreen st)
    else st in
  let packetSize := Z.of_nat (length (packet env)) in
  if packetSize >? 0 then
    let msg := readPacket (packet env) in
    let r := parseMessage atof msg in
    match p_type r with
    | NONE => st
    | type =>
        let st := emit (SerialReceived (cstr msg)) st in
        let st := displayAlert type (p_lat r) (p_lng r) (p_extra r) st in
        let st := startBuzzer type (millis_startBuzzer env) st in
        let st := set_lastAlertTime (millis_alert env) st in
        set_alertDisplayed true st
    end
  else st.

(** Successive passes of [loop]. *)
Definition run (envs : list Env) (st : State) : State :=
  fold_left (fun s e => loop e s) envs st.

(** Whether a pass of [loop] finds an alert in its packet. *)
Definition recognised (env : Env) : bool :=
  (Z.of_nat (length (packet env)) >? 0)
  && match p_type (parseMessage atof (readPacket (packet env))) with
     | NONE => false
     | _ => true
     end.

End Sketch.

(** *** Observations *)

(** Successive calls of [updateBuzzer]. *)
Definition updates (nows : list Z) (st : State) : State :=
  fold_left (fun s now => updateBuzzer now s) nows st.

(** The number of beeps of the pattern of an alert. *)
Definition beepsOf (type : AlertType) : Z :=
  match type with FIRE => 5 | _ => 3 end.

Definition isPin (level : bool) (e : Event) : bool :=
  match e with
  | BuzzerPin l => Bool.eqb l level
  | _ => false
  end.

Definition isScreen (e : Event) : bool :=
  match e with
  | Screen _ => true
  | _ => false
  end.

(** How many times the buzzer pin was driven to a level. *)
Definition pinWrites (level : bool) (tr : list Event) : Z :=
  Z.of_nat (length (List.filter (isPin level) tr)).

(** The level of the buzzer pin after a trace, from [level]. *)
Definition pinLevel (level : bool) (tr : list Event) : bool :=
  fold_left (fun l e => match e with BuzzerPin l' => l' | _ => l end) tr level.

(** The invariant of the buzzer: the pin is high exactly in the high phase
    of an active pattern, and an active pattern has beeps left. *)
Definition buzzer_wf (st : State) : Prop :=
  pinLevel LOW (out st) = active (buzzer st) && isHigh (buzzer st)
  /\ (active (buzzer st) = true -> 1 <= beepsRemaining (buzzer st) <= 5).

(** Where a pattern of [n] beeps stands, [highs] and [lows] being the
    numbers of writes of each level before it started. *)
Definition pattern (n highs lows : Z) (st : State) : Prop :=
  let b := buzzer st in
  if active b
  then 1 <= beepsRemaining b <= n - (if isHigh b then 0 else 1)
       /\ pinWrites HIGH (out st) + beepsRemaining b
          = highs + n + (if isHigh b then 1 else 0)
       /\ pinWrites LOW (out st) + beepsRemaining b = lows + n
  else pinWrites HIGH (out st) = highs + n
       /\ pinWrites LOW (out st) = lows + n + 1
       /\ pinLevel LOW (out st) = LOW.

(** The state of a receiver whose display is absent, and its trace
    without what goes to the display. *)
Definition withoutDisplay (st : State) : State :=
  mkState (buzzer st) (lastAlertTime st) (alertDisplayed st) false
          (List.filter (fun e => negb (isScreen e)) (out st)).

(** Readings of the clock at least 300 ms apart, the longest phase of a
    pattern, on a clock that does not wrap. *)
Fixpoint spaced (prev : Z) (nows : list Z) : Prop :=
  match nows with
  | [] => True
  | now :: rest =>
      prev + 300 <= now < ULONG_MODULUS - 300 /\ spaced now rest
  end.

(** Whether the alert on display is older than the time-out at a pass. *)
Definition expired (since : Z) (env : Env) : bool :=
  usub (millis_timeout env) since >? DISPLAY_TIMEOUT.

End ReceiverLoop.

(** ** The payload on the air *)

Module Wire.
Import Machine CStr IEEE Transmitter.

(** The conversions of [snprintf] the sketches use: ["%.<n>f"] of a
    [double] and ["%u"]. *)
Record Printf := mkPrintf {
  fmt_f : nat -> fp -> list ascii;
  fmt_u : Z -> list ascii
}.

(** [sizeof(payload)] in [sendLoRaAlert], of the sketch with GPS and of the
    sketch with demonstration coordinates. *)
Definition PAYLOAD_BYTES : nat := 80.
Definition DEMO_PAYLOAD_BYTES : nat := 64.

Section Payload.

Variable pf : Printf.

(** A [float] argument of [snprintf] is promoted to [double]. *)
Definition field_f (decimals : nat) (x : fp) : list ascii :=
  fmt_f pf decimals (F64.of_float x).

(** ["%s,%.6f,%.6f,%.2f,Sats:%u"] of the fields of an alert. *)
Definition formatted (a : Alert) : list ascii :=
  cstr (a_type a) ++ lit "," ++ field_f 6 (a_lat a) ++ lit ","
    ++ field_f 6 (a_lng a) ++ lit "," ++ field_f 2 (a_extra a)
    ++ lit ",Sats:" ++ fmt_u pf (a_sats a).

(** What [LoRa.print(payload)] puts in the packet: [snprintf] keeps 79
    bytes at most, and the string ends at its first NUL. *)
Definition payload (a : Alert) : list ascii :=
  cstr (take (PAYLOAD_BYTES - 1) (formatted a)).

(** ["%s,%.6f,%.6f,%.2f"], the payload of the sketch with demonstration
    coordinates. *)
Definition demoFormatted (type : list ascii) (lat lng extra : fp)
    : list ascii :=
  cstr type ++ lit "," ++ field_f 6 lat ++ lit "," ++ field_f 6 lng
    ++ lit "," ++ field_f 2 extra.

Definition demoPayload (type : list ascii) (lat lng extra : fp)
    : list ascii :=
  cstr (take (DEMO_PAYLOAD_BYTES - 1) (demoFormatted type lat lng extra)).

End Payload.

(** The kind the receiver has for a type the transmitter sends. *)
Definition kindOf (type : list ascii) : Receiver.AlertType :=
  if strcmp_eq type (lit "FIRE") then Receiver.FIRE
  else if strcmp_eq type (lit "QUAKE") then Receiver.QUAKE
  else Receiver.NONE.

(** *** Conversions for finite numbers

    [printf_plain] prints as the C library does in the "C" locale: the
    decimal expansion of the exact value, rounded to the number of decimals
    asked for, ties to even. The statements below hold for every [Printf];
    this one runs them. *)

Definition round_half_even (p q : Z) : Z :=
  let d := p / q in
  let r := p mod q in
  if 2 * r <? q then d
  else if 2 * r >? q then d + 1
  else if Z.even d then d else d + 1.

Definition numeral (z : Z) : list ascii :=
  lit (DecimalString.NilEmpty.string_of_uint (N.to_uint (Z.to_N z))).

(** The integer [scaled] read with [n] decimals. *)
Definition fixed (n : nat) (scaled : Z) : list ascii :=
  let s := numeral scaled in
  let s := replicate (S n - length s) "0"%char ++ s in
  take (length s - n) s
    ++ (if (n =? 0)%nat then [] else "."%char :: drop (length s - n) s).

Definition signOf (s : bool) : list ascii := if s then lit "-" else [].

Definition fmt_f_plain (n : nat) (x : fp) : list ascii :=
  match x with
  | S754_zero s => signOf s ++ fixed n 0
  | S754_infinity s => signOf s ++ lit "inf"
  | S754_nan => lit "nan"
  | S754_finite s m e =>
      let scaled :=
        if 0 <=? e then Zpos m * 2 ^ e * 10 ^ Z.of_nat n
        else round_half_even (Zpos m * 10 ^ Z.of_nat n) (2 ^ (- e)) in
      signOf s ++ fixed n scaled
  end.

Definition printf_plain : Printf := mkPrintf fmt_f_plain numeral.

End Wire.

(** ** The passes of the relays, statement by statement *)

Module RelaySteps.
Import Machine CStr IEEE Relay.

(** The states [forwardMessage] of the single-transport relay goes
    through, one after each statement, in the order of the source: the
    jitter delay, the packet, and what follows the outcome. *)
Definition plainForwardSteps (env : PlainRelay.Env) (text : list ascii)
    (st : PlainRelay.State) : list PlainRelay.State :=
  let st1 := PlainRelay.emit (Delay (PlainRelay.random_50_150 env)) st in
  let success := PlainRelay.lora_endPacket env in
  let st2 := PlainRelay.emit (LoRaPacket (cstr text) success) st1 in
  if success then
    let st3 := PlainRelay.emit BlinkTx st2 in
    let st4 := PlainRelay.incr_messagesForwarded st3 in
    [st1; st2; st3; st4; PlainRelay.emit (Log "FORWARDED") st4]
  else [st1; st2; PlainRelay.emit (Log "Forward failed") st2].

(** The states one pass of [loop] goes through, one after each statement:
    the counter, the LED and the log of the reception, then the refusal,
    or the duplicate, or [cacheMessage] followed by the statements of
    [forwardMessage]. A pass without packet goes through none. *)
Definition plainLoopSteps (env : PlainRelay.Env) (st : PlainRelay.State)
    : list PlainRelay.State :=
  let packetSize := Z.of_nat (length (PlainRelay.packet env)) in
  if packetSize >? 0 then
    let text := readPacket (PlainRelay.packet env) (PlainRelay.stack env) in
    let st1 := PlainRelay.incr_messagesReceived st in
    let st2 := PlainRelay.emit BlinkRx st1 in
    let st3 := PlainRelay.emit (Received (cstr text)) st2 in
    [st1; st2; st3]
      ++ (if negb (isValidMessage text) then
            [PlainRelay.emit (Log "Invalid format - not forwarding") st3]
          else if isDuplicate (PlainRelay.millis_isDuplicate env)
                              (PlainRelay.cache st3) text then
            let st4 := PlainRelay.incr_messagesDuplicate st3 in
            [st4; PlainRelay.emit (Log "Duplicate - not forwarding") st4]
          else
            let st4 :=
              PlainRelay.set_cache
                (cacheMessage (PlainRelay.millis_cacheMessage env) text
                              (PlainRelay.cache st3)) st3 in
            st4 :: plainForwardSteps env text st4)
  else [].

Section Hybrid.

Variable libc : HybridRelay.CLibrary.
Variable cfg : HybridRelay.Config.

(** The same for [forwardMessage] of the hybrid relay: the distance and
    its log line, the frame or the packet, and what follows the outcome. *)
Definition hybridForwardSteps (env : HybridRelay.Env) (text : list ascii)
    (st : HybridRelay.State) : list HybridRelay.State :=
  let dist := HybridRelay.distanceToReceiver libc cfg text in
  let st1 := HybridRelay.emit (Log "Distance to Receiver") st in
  st1 ::
  (if F32.ltb dist (HybridRelay.DISTANCE_THRESHOLD_METERS cfg) then
     let result := HybridRelay.esp_now_result env in
     let st2 :=
       HybridRelay.emit (EspNowSend (HybridRelay.espNowMessage text) result)
                        st1 in
     if result =? 0 then
       let st3 := HybridRelay.emit (Log "FORWARDED (ESP-NOW)") st2 in
       let st4 := HybridRelay.incr_messagesForwardedEspNow st3 in
       [st2; st3; st4; HybridRelay.emit BlinkTx st4]
     else [st2; HybridRelay.emit (Log "ESP-NOW Forward failed") st2]
   else
     let st2 :=
       HybridRelay.emit (LoRaPacket (cstr text) (HybridRelay.lora_endPacket env))
                        st1 in
     if HybridRelay.lora_endPacket env then
       let st3 := HybridRelay.emit (Log "FORWARDED (LoRa)") st2 in
       let st4 := HybridRelay.incr_messagesForwardedLoRa st3 in
       [st2; st3; st4; HybridRelay.emit BlinkTx st4]
     else [st2; HybridRelay.emit (Log "LoRa Forward failed") st2]).

Definition hybridLoopSteps (env : HybridRelay.Env) (st : HybridRelay.State)
    : list HybridRelay.State :=
  let packetSize := Z.of_nat (length (HybridRelay.packet env)) in
  if packetSize >? 0 then
    let text := readPacket (HybridRelay.packet env) (HybridRelay.stack env) in
    let st1 := HybridRelay.incr_messagesReceived st in
    let st2 := HybridRelay.emit BlinkRx st1 in
    let st3 := HybridRelay.emit (Received (cstr text)) st2 in
    [st1; st2; st3]
      ++ (if negb (isValidMessage text) then
            [HybridRelay.emit (Log "Invalid format - not forwarding") st3]
          else if isDuplicate (HybridRelay.millis_isDuplicate env)
                              (HybridRelay.cache st3) text then
            let st4 := HybridRelay.incr_messagesDuplicate st3 in
            [st4; HybridRelay.emit (Log "Duplicate - not forwarding") st4]
          else
            let st4 :=
              HybridRelay.set_cache
                (cacheMessage (HybridRelay.millis_cacheMessage env) text
                              (HybridRelay.cache st3)) st3 in
            st4 :: hybridForwardSteps env text st4)
  else [].

End Hybrid.

(** The record comes first: a sequence of states splits into states that
    have the cache [c] and nothing on the air beyond the radio events and
    delays of [tr], one state that has the cache [c'] and still nothing more
    on the air, and states that all have the cache [c']. *)
Definition recordedFirst {S : Type} (cacheOf : S -> Cache)
    (traceOf : S -> list Event) (c c' : Cache) (tr : list Event)
    (steps : list S) : Prop :=
  exists before s after,
    steps = before ++ s :: after
    /\ Forall (fun x => cacheOf x = c
                        /\ List.filter isRadio (traceOf x)
                           = List.filter isRadio tr) before
    /\ cacheOf s = c'
    /\ List.filter isRadio (traceOf s) = List.filter isRadio tr
    /\ Forall (fun x => cacheOf x = c') after.

End RelaySteps.

(** ** Observations on the distance *)

Module DistanceSamples.
Import Machine CStr IEEE.


(** A C library to run the statements on. Its [atof] reads "nan" as the C
    one does and plain numerals otherwise; its [sin], [cos] and [atan2]
    stand for those of the platform: they are not these functions, they
    have the properties of them the statements ask for (an odd sine that is
    zero at zero, cosines whose products are finite, NaN for a NaN
    operand, [atan2(+0, 1) = +0]). *)
Definition atof_nan (p : list ascii) : fp :=
  if strncmp_eq p (lit "nan") 3 then S754_nan else Receiver.atof_plain p.

Definition standInLibc : HybridRelay.CLibrary :=
  HybridRelay.mkCLibrary
    atof_nan
    (fun x => x)
    (fun x => match x with S754_nan => S754_nan | _ => F32.of_int 1 end)
    (fun y x => match x with S754_nan => S754_nan | _ => y end)
    24 128.

End DistanceSamples.

(** ** From the relay to the receiver *)

Module AlertPath.
Import Machine CStr Relay.

(** The packets a trace of a relay leaves on the LoRa channel, oldest
    first: the bytes printed between [LoRa.beginPacket()] and a
    [LoRa.endPacket()] that returned 1. The receiver sketch drives a LoRa
    radio and nothing else: what is handed to [esp_now_send] reaches no
    statement of it. *)
Definition onAir (tr : list Event) : list (list ascii) :=
  omap (fun e => match e with
                 | LoRaPacket bytes true => Some bytes
                 | _ => None
                 end) tr.

End AlertPath.

(** * Properties *)

(** ** Machine integers *)

Module MachineFacts.
Import Machine.

Lemma ulong_range z : is_ulong (ulong z).
Proof. unfold is_ulong, ulong, ULONG_MODULUS. apply Z.mod_pos_bound. lia. Qed.

Lemma ulong_id z : is_ulong z -> ulong z = z.
Proof. unfold is_ulong, ulong. intros H. apply Z.mod_small. exact H. Qed.

Lemma usub_diag a : usub a a = 0.
Proof. unfold usub, ulong. rewrite Z.sub_diag. reflexivity. Qed.

Lemma usub_later a d :
  is_ulong a -> 0 <= d < ULONG_MODULUS -> usub (ulong (a + d)) a = d.
Proof.
  unfold usub, ulong, is_ulong, ULONG_MODULUS. intros Ha Hd.
  rewrite Zminus_mod_idemp_l.
  replace (a + d - a) with d by lia.
  apply Z.mod_small. lia.
Qed.

Lemma usub_no_wrap a b : 0 <= b <= a -> a < ULONG_MODULUS -> usub a b = a - b.
Proof. unfold usub, ulong. intros H1 H2. apply Z.mod_small. lia. Qed.

Lemma sint_id z : INT_MIN <= z <= INT_MAX -> sint z = z.
Proof.
  unfold sint, INT_MIN, INT_MAX, ULONG_MODULUS. intros H.
  rewrite Z.mod_small; lia.
Qed.

End MachineFacts.

(** ** C strings *)

Module CStrFacts.
Import CStr.

Lemma cstr_no_NUL p : NUL ∉ cstr p.
Proof.
  induction p as [|c r IH]; simpl.
    - apply not_elem_of_nil.
    - destruct (Ascii.eqb_spec c NUL) as [->|Hc].
    + apply not_elem_of_nil.
    + intros [E|H]%elem_of_cons; [congruence | exact (IH H)].
Qed.

Lemma cstr_length_le p : (length (cstr p) <= length p)%nat.
Proof.
  induction p as [|c r IH]; simpl; [lia|].
  destruct (Ascii.eqb c NUL); simpl; lia.
Qed.

Lemma cstr_idemp p : cstr (cstr p) = cstr p.
Proof.
  induction p as [|c r IH]; simpl; [reflexivity|].
  destruct (Ascii.eqb c NUL) eqn:E; simpl; [reflexivity|].
  rewrite E, IH. reflexivity.
Qed.

Lemma cstr_id p : NUL ∉ p -> cstr p = p.
Proof.
  induction p as [|c r IH]; simpl; intros H; [reflexivity|].
  destruct (Ascii.eqb_spec c NUL) as [->|Hc].
    - exfalso. apply H. left.
    - f_equal. apply IH. intros Hr. apply H. right. exact Hr.
Qed.

Lemma cstr_app_NUL p q : NUL ∉ p -> cstr (p ++ NUL :: q) = p.
Proof.
  induction p as [|c r IH]; simpl; intros H; [reflexivity|].
  destruct (Ascii.eqb_spec c NUL) as [->|Hc].
    - exfalso. apply H. left.
    - f_equal. apply IH. intros Hr. apply H. right. exact Hr.
Qed.

Lemma cstr_take_comm p n : cstr (take n p) = take n (cstr p).
Proof.
  revert n. induction p as [|c r IH]; intros [|n]; simpl; try reflexivity;
    destruct (Ascii.eqb c NUL); simpl; try reflexivity.
  f_equal. apply IH.
Qed.

Lemma deref_NUL_cstr p : deref p = NUL -> cstr p = [].
Proof.
  destruct p as [|c r]; simpl; [reflexivity|]. intros ->. reflexivity.
Qed.

Lemma deref_cstr p : deref p <> NUL -> cstr p = deref p :: cstr (tail p).
Proof.
  destruct p as [|c r]; simpl; [congruence|]. intros H.
  destruct (Ascii.eqb_spec c NUL); [congruence | reflexivity].
Qed.

(** [strcmp] answers 0 exactly when both pointers designate the same
    string. *)
Lemma strcmp_eq_spec a b : strcmp_eq a b = true <-> cstr a = cstr b.
Proof.
  revert b. induction a as [|c a IH]; intros b; simpl.
    - destruct (Ascii.eqb_spec (deref b) NUL) as [E|E].
    + rewrite (deref_NUL_cstr _ E). tauto.
    + rewrite (deref_cstr _ E). split; congruence.
    - destruct (Ascii.eqb_spec c (deref b)) as [E|E].
    + destruct (Ascii.eqb_spec c NUL) as [E0|E0].
      * rewrite (deref_NUL_cstr b) by congruence. tauto.
      * rewrite (deref_cstr b) by congruence. rewrite IH, <- E.
        split; [intros ->; reflexivity | intros H; injection H; auto].
    + destruct (Ascii.eqb_spec c NUL) as [E0|E0].
      * subst c. rewrite (deref_cstr b) by congruence. split; congruence.
      * split; [congruence|]. intros H. exfalso. apply E.
        destruct b as [|d b]; simpl in *; [congruence|].
        destruct (Ascii.eqb d NUL); congruence.
Qed.

(** [strncmp] answers 0 exactly when the two strings agree on their
    first [n] bytes. *)
Lemma strncmp_eq_spec a b n :
  strncmp_eq a b n = true <-> take n (cstr a) = take n (cstr b).
Proof.
  revert a b. induction n as [|n IH]; intros a b; simpl.
    - tauto.
    - destruct (Ascii.eqb_spec (deref a) (deref b)) as [E|E].
    + destruct (Ascii.eqb_spec (deref a) NUL) as [E0|E0].
      * rewrite (deref_NUL_cstr a), (deref_NUL_cstr b) by congruence. tauto.
      * rewrite (deref_cstr a), (deref_cstr b) by congruence. simpl.
        rewrite IH, E.
        split; [intros ->; reflexivity | intros H; injection H; auto].
    + split; [congruence|]. intros H. exfalso. apply E.
      destruct a as [|x a], b as [|y b]; simpl in *; try reflexivity.
      * destruct (Ascii.eqb_spec y NUL); [congruence | discriminate].
      * destruct (Ascii.eqb_spec x NUL); [congruence | discriminate].
      * destruct (Ascii.eqb_spec x NUL), (Ascii.eqb_spec y NUL);
          simpl in H; congruence.
Qed.

(** Comparison with a literal of [n] bytes: the string starts with the
    literal. *)
Lemma strncmp_eq_lit a l :
  NUL ∉ l -> strncmp_eq a l (length l) = true <-> l `prefix_of` cstr a.
Proof.
  intros Hl. rewrite strncmp_eq_spec, (cstr_id l Hl), firstn_all. split.
    - intros <-. exists (drop (length l) (cstr a)). symmetry. apply take_drop.
    - intros [k ->]. rewrite take_app_length. reflexivity.
Qed.

Lemma strncpy_bytes_length src n : length (strncpy_bytes src n) = n.
Proof.
  revert src. induction n as [|n IH]; intros src; simpl; [reflexivity|].
  destruct (Ascii.eqb (deref src) NUL); simpl.
    - rewrite length_replicate. reflexivity.
    - rewrite IH. reflexivity.
Qed.

Lemma cstr_replicate_NUL n q : cstr (replicate n NUL ++ NUL :: q) = [].
Proof. destruct n; reflexivity. Qed.

(** What a buffer holds after [strncpy] and a terminator written right
    after the copied bytes. *)
Lemma cstr_strncpy_bytes src n q :
  cstr (strncpy_bytes src n ++ NUL :: q) = take n (cstr src).
Proof.
  revert src. induction n as [|n IH]; intros src.
    - simpl. rewrite take_0. reflexivity.
    - cbn [strncpy_bytes].
    destruct (Ascii.eqb_spec (deref src) NUL) as [E|E].
    + rewrite (deref_NUL_cstr _ E). reflexivity.
    + rewrite (deref_cstr _ E). simpl.
      destruct (Ascii.eqb_spec (deref src) NUL); [congruence|].
      f_equal. apply IH.
Qed.

Lemma strncpy_length dst src n :
  (n <= length dst)%nat -> length (strncpy dst src n) = length dst.
Proof.
  intros H. unfold strncpy.
  rewrite length_app, strncpy_bytes_length, length_drop. lia.
Qed.

End CStrFacts.

(** ** Floating-point comparisons *)

Module IEEEFacts.
Import IEEE.

Lemma compare_refl x : SFcompare x x = Some Eq \/ SFcompare x x = None.
Proof.
  destruct x as [s|s| |s m e]; simpl; auto.
    - destruct s; auto.
    - left. rewrite Z.compare_refl.
    change (Pos.compare_cont Eq m m) with (Pos.compare m m).
    rewrite Pos.compare_refl. destruct s; reflexivity.
Qed.

(** [x < x] is false for every value, NaN included. *)
Lemma ltb_irrefl x : F32.ltb x x = false.
Proof.
  unfold F32.ltb, SFltb. destruct (compare_refl x) as [-> | ->]; reflexivity.
Qed.

(** [x == y] excludes [x < y]. *)
Lemma eqb_not_ltb x y : F32.eqb x y = true -> F32.ltb x y = false.
Proof.
  unfold F32.eqb, F32.ltb, SFeqb, SFltb.
  destruct (SFcompare x y) as [[| |]|]; congruence.
Qed.

(** A comparison with NaN is false. *)
Lemma ltb_NaN_l y : F32.ltb S754_nan y = false.
Proof. reflexivity. Qed.

End IEEEFacts.

(** ** The deduplication cache *)

Module RelayFacts.
Import Machine CStr Relay CStrFacts.

Lemma isDuplicate_true now c text :
  isDuplicate now c text = true <->
  exists i slot,
    (i < CACHE_SIZE)%nat /\ messageCache c !! i = Some slot
    /\ slotText slot = cstr text
    /\ usub now (timestamp slot) < DEDUPE_WINDOW.
Proof.
  unfold isDuplicate, slotText. rewrite existsb_exists. split.
  - intros (i & Hi & H). apply in_seq in Hi.
    destruct (messageCache c !! i) as [slot|] eqn:E; [|discriminate].
    apply andb_true_iff in H as [H1 H2].
    apply strcmp_eq_spec in H1. apply Z.ltb_lt in H2.
    exists i, slot. repeat split; auto. lia.
  - intros (i & slot & Hi & E & H1 & H2). exists i. split.
    + apply in_seq. lia.
    + rewrite E. apply andb_true_iff. split.
      * apply strcmp_eq_spec. exact H1.
      * apply Z.ltb_lt. exact H2.
Qed.

Lemma isDuplicate_false now c text :
  isDuplicate now c text = false <->
  forall i slot,
    (i < CACHE_SIZE)%nat -> messageCache c !! i = Some slot ->
    slotText slot = cstr text -> DEDUPE_WINDOW <= usub now (timestamp slot).
Proof.
  rewrite <- not_true_iff_false, isDuplicate_true. split.
  - intros H i slot Hi E Ht.
    destruct (Z.lt_ge_cases (usub now (timestamp slot)) DEDUPE_WINDOW) as [L|L];
      [|exact L].
    exfalso. apply H. exists i, slot. auto.
  - intros H (i & slot & Hi & E & Ht & L). specialize (H i slot Hi E Ht). lia.
Qed.

Lemma terminated_replicate : terminated (replicate MSG_BYTES NUL).
Proof. split; [reflexivity | vm_compute; lia]. Qed.

Lemma emptySlot_terminated : terminated (msg emptySlot).
Proof. split; [reflexivity | vm_compute; lia]. Qed.

Lemma initialCache_wf : cache_wf initialCache.
Proof.
  split; [reflexivity | split; [vm_compute; lia|]].
  apply Forall_forall. intros slot Hin.
  apply elem_of_replicate in Hin as [-> _].
  exact emptySlot_terminated.
Qed.

(** After [strncpy] of 63 bytes and the terminator written at index 63 the
    buffer is the string cut at 63 bytes, padded with NUL. *)
Lemma copy_63 dst text :
  length dst = MSG_BYTES ->
  <[(MSG_BYTES - 1)%nat := NUL]> (strncpy dst text (MSG_BYTES - 1))
  = strncpy_bytes text (MSG_BYTES - 1) ++ [NUL].
Proof.
  intros Hlen. unfold strncpy.
  assert (Hd : exists x, drop (MSG_BYTES - 1) dst = [x]).
  { assert (L : length (drop (MSG_BYTES - 1) dst) = 1%nat).
    { rewrite length_drop, Hlen. reflexivity. }
    destruct (drop (MSG_BYTES - 1) dst) as [|x [|y r]]; try discriminate.
    exists x. reflexivity. }
  destruct Hd as [x ->].
  rewrite insert_app_r_alt by (rewrite strncpy_bytes_length; lia).
  rewrite strncpy_bytes_length, Nat.sub_diag. reflexivity.
Qed.

Lemma copy_63_text dst text :
  length dst = MSG_BYTES ->
  cstr (<[(MSG_BYTES - 1)%nat := NUL]> (strncpy dst text (MSG_BYTES - 1)))
  = take (MSG_BYTES - 1) (cstr text).
Proof.
  intros Hlen. rewrite copy_63 by exact Hlen. apply cstr_strncpy_bytes.
Qed.

Lemma copy_63_terminated dst text :
  length dst = MSG_BYTES ->
  terminated (<[(MSG_BYTES - 1)%nat := NUL]> (strncpy dst text (MSG_BYTES - 1))).
Proof.
  intros Hlen. split.
  - rewrite length_insert, strncpy_length; [exact Hlen | rewrite Hlen].
    unfold MSG_BYTES. lia.
  - unfold strlen. rewrite copy_63_text by exact Hlen.
    rewrite length_take. lia.
Qed.

Lemma slot_terminated c i slot :
  cache_wf c -> messageCache c !! i = Some slot -> terminated (msg slot).
Proof.
  intros (_ & _ & H) E. rewrite Forall_forall in H. apply H.
  eapply list_elem_of_lookup_2. exact E.
Qed.

Lemma current_slot c :
  cache_wf c -> exists slot, messageCache c !! cacheIndex c = Some slot.
Proof.
  intros (Hlen & Hidx & _). apply lookup_lt_is_Some. rewrite Hlen. exact Hidx.
Qed.

(** The slot [cacheMessage] writes. *)
Lemma cacheMessage_written now text c :
  cache_wf c ->
  exists slot,
    messageCache (cacheMessage now text c) !! cacheIndex c = Some slot
    /\ slotText slot = take (MSG_BYTES - 1) (cstr text)
    /\ timestamp slot = now
    /\ terminated (msg slot).
Proof.
  intros Hwf. destruct (current_slot c Hwf) as [old Hold].
  pose proof (slot_terminated c _ old Hwf Hold) as [Hlen _].
  destruct Hwf as (Hl & Hidx & _).
  eexists. split; [|split; [|split]].
  - unfold cacheMessage. cbn [messageCache].
    apply list_lookup_insert_eq. rewrite Hl. exact Hidx.
  - unfold slotText. cbn [msg]. rewrite Hold. cbn [default].
    apply copy_63_text. exact Hlen.
  - reflexivity.
  - cbn [msg]. rewrite Hold. cbn [default]. apply copy_63_terminated. exact Hlen.
Qed.

(** The other slots are kept. *)
Lemma cacheMessage_kept now text c i :
  i <> cacheIndex c ->
  messageCache (cacheMessage now text c) !! i = messageCache c !! i.
Proof.
  intros Hne. unfold cacheMessage. cbn [messageCache].
  apply list_lookup_insert_ne. congruence.
Qed.

Lemma cacheMessage_index now text c :
  cacheIndex (cacheMessage now text c) = ((cacheIndex c + 1) mod CACHE_SIZE)%nat.
Proof. reflexivity. Qed.

Lemma cacheMessage_wf now text c : cache_wf c -> cache_wf (cacheMessage now text c).
Proof.
  intros Hwf. destruct (cacheMessage_written now text c Hwf) as (slot & E & _ & _ & Ht).
  pose proof Hwf as (Hlen & Hidx & Hall).
  split; [|split].
  - unfold cacheMessage. cbn [messageCache]. rewrite length_insert. exact Hlen.
  - rewrite cacheMessage_index. apply Nat.mod_upper_bound. discriminate.
  - apply Forall_forall. intros s Hin.
    apply list_elem_of_lookup in Hin as [i Hi].
    destruct (Nat.eq_dec i (cacheIndex c)) as [->|Hne].
    + rewrite E in Hi. injection Hi as <-. exact Ht.
    + rewrite cacheMessage_kept in Hi by exact Hne.
      eapply slot_terminated; [exact Hwf | exact Hi].
Qed.

Lemma cacheAll_wf records c : cache_wf c -> cache_wf (cacheAll records c).
Proof.
  revert c. induction records as [|r rs IH]; intros c Hwf; simpl; [exact Hwf|].
  apply IH. apply cacheMessage_wf. exact Hwf.
Qed.

(** After some [cacheMessage] calls a slot holds the text of one of them,
    or it is as before and the ring did not reach it. *)
Lemma cacheAll_slots records : forall c i slot,
  cache_wf c ->
  messageCache (cacheAll records c) !! i = Some slot ->
  (exists r, r ∈ records
     /\ slotText slot = take (MSG_BYTES - 1) (cstr (snd r))
     /\ timestamp slot = fst r)
  \/ (messageCache c !! i = Some slot
      /\ forall k, (k < length records)%nat ->
           i <> ((cacheIndex c + k) mod CACHE_SIZE)%nat).
Proof.
  induction records as [|r rs IH]; intros c i slot Hwf Hslot.
  - right. split; [exact Hslot | simpl; lia].
  - simpl in Hslot.
    destruct (IH _ i slot (cacheMessage_wf (fst r) (snd r) c Hwf) Hslot)
      as [(r' & Hin & Ht & Hs) | (Hkept & Hfar)].
    + left. exists r'. split; [right; exact Hin | auto].
    + destruct (Nat.eq_dec i (cacheIndex c)) as [->|Hne].
      * left. exists r.
        destruct (cacheMessage_written (fst r) (snd r) c Hwf)
          as (s' & E & Ht & Hs & _).
        rewrite E in Hkept. injection Hkept as ->.
        split; [left | auto].
      * right. rewrite cacheMessage_kept in Hkept by exact Hne.
        split; [exact Hkept|]. intros [|k] Hk.
        -- rewrite Nat.add_0_r, Nat.mod_small; [exact Hne | apply Hwf].
        -- rewrite cacheMessage_index in Hfar.
           specialize (Hfar k ltac:(simpl in Hk; lia)).
           rewrite Nat.Div0.add_mod_idemp_l in Hfar.
           replace (cacheIndex c + S k)%nat with (cacheIndex c + 1 + k)%nat by lia.
           exact Hfar.
Qed.

(** Ten writes go once round the ring. *)
Lemma ring_covers idx i :
  (idx < CACHE_SIZE)%nat -> (i < CACHE_SIZE)%nat ->
  exists k, (k < CACHE_SIZE)%nat /\ i = ((idx + k) mod CACHE_SIZE)%nat.
Proof.
  unfold CACHE_SIZE. intros Hidx Hi.
  destruct (le_lt_dec idx i) as [L|L].
  - exists (i - idx)%nat. split; [lia|].
    replace (idx + (i - idx))%nat with i by lia.
    symmetry. apply Nat.mod_small. exact Hi.
  - exists (i + 10 - idx)%nat. split; [lia|].
    replace (idx + (i + 10 - idx))%nat with (i + 1 * 10)%nat by lia.
    rewrite Nat.Div0.mod_add. symmetry. apply Nat.mod_small. exact Hi.
Qed.

Lemma cacheAll_full records c i slot :
  cache_wf c -> length records = CACHE_SIZE -> (i < CACHE_SIZE)%nat ->
  messageCache (cacheAll records c) !! i = Some slot ->
  exists r, r ∈ records
    /\ slotText slot = take (MSG_BYTES - 1) (cstr (snd r))
    /\ timestamp slot = fst r.
Proof.
  intros Hwf Hlen Hi Hslot.
  destruct (cacheAll_slots records c i slot Hwf Hslot) as [H | (_ & Hfar)];
    [exact H|].
  exfalso. destruct (ring_covers (cacheIndex c) i) as (k & Hk & E);
    [apply Hwf | exact Hi |].
  apply (Hfar k); [rewrite Hlen; exact Hk | exact E].
Qed.

(** A text of at most 63 bytes is a duplicate for the whole window that
    follows its recording. *)
Lemma recorded_is_duplicate now t0 text c :
  cache_wf c -> (strlen text <= MSG_BYTES - 1)%nat ->
  usub now t0 < DEDUPE_WINDOW ->
  isDuplicate now (cacheMessage t0 text c) text = true.
Proof.
  intros Hwf Hlen Hwin. apply isDuplicate_true.
  destruct (cacheMessage_written t0 text c Hwf) as (slot & E & Ht & Hs & _).
  exists (cacheIndex c), slot. split; [apply Hwf|]. split; [exact E|].
  split.
  - rewrite Ht. apply take_ge. exact Hlen.
  - rewrite Hs. exact Hwin.
Qed.

(** C2. [isDuplicate] answers true exactly when one of the ten slots holds
    the very text of the query and its time is less than 5000 ms behind
    [now] (in [unsigned long] arithmetic). Hence the answer is false when
    every slot that holds the text is 5000 ms old or more; a text just
    recorded is a duplicate during the window; and the answer is false
    after ten records of other texts, which overwrite every slot in ring
    order. *)
Theorem isDuplicate_window_and_ring (c : Cache) (text : list ascii) (now : Z) :
  (isDuplicate now c text = true <->
     exists i slot,
       (i < CACHE_SIZE)%nat /\ messageCache c !! i = Some slot
       /\ slotText slot = cstr text
       /\ usub now (timestamp slot) < DEDUPE_WINDOW)
  /\ ((forall i slot,
         (i < CACHE_SIZE)%nat -> messageCache c !! i = Some slot ->
         slotText slot = cstr text ->
         DEDUPE_WINDOW <= usub now (timestamp slot)) ->
      isDuplicate now c text = false)
  /\ (cache_wf c ->
      (forall t0,
         (strlen text <= MSG_BYTES - 1)%nat -> usub now t0 < DEDUPE_WINDOW ->
         isDuplicate now (cacheMessage t0 text c) text = true)
      /\ (forall records,
            length records = CACHE_SIZE ->
            (forall r, r ∈ records ->
               take (MSG_BYTES - 1) (cstr (snd r)) <> cstr text) ->
            isDuplicate now (cacheAll records c) text = false)).
Proof.
  split; [apply isDuplicate_true|]. split; [|intros Hwf; split].
  - intros H. apply isDuplicate_false. exact H.
  - intros t0 Hlen Hwin. apply recorded_is_duplicate; assumption.
  - intros records Hlen Hother. apply isDuplicate_false.
    intros i slot Hi Hslot Htext. exfalso.
    destruct (cacheAll_full records c i slot Hwf Hlen Hi Hslot)
      as (r & Hin & Ht & _).
    apply (Hother r Hin). rewrite <- Ht. exact Htext.
Qed.

Lemma isDuplicate_window_and_ring_witness :
  cache_wf initialCache
  /\ isDuplicate 1500 (cacheMessage 1000 Samples.fireMessage initialCache)
                 Samples.fireMessage = true
  /\ isDuplicate 6000 (cacheMessage 1000 Samples.fireMessage initialCache)
                 Samples.fireMessage = false.
Proof.
  split; [exact initialCache_wf|]. split.
  - destruct (isDuplicate_window_and_ring initialCache Samples.fireMessage
                1500) as (_ & _ & H).
    destruct (H initialCache_wf) as (H1 & _).
    apply H1; [vm_compute; lia | vm_compute; reflexivity].
  - vm_compute. reflexivity.
Defined.

(** A text recorded once and followed by ten other texts is forgotten,
    whatever the clock says. *)
Example overwritten_after_ten :
  let others :=
    map (fun k => (1000 + Z.of_nat k, lit "FIRE,0,0," ++ [ascii_of_nat (65 + k)]))
        (seq 0 10) in
  isDuplicate 1020
    (cacheAll others (cacheMessage 1000 Samples.fireMessage initialCache))
    Samples.fireMessage = false
  /\ isDuplicate 1020
       (cacheAll (take 9 others)
                 (cacheMessage 1000 Samples.fireMessage initialCache))
       Samples.fireMessage = true.
Proof. vm_compute. split; reflexivity. Qed.

(** *** The receive buffer *)

Lemma cstr_app_terminator p q : cstr (p ++ NUL :: q) = cstr p.
Proof.
  induction p as [|c r IH]; simpl; [reflexivity|].
  destruct (Ascii.eqb c NUL); [reflexivity | f_equal; exact IH].
Qed.

Lemma readBytes_closed packet : forall buf idx,
  (idx <= MSG_BYTES - 1)%nat -> length buf = MSG_BYTES ->
  readBytes packet buf idx
  = (take idx buf
       ++ take (MSG_BYTES - 1 - idx) packet
       ++ drop (idx + min (MSG_BYTES - 1 - idx) (length packet)) buf,
     (idx + min (MSG_BYTES - 1 - idx) (length packet))%nat).
Proof.
  unfold MSG_BYTES.
  induction packet as [|b rest IH]; intros buf idx Hidx Hlen.
  - cbn [readBytes length]. rewrite Nat.min_0_r, Nat.add_0_r, take_nil.
    cbn [app]. rewrite take_drop. reflexivity.
  - cbn [readBytes]. unfold MSG_BYTES.
    destruct (Nat.ltb_spec idx (64 - 1)) as [L|L].
    + rewrite IH by (rewrite ?length_insert; lia).
      assert (E : (<[idx:=b]> buf) !! idx = Some b)
        by (apply list_lookup_insert_eq; lia).
      rewrite (take_S_r _ _ _ E), take_insert_ge by lia.
      rewrite drop_insert_lt by lia.
      replace (64 - 1 - idx)%nat with (S (64 - 1 - S idx)) by lia.
      cbn [take length]. rewrite <- Nat.succ_min_distr.
      rewrite <- app_assoc. cbn [app].
      rewrite <- !Nat.add_succ_comm. reflexivity.
    + replace (64 - 1 - idx)%nat with 0%nat by lia.
      rewrite take_0, Nat.min_0_l, Nat.add_0_r. cbn [app].
      rewrite take_drop. reflexivity.
Qed.

(** The buffer after the read: the first 63 bytes of the packet, the
    terminator, and what the stack held beyond. *)
Lemma readPacket_closed packet stack :
  length stack = MSG_BYTES ->
  readPacket packet stack
  = take (MSG_BYTES - 1) packet
      ++ NUL :: drop (S (min (MSG_BYTES - 1) (length packet))) stack.
Proof.
  intros Hlen. unfold readPacket.
  rewrite readBytes_closed by (unfold MSG_BYTES; lia || exact Hlen).
  rewrite take_0, Nat.sub_0_r, Nat.add_0_l. cbn [app].
  set (n := min (MSG_BYTES - 1) (length packet)).
  assert (Ln : length (take (MSG_BYTES - 1) packet) = n)
    by (rewrite length_take; reflexivity).
  rewrite insert_app_r_alt by lia.
  rewrite Ln, Nat.sub_diag. f_equal.
  assert (Hn : (n < length stack)%nat) by (subst n; rewrite Hlen; unfold MSG_BYTES; lia).
  destruct (lookup_lt_is_Some_2 stack n Hn) as [x Hx].
  rewrite (drop_S _ _ _ Hx). reflexivity.
Qed.

Lemma readPacket_text packet stack :
  length stack = MSG_BYTES ->
  cstr (readPacket packet stack) = cstr (take (MSG_BYTES - 1) packet).
Proof.
  intros Hlen. rewrite readPacket_closed by exact Hlen.
  apply cstr_app_terminator.
Qed.

Lemma readPacket_strlen packet stack :
  length stack = MSG_BYTES ->
  (strlen (readPacket packet stack) <= MSG_BYTES - 1)%nat.
Proof.
  intros Hlen. unfold strlen. rewrite readPacket_text by exact Hlen.
  etransitivity; [apply cstr_length_le|]. rewrite length_take. lia.
Qed.

(** Only the first 63 bytes of a packet reach the buffer. *)
Lemma readPacket_first_63 p1 p2 stack :
  length stack = MSG_BYTES ->
  take (MSG_BYTES - 1) p1 = take (MSG_BYTES - 1) p2 ->
  readPacket p1 stack = readPacket p2 stack.
Proof.
  intros Hlen E. rewrite !readPacket_closed by exact Hlen.
  assert (L : min (MSG_BYTES - 1) (length p1) = min (MSG_BYTES - 1) (length p2)).
  { rewrite <- !length_take, E. reflexivity. }
  rewrite E, L. reflexivity.
Qed.

Lemma first_63_nonempty (p1 p2 : list ascii) :
  take (MSG_BYTES - 1) p1 = take (MSG_BYTES - 1) p2 ->
  (Z.of_nat (length p1) >? 0) = (Z.of_nat (length p2) >? 0).
Proof.
  destruct p1, p2; simpl; intros E; try reflexivity; discriminate.
Qed.

(** *** Validation *)

(** A literal holds no NUL. *)
Ltac no_NUL :=
  let H := fresh in
  vm_compute; intros H;
  repeat (apply elem_of_cons in H as [H|H]; [discriminate H|]);
  apply elem_of_nil in H; exact H.

Lemma isValidMessage_true text :
  isValidMessage text = true <->
  lit "FIRE" `prefix_of` cstr text \/ lit "EARTHQUAKE" `prefix_of` cstr text.
Proof.
  unfold isValidMessage.
  rewrite <- (strncmp_eq_lit text (lit "FIRE")) by no_NUL.
  rewrite <- (strncmp_eq_lit text (lit "EARTHQUAKE")) by no_NUL.
  change (length (lit "FIRE")) with 4%nat.
  change (length (lit "EARTHQUAKE")) with 10%nat.
  destruct (strncmp_eq text (lit "FIRE") 4);
    destruct (strncmp_eq text (lit "EARTHQUAKE") 10); intuition congruence.
Qed.

End RelayFacts.

(** ** The two relay sketches *)

Module RelayLoopFacts.
Import Machine CStr IEEE Relay CStrFacts IEEEFacts RelayFacts Samples.
Import RelaySteps.

Lemma hybrid_trace_emit e st :
  HybridRelay.trace (HybridRelay.emit e st) = HybridRelay.trace st ++ [e].
Proof. reflexivity. Qed.

Lemma plain_trace_emit e st :
  PlainRelay.trace (PlainRelay.emit e st) = PlainRelay.trace st ++ [e].
Proof. reflexivity. Qed.

(** *** Forwarding *)

(** The single-transport relay: a delay, one packet, then either the LED
    and the counter, or a log line. *)
Lemma plain_forwardMessage_effect env text st :
  let ok := PlainRelay.lora_endPacket env in
  let st' := PlainRelay.forwardMessage env text st in
  PlainRelay.cache st' = PlainRelay.cache st
  /\ PlainRelay.messagesReceived st' = PlainRelay.messagesReceived st
  /\ PlainRelay.messagesDuplicate st' = PlainRelay.messagesDuplicate st
  /\ PlainRelay.messagesForwarded st'
     = (if ok then uadd (PlainRelay.messagesForwarded st) 1
        else PlainRelay.messagesForwarded st)
  /\ PlainRelay.trace st'
     = PlainRelay.trace st
         ++ [Delay (PlainRelay.random_50_150 env); LoRaPacket (cstr text) ok]
         ++ (if ok then [BlinkTx; Log "FORWARDED"] else [Log "Forward failed"]).
Proof.
  unfold PlainRelay.forwardMessage. cbn zeta.
  destruct (PlainRelay.lora_endPacket env); cbn;
    rewrite <- ?app_assoc; repeat split; reflexivity.
Qed.

Section Hybrid.

Variable libc : HybridRelay.CLibrary.
Variable cfg : HybridRelay.Config.

Local Abbreviation forwardOver := (HybridRelay.forwardOver cfg).
Local Abbreviation forwardMessage := (HybridRelay.forwardMessage libc cfg).
Local Abbreviation hybridLoop := (HybridRelay.loop libc cfg).
Local Abbreviation distanceToReceiver :=
  (HybridRelay.distanceToReceiver libc cfg).

Lemma hybrid_forwardOver_effect env dist text st :
  let short := F32.ltb dist (HybridRelay.DISTANCE_THRESHOLD_METERS cfg) in
  let ok := HybridRelay.hybridSuccess cfg env dist in
  let st' := forwardOver env dist text st in
  HybridRelay.cache st' = HybridRelay.cache st
  /\ HybridRelay.messagesReceived st' = HybridRelay.messagesReceived st
  /\ HybridRelay.messagesDuplicate st' = HybridRelay.messagesDuplicate st
  /\ HybridRelay.messagesForwardedEspNow st'
     = (if short && ok then uadd (HybridRelay.messagesForwardedEspNow st) 1
        else HybridRelay.messagesForwardedEspNow st)
  /\ HybridRelay.messagesForwardedLoRa st'
     = (if negb short && ok then uadd (HybridRelay.messagesForwardedLoRa st) 1
        else HybridRelay.messagesForwardedLoRa st)
  /\ HybridRelay.trace st'
     = HybridRelay.trace st
         ++ [HybridRelay.hybridSend cfg env dist text]
         ++ (if ok
             then [Log (if short then "FORWARDED (ESP-NOW)"
                        else "FORWARDED (LoRa)"); BlinkTx]
             else [Log (if short then "ESP-NOW Forward failed"
                        else "LoRa Forward failed")]).
Proof.
  unfold HybridRelay.forwardOver, HybridRelay.hybridSuccess, HybridRelay.hybridSend. cbn zeta.
  destruct (F32.ltb dist (HybridRelay.DISTANCE_THRESHOLD_METERS cfg)).
  - destruct (HybridRelay.esp_now_result env =? 0); cbn;
      rewrite <- ?app_assoc; repeat split; reflexivity.
  - destruct (HybridRelay.lora_endPacket env); cbn;
      rewrite <- ?app_assoc; repeat split; reflexivity.
Qed.

Lemma hybrid_forwardMessage_unfold env text st :
  forwardMessage env text st
  = forwardOver env (distanceToReceiver text) text
                (HybridRelay.emit (Log "Distance to Receiver") st).
Proof. reflexivity. Qed.

Lemma hybrid_forwardMessage_effect env text st :
  let dist := distanceToReceiver text in
  let short := F32.ltb dist (HybridRelay.DISTANCE_THRESHOLD_METERS cfg) in
  let ok := HybridRelay.hybridSuccess cfg env dist in
  let st' := forwardMessage env text st in
  HybridRelay.cache st' = HybridRelay.cache st
  /\ HybridRelay.messagesReceived st' = HybridRelay.messagesReceived st
  /\ HybridRelay.messagesDuplicate st' = HybridRelay.messagesDuplicate st
  /\ HybridRelay.messagesForwardedEspNow st'
     = (if short && ok then uadd (HybridRelay.messagesForwardedEspNow st) 1
        else HybridRelay.messagesForwardedEspNow st)
  /\ HybridRelay.messagesForwardedLoRa st'
     = (if negb short && ok then uadd (HybridRelay.messagesForwardedLoRa st) 1
        else HybridRelay.messagesForwardedLoRa st)
  /\ HybridRelay.trace st'
     = HybridRelay.trace st
         ++ [Log "Distance to Receiver"; HybridRelay.hybridSend cfg env dist text]
         ++ (if ok
             then [Log (if short then "FORWARDED (ESP-NOW)"
                        else "FORWARDED (LoRa)"); BlinkTx]
             else [Log (if short then "ESP-NOW Forward failed"
                        else "LoRa Forward failed")]).
Proof.
  cbn zeta. rewrite hybrid_forwardMessage_unfold.
  destruct (hybrid_forwardOver_effect env (distanceToReceiver text) text
              (HybridRelay.emit (Log "Distance to Receiver") st))
    as (H1 & H2 & H3 & H4 & H5 & H6).
  repeat split; try assumption.
  rewrite H6, hybrid_trace_emit, <- app_assoc. reflexivity.
Qed.

(** *** One pass of [loop] on a packet that is valid and new *)

Lemma nonempty_packetSize (packet : list ascii) :
  packet <> [] -> (Z.of_nat (length packet) >? 0) = true.
Proof. destruct packet; [congruence | reflexivity]. Qed.

Lemma hybrid_loop_new env st :
  let text := readPacket (HybridRelay.packet env) (HybridRelay.stack env) in
  HybridRelay.packet env <> [] ->
  isValidMessage text = true ->
  isDuplicate (HybridRelay.millis_isDuplicate env) (HybridRelay.cache st) text
  = false ->
  hybridLoop env st
  = forwardMessage env text
      (HybridRelay.recorded text (HybridRelay.millis_cacheMessage env) st).
Proof.
  cbn zeta. intros Hp Hv Hd. unfold HybridRelay.loop.
  rewrite (nonempty_packetSize _ Hp). cbn zeta. rewrite Hv. cbn [negb].
  cbn [HybridRelay.cache HybridRelay.emit HybridRelay.incr_messagesReceived].
  rewrite Hd. reflexivity.
Qed.

End Hybrid.

Lemma plain_loop_new env st :
  let text := readPacket (PlainRelay.packet env) (PlainRelay.stack env) in
  PlainRelay.packet env <> [] ->
  isValidMessage text = true ->
  isDuplicate (PlainRelay.millis_isDuplicate env) (PlainRelay.cache st) text
  = false ->
  PlainRelay.loop env st
  = PlainRelay.forwardMessage env text
      (PlainRelay.recorded text (PlainRelay.millis_cacheMessage env) st).
Proof.
  cbn zeta. intros Hp Hv Hd. unfold PlainRelay.loop.
  rewrite (nonempty_packetSize _ Hp). cbn zeta. rewrite Hv. cbn [negb].
  cbn [PlainRelay.cache PlainRelay.emit PlainRelay.incr_messagesReceived].
  rewrite Hd. reflexivity.
Qed.

Lemma filter_isRadio_received (tr : list Event) text :
  List.filter isRadio ((tr ++ [BlinkRx]) ++ [Received text])
  = List.filter isRadio tr.
Proof. rewrite !List.filter_app. cbn. rewrite !app_nil_r. reflexivity. Qed.

(** *** Validation, transport, failure, ordering and truncation *)

(** C1 (as the sketches are written). Validation accepts a text exactly
    when it starts with FIRE or with EARTHQUAKE. A payload that starts with
    QUAKE, the kind the transmitter sends and the receiver decodes, is
    refused: both relays count it as received, log it as invalid, and
    neither record nor forward it. *)
Theorem relay_refuses_QUAKE :
  (forall text,
     isValidMessage text = true <->
     lit "FIRE" `prefix_of` cstr text \/ lit "EARTHQUAKE" `prefix_of` cstr text)
  /\ (forall rest, isValidMessage (lit "QUAKE" ++ rest) = false)
  /\ (forall atof rest,
        Receiver.p_type (Receiver.parseMessage atof (lit "QUAKE" ++ rest))
        = Receiver.QUAKE)
  /\ (forall libc cfg st t1 t2 res ok,
        HybridRelay.loop libc cfg
          (HybridRelay.mkEnv quakeMessage someStack t1 t2 res ok) st
        = HybridRelay.mkState
            (HybridRelay.cache st)
            (uadd (HybridRelay.messagesReceived st) 1)
            (HybridRelay.messagesForwardedLoRa st)
            (HybridRelay.messagesForwardedEspNow st)
            (HybridRelay.messagesDuplicate st)
            (HybridRelay.trace st
               ++ [BlinkRx; Received quakeMessage;
                   Log "Invalid format - not forwarding"]))
  /\ (forall st t1 t2 j ok,
        PlainRelay.loop (PlainRelay.mkEnv quakeMessage someStack t1 t2 j ok) st
        = PlainRelay.mkState
            (PlainRelay.cache st)
            (uadd (PlainRelay.messagesReceived st) 1)
            (PlainRelay.messagesForwarded st)
            (PlainRelay.messagesDuplicate st)
            (PlainRelay.trace st
               ++ [BlinkRx; Received quakeMessage;
                   Log "Invalid format - not forwarding"])).
Proof.
  split; [exact isValidMessage_true|].
  split; [intros rest; reflexivity|].
  split; [intros atof rest; cbn; repeat (destruct (strchr _ _)); reflexivity|].
  split.
  - intros. unfold HybridRelay.loop.
    change (Z.of_nat (length (HybridRelay.packet
              (HybridRelay.mkEnv quakeMessage someStack t1 t2 res ok))) >? 0)
      with true.
    cbn. unfold HybridRelay.emit, HybridRelay.incr_messagesReceived. cbn.
    rewrite <- !app_assoc. reflexivity.
  - intros. unfold PlainRelay.loop.
    change (Z.of_nat (length (PlainRelay.packet
              (PlainRelay.mkEnv quakeMessage someStack t1 t2 j ok))) >? 0)
      with true.
    cbn. unfold PlainRelay.emit, PlainRelay.incr_messagesReceived. cbn.
    rewrite <- !app_assoc. reflexivity.
Qed.

(** C5. The relay hands the message to ESP-NOW exactly when the distance is
    less than the threshold, and to LoRa otherwise; a distance equal to the
    threshold goes to LoRa. This holds of the choice for every distance and
    threshold, and of [forwardMessage] for the distance it computes. *)
Theorem transport_by_strict_threshold
    (cfg : HybridRelay.Config) (env : HybridRelay.Env) (text : list ascii)
    (st : HybridRelay.State) :
  (forall dist,
     List.filter isSend
       (HybridRelay.trace (HybridRelay.forwardOver cfg env dist text st))
     = List.filter isSend (HybridRelay.trace st)
         ++ [if F32.ltb dist (HybridRelay.DISTANCE_THRESHOLD_METERS cfg)
             then EspNowSend (HybridRelay.espNowMessage text)
                             (HybridRelay.esp_now_result env)
             else LoRaPacket (cstr text) (HybridRelay.lora_endPacket env)])
  /\ (forall dist,
        F32.eqb dist (HybridRelay.DISTANCE_THRESHOLD_METERS cfg) = true ->
        List.filter isSend
          (HybridRelay.trace (HybridRelay.forwardOver cfg env dist text st))
        = List.filter isSend (HybridRelay.trace st)
            ++ [LoRaPacket (cstr text) (HybridRelay.lora_endPacket env)])
  /\ (forall libc,
        List.filter isSend
          (HybridRelay.trace
             (HybridRelay.forwardMessage libc cfg env text st))
        = List.filter isSend (HybridRelay.trace st)
            ++ [if F32.ltb
                     (HybridRelay.distanceToReceiver libc cfg text)
                     (HybridRelay.DISTANCE_THRESHOLD_METERS cfg)
                then EspNowSend (HybridRelay.espNowMessage text)
                                (HybridRelay.esp_now_result env)
                else LoRaPacket (cstr text) (HybridRelay.lora_endPacket env)]).
Proof.
  assert (H : forall dist st0,
     List.filter isSend
       (HybridRelay.trace (HybridRelay.forwardOver cfg env dist text st0))
     = List.filter isSend (HybridRelay.trace st0)
         ++ [HybridRelay.hybridSend cfg env dist text]).
  { intros dist st0.
    destruct (hybrid_forwardOver_effect cfg env dist text st0)
      as (_ & _ & _ & _ & _ & ->).
    rewrite !List.filter_app. f_equal.
    unfold HybridRelay.hybridSend.
    destruct (HybridRelay.hybridSuccess cfg env dist),
             (F32.ltb dist (HybridRelay.DISTANCE_THRESHOLD_METERS cfg));
      reflexivity. }
  split; [intros dist; apply H|]. split.
  - intros dist Heq. rewrite H. unfold HybridRelay.hybridSend.
    rewrite (eqb_not_ltb _ _ Heq). reflexivity.
  - intros libc. rewrite hybrid_forwardMessage_unfold, H.
    rewrite hybrid_trace_emit, List.filter_app. cbn. rewrite app_nil_r.
    reflexivity.
Qed.

(** C9. A forward is one attempt. When the radio refuses the message the
    relay writes a line to the log and nothing else: no second attempt, no
    delay after the failure, no counter changed, nothing kept for later.
    The forwarded counter grows by one exactly when the radio accepts. *)
Theorem forward_failure_only_logs (text : list ascii) :
  (forall env st,
     let ok := PlainRelay.lora_endPacket env in
     let st' := PlainRelay.forwardMessage env text st in
     PlainRelay.cache st' = PlainRelay.cache st
     /\ PlainRelay.messagesReceived st' = PlainRelay.messagesReceived st
     /\ PlainRelay.messagesDuplicate st' = PlainRelay.messagesDuplicate st
     /\ PlainRelay.messagesForwarded st'
        = (if ok then uadd (PlainRelay.messagesForwarded st) 1
           else PlainRelay.messagesForwarded st)
     /\ PlainRelay.trace st'
        = PlainRelay.trace st
            ++ [Delay (PlainRelay.random_50_150 env); LoRaPacket (cstr text) ok]
            ++ (if ok then [BlinkTx; Log "FORWARDED"]
                else [Log "Forward failed"]))
  /\ (forall libc cfg env st,
        let dist := HybridRelay.distanceToReceiver libc cfg text in
        let short := F32.ltb dist (HybridRelay.DISTANCE_THRESHOLD_METERS cfg) in
        let ok := HybridRelay.hybridSuccess cfg env dist in
        let st' := HybridRelay.forwardMessage libc cfg env text st in
        HybridRelay.cache st' = HybridRelay.cache st
        /\ HybridRelay.messagesReceived st' = HybridRelay.messagesReceived st
        /\ HybridRelay.messagesDuplicate st' = HybridRelay.messagesDuplicate st
        /\ HybridRelay.messagesForwardedEspNow st'
           = (if short && ok
              then uadd (HybridRelay.messagesForwardedEspNow st) 1
              else HybridRelay.messagesForwardedEspNow st)
        /\ HybridRelay.messagesForwardedLoRa st'
           = (if negb short && ok
              then uadd (HybridRelay.messagesForwardedLoRa st) 1
              else HybridRelay.messagesForwardedLoRa st)
        /\ HybridRelay.trace st'
           = HybridRelay.trace st
               ++ [Log "Distance to Receiver";
                   HybridRelay.hybridSend cfg env dist text]
               ++ (if ok
                   then [Log (if short then "FORWARDED (ESP-NOW)"
                              else "FORWARDED (LoRa)"); BlinkTx]
                   else [Log (if short then "ESP-NOW Forward failed"
                              else "LoRa Forward failed")]))
  /\ (forall st stack t1 t2 j ok,
        PlainRelay.loop (PlainRelay.mkEnv [] stack t1 t2 j ok) st = st)
  /\ (forall libc cfg st stack t1 t2 res ok,
        HybridRelay.loop libc cfg
          (HybridRelay.mkEnv [] stack t1 t2 res ok) st = st).
Proof.
  split; [intros env st; apply plain_forwardMessage_effect|].
  split; [intros; apply hybrid_forwardMessage_effect|].
  split; intros; reflexivity.
Qed.

(** *** The order of the statements of a pass *)

(** The last of the states of a pass is the state [loop] returns. *)
Lemma plainForwardSteps_last env text st :
  List.last (plainForwardSteps env text st) st
  = PlainRelay.forwardMessage env text st.
Proof.
  unfold plainForwardSteps, PlainRelay.forwardMessage. cbn zeta.
  destruct (PlainRelay.lora_endPacket env); reflexivity.
Qed.

Lemma plainLoopSteps_last env st :
  List.last (plainLoopSteps env st) st = PlainRelay.loop env st.
Proof.
  unfold plainLoopSteps, PlainRelay.loop. cbn zeta.
  destruct (Z.of_nat (length (PlainRelay.packet env)) >? 0); [|reflexivity].
  destruct (negb (isValidMessage _)); [reflexivity|].
  destruct (isDuplicate _ _ _); [reflexivity|].
  unfold plainForwardSteps, PlainRelay.forwardMessage. cbn zeta.
  destruct (PlainRelay.lora_endPacket env); reflexivity.
Qed.

Lemma hybridLoopSteps_last libc cfg env st :
  List.last (hybridLoopSteps libc cfg env st) st
  = HybridRelay.loop libc cfg env st.
Proof.
  unfold hybridLoopSteps, HybridRelay.loop. cbn zeta.
  destruct (Z.of_nat (length (HybridRelay.packet env)) >? 0); [|reflexivity].
  destruct (negb (isValidMessage _)); [reflexivity|].
  destruct (isDuplicate _ _ _); [reflexivity|].
  unfold hybridForwardSteps, HybridRelay.forwardMessage,
    HybridRelay.forwardOver. cbn zeta.
  destruct (F32.ltb _ _);
    [destruct (HybridRelay.esp_now_result env =? 0)
    |destruct (HybridRelay.lora_endPacket env)]; reflexivity.
Qed.

(** C8. When a received text is valid and no duplicate, [loop] records it
    before anything of the forward begins. Statement by statement, the pass
    goes first through states that have the old cache and put nothing on the
    air, then through the state [cacheMessage] leaves, which has the text
    in the cache and still nothing on the air, and from there on (the
    jitter delay, the transmission and what follows it) through states that
    all have the text in the cache; the last of them is the state [loop]
    returns, and the forward did take place: the delay and the packet, or the
    frame, are the radio events the pass adds. With the text in the cache it
    is a duplicate for every clock reading within the window. *)
Theorem recorded_before_transmission
    (c : Cache) (packet stack : list ascii) (t_dup t_cache : Z) :
  let text := readPacket packet stack in
  let c' := cacheMessage t_cache text c in
  cache_wf c -> length stack = MSG_BYTES -> packet <> [] ->
  isValidMessage text = true -> isDuplicate t_dup c text = false ->
  (forall now, usub now t_cache < DEDUPE_WINDOW -> isDuplicate now c' text = true)
  /\ (forall n1 n2 n3 tr j ok,
        let st := PlainRelay.mkState c n1 n2 n3 tr in
        let env := PlainRelay.mkEnv packet stack t_dup t_cache j ok in
        let steps := plainLoopSteps env st in
        List.last steps st = PlainRelay.loop env st
        /\ recordedFirst PlainRelay.cache PlainRelay.trace c c' tr steps
        /\ List.filter isRadio (PlainRelay.trace (PlainRelay.loop env st))
           = List.filter isRadio tr ++ [Delay j; LoRaPacket (cstr text) ok])
  /\ (forall libc cfg n1 n2 n3 n4 tr res ok,
        let st := HybridRelay.mkState c n1 n2 n3 n4 tr in
        let env := HybridRelay.mkEnv packet stack t_dup t_cache res ok in
        let steps := hybridLoopSteps libc cfg env st in
        List.last steps st = HybridRelay.loop libc cfg env st
        /\ recordedFirst HybridRelay.cache HybridRelay.trace c c' tr steps
        /\ List.filter isRadio
             (HybridRelay.trace (HybridRelay.loop libc cfg env st))
           = List.filter isRadio tr
               ++ [HybridRelay.hybridSend
                     cfg env (HybridRelay.distanceToReceiver libc cfg text)
                     text]).
Proof.
  cbn zeta. intros Hwf Hstack Hp Hv Hd. split; [|split].
  - intros now Hnow. apply recorded_is_duplicate; try assumption.
    apply readPacket_strlen. exact Hstack.
  - intros n1 n2 n3 tr j ok.
    split; [apply plainLoopSteps_last|]. split.
    + unfold plainLoopSteps. cbn zeta.
      cbn [PlainRelay.packet PlainRelay.stack PlainRelay.millis_isDuplicate
           PlainRelay.millis_cacheMessage].
      rewrite (nonempty_packetSize _ Hp), Hv. cbn [negb].
      cbn [PlainRelay.cache PlainRelay.emit PlainRelay.incr_messagesReceived].
      rewrite Hd.
      eexists _, _, _. split; [reflexivity|].
      split; [|split; [reflexivity|split]].
      * repeat (constructor;
                [split; [reflexivity|];
                 cbn [PlainRelay.trace PlainRelay.emit
                      PlainRelay.incr_messagesReceived];
                 rewrite ?List.filter_app; cbn [List.filter isRadio];
                 rewrite ?app_nil_r; reflexivity|]).
        constructor.
      * cbn [PlainRelay.trace PlainRelay.set_cache PlainRelay.emit
             PlainRelay.incr_messagesReceived].
        rewrite !List.filter_app. cbn [List.filter isRadio].
        rewrite !app_nil_r. reflexivity.
      * unfold plainForwardSteps. cbn zeta.
        cbn [PlainRelay.lora_endPacket].
        destruct ok; repeat (constructor; [reflexivity|]); constructor.
    + rewrite (plain_loop_new (PlainRelay.mkEnv packet stack t_dup t_cache j ok)
                 (PlainRelay.mkState c n1 n2 n3 tr) Hp Hv Hd).
      cbn [PlainRelay.packet PlainRelay.stack PlainRelay.millis_cacheMessage].
      destruct (plain_forwardMessage_effect
                  (PlainRelay.mkEnv packet stack t_dup t_cache j ok)
                  (readPacket packet stack)
                  (PlainRelay.recorded (readPacket packet stack) t_cache
                     (PlainRelay.mkState c n1 n2 n3 tr)))
        as (_ & _ & _ & _ & ->).
      cbn [PlainRelay.random_50_150 PlainRelay.lora_endPacket].
      rewrite !List.filter_app.
      change (PlainRelay.trace
                (PlainRelay.recorded (readPacket packet stack) t_cache
                   (PlainRelay.mkState c n1 n2 n3 tr)))
        with ((tr ++ [BlinkRx]) ++ [Received (cstr (readPacket packet stack))]).
      rewrite filter_isRadio_received. f_equal.
      destruct ok; reflexivity.
  - intros libc cfg n1 n2 n3 n4 tr res ok.
    split; [apply hybridLoopSteps_last|]. split.
    + unfold hybridLoopSteps. cbn zeta.
      cbn [HybridRelay.packet HybridRelay.stack HybridRelay.millis_isDuplicate
           HybridRelay.millis_cacheMessage].
      rewrite (nonempty_packetSize _ Hp), Hv. cbn [negb].
      cbn [HybridRelay.cache HybridRelay.emit
           HybridRelay.incr_messagesReceived].
      rewrite Hd.
      eexists _, _, _. split; [reflexivity|].
      split; [|split; [reflexivity|split]].
      * repeat (constructor;
                [split; [reflexivity|];
                 cbn [HybridRelay.trace HybridRelay.emit
                      HybridRelay.incr_messagesReceived];
                 rewrite ?List.filter_app; cbn [List.filter isRadio];
                 rewrite ?app_nil_r; reflexivity|]).
        constructor.
      * cbn [HybridRelay.trace HybridRelay.set_cache HybridRelay.emit
             HybridRelay.incr_messagesReceived].
        rewrite !List.filter_app. cbn [List.filter isRadio].
        rewrite !app_nil_r. reflexivity.
      * unfold hybridForwardSteps. cbn zeta.
        cbn [HybridRelay.lora_endPacket HybridRelay.esp_now_result].
        destruct (F32.ltb _ _); [destruct (res =? 0)|destruct ok];
          repeat (constructor; [reflexivity|]); constructor.
    + rewrite (hybrid_loop_new libc cfg
                 (HybridRelay.mkEnv packet stack t_dup t_cache res ok)
                 (HybridRelay.mkState c n1 n2 n3 n4 tr) Hp Hv Hd).
      cbn [HybridRelay.packet HybridRelay.stack HybridRelay.millis_cacheMessage].
      destruct (hybrid_forwardMessage_effect libc cfg
                  (HybridRelay.mkEnv packet stack t_dup t_cache res ok)
                  (readPacket packet stack)
                  (HybridRelay.recorded (readPacket packet stack) t_cache
                     (HybridRelay.mkState c n1 n2 n3 n4 tr)))
        as (_ & _ & _ & _ & _ & ->).
      rewrite !List.filter_app.
      change (HybridRelay.trace
                (HybridRelay.recorded (readPacket packet stack) t_cache
                   (HybridRelay.mkState c n1 n2 n3 n4 tr)))
        with ((tr ++ [BlinkRx]) ++ [Received (cstr (readPacket packet stack))]).
      rewrite filter_isRadio_received. f_equal.
      unfold HybridRelay.hybridSend, HybridRelay.hybridSuccess.
      cbn [HybridRelay.lora_endPacket HybridRelay.esp_now_result].
      destruct (F32.ltb _ _); [destruct (res =? 0)|destruct ok]; reflexivity.
Qed.

(** The cache of a relay keeps its invariant through [loop]. *)
Lemma hybrid_loop_cache_wf libc cfg env st :
  cache_wf (HybridRelay.cache st) ->
  cache_wf (HybridRelay.cache (HybridRelay.loop libc cfg env st)).
Proof.
  intros Hwf. unfold HybridRelay.loop.
  destruct (Z.of_nat (length (HybridRelay.packet env)) >? 0); [|exact Hwf].
  cbn zeta. destruct (isValidMessage _); cbn [negb]; [|exact Hwf].
  cbn [HybridRelay.cache HybridRelay.emit HybridRelay.incr_messagesReceived].
  destruct (isDuplicate _ _ _); [exact Hwf|].
  match goal with
  | |- context [HybridRelay.forwardMessage _ _ ?e ?t ?s] =>
      destruct (hybrid_forwardMessage_effect libc cfg e t s)
        as (-> & _)
  end.
  apply cacheMessage_wf. exact Hwf.
Qed.

Lemma plain_loop_cache_wf env st :
  cache_wf (PlainRelay.cache st) ->
  cache_wf (PlainRelay.cache (PlainRelay.loop env st)).
Proof.
  intros Hwf. unfold PlainRelay.loop.
  destruct (Z.of_nat (length (PlainRelay.packet env)) >? 0); [|exact Hwf].
  cbn zeta. destruct (isValidMessage _); cbn [negb]; [|exact Hwf].
  cbn [PlainRelay.cache PlainRelay.emit PlainRelay.incr_messagesReceived].
  destruct (isDuplicate _ _ _); [exact Hwf|].
  match goal with
  | |- context [PlainRelay.forwardMessage ?e ?t ?s] =>
      destruct (plain_forwardMessage_effect e t s) as (-> & _)
  end.
  apply cacheMessage_wf. exact Hwf.
Qed.

(** C10. Every slot of the cache is a buffer of 64 bytes holding a
    terminated string of at most 63 bytes, when the relay starts and after
    each pass of [loop]. The receive buffer holds the first 63 bytes of the
    packet, so two packets that agree on these bytes are the same packet to
    the relay: the pass of [loop] is the same, and once the first is
    recorded the second is a duplicate for the window. *)
Theorem cache_holds_first_63_bytes
    (st : HybridRelay.State) (p1 p2 stack : list ascii) :
  cache_wf (HybridRelay.cache st) -> length stack = MSG_BYTES ->
  take (MSG_BYTES - 1) p1 = take (MSG_BYTES - 1) p2 ->
  cache_wf (HybridRelay.cache HybridRelay.initial)
  /\ (forall libc cfg env,
        let st' := HybridRelay.loop libc cfg env st in
        cache_wf (HybridRelay.cache st')
        /\ forall i slot,
             messageCache (HybridRelay.cache st') !! i = Some slot ->
             length (msg slot) = MSG_BYTES
             /\ (strlen (msg slot) <= MSG_BYTES - 1)%nat)
  /\ cstr (readPacket p1 stack) = cstr (take (MSG_BYTES - 1) p1)
  /\ (forall libc cfg t1 t2 res ok,
        HybridRelay.loop libc cfg
          (HybridRelay.mkEnv p1 stack t1 t2 res ok) st
        = HybridRelay.loop libc cfg
            (HybridRelay.mkEnv p2 stack t1 t2 res ok) st)
  /\ (forall stack2 t0 now,
        length stack2 = MSG_BYTES -> usub now t0 < DEDUPE_WINDOW ->
        isDuplicate now
          (cacheMessage t0 (readPacket p1 stack) (HybridRelay.cache st))
          (readPacket p2 stack2) = true).
Proof.
  intros Hwf Hstack E. split; [exact initialCache_wf|]. split; [|split; [|split]].
  - intros libc cfg env. cbn zeta.
    pose proof (hybrid_loop_cache_wf libc cfg env st Hwf) as Hwf'.
    split; [exact Hwf'|]. intros i slot Hslot.
    exact (slot_terminated _ i slot Hwf' Hslot).
  - apply readPacket_text. exact Hstack.
  - intros libc cfg t1 t2 res ok. unfold HybridRelay.loop.
    cbn [HybridRelay.packet HybridRelay.stack].
    rewrite (readPacket_first_63 p1 p2 stack Hstack E).
    rewrite (first_63_nonempty p1 p2 E). reflexivity.
  - intros stack2 t0 now Hstack2 Hnow. apply isDuplicate_true.
    destruct (cacheMessage_written t0 (readPacket p1 stack)
                (HybridRelay.cache st) Hwf) as (slot & Es & Ht & Hs & _).
    exists (cacheIndex (HybridRelay.cache st)), slot.
    split; [apply Hwf|]. split; [exact Es|]. split.
    + rewrite Ht, !readPacket_text by assumption.
      rewrite E. apply take_ge.
      etransitivity; [apply cstr_length_le|]. rewrite length_take. lia.
    + rewrite Hs. exact Hnow.
Qed.

(** *** The relay at work *)

Lemma transport_by_strict_threshold_witness :
  F32.eqb (F32.literal 500 1)
          (HybridRelay.DISTANCE_THRESHOLD_METERS HybridRelay.sketchConfig) = true
  /\ List.filter isSend
       (HybridRelay.trace
          (HybridRelay.forwardOver HybridRelay.sketchConfig
             (HybridRelay.mkEnv [] someStack 0 0 0 true)
             (F32.literal 500 1) fireMessage HybridRelay.initial))
     = [LoRaPacket fireMessage true].
Proof.
  assert (E : F32.eqb (F32.literal 500 1)
                (HybridRelay.DISTANCE_THRESHOLD_METERS HybridRelay.sketchConfig)
              = true) by (vm_compute; reflexivity).
  split; [exact E|].
  destruct (transport_by_strict_threshold HybridRelay.sketchConfig
              (HybridRelay.mkEnv [] someStack 0 0 0 true) fireMessage
              HybridRelay.initial) as (_ & H & _).
  rewrite (H (F32.literal 500 1) E). vm_compute. reflexivity.
Defined.

(** The boundary the specification tests: 49.9 m goes over ESP-NOW, 50.0 m and
    50.1 m go over LoRa. *)
Example threshold_boundary :
  map (fun dist =>
         F32.ltb dist
           (HybridRelay.DISTANCE_THRESHOLD_METERS HybridRelay.sketchConfig))
      [F32.literal 499 1; F32.literal 500 1; F32.literal 501 1]
  = [true; false; false].
Proof. vm_compute. reflexivity. Qed.

Lemma recorded_before_transmission_witness :
  cache_wf initialCache
  /\ length someStack = MSG_BYTES
  /\ fireMessage <> []
  /\ isValidMessage (readPacket fireMessage someStack) = true
  /\ isDuplicate 1000 initialCache (readPacket fireMessage someStack) = false
  /\ recordedFirst PlainRelay.cache PlainRelay.trace initialCache
       (cacheMessage 1001 (readPacket fireMessage someStack) initialCache) []
       (plainLoopSteps (PlainRelay.mkEnv fireMessage someStack 1000 1001 70 true)
                       PlainRelay.initial)
  /\ forall now,
       usub now 1001 < DEDUPE_WINDOW ->
       isDuplicate now
         (cacheMessage 1001 (readPacket fireMessage someStack) initialCache)
         (readPacket fireMessage someStack) = true.
Proof.
  assert (Hl : length someStack = MSG_BYTES) by reflexivity.
  assert (Hp : fireMessage <> []) by discriminate.
  assert (Hv : isValidMessage (readPacket fireMessage someStack) = true)
    by (vm_compute; reflexivity).
  assert (Hd : isDuplicate 1000 initialCache (readPacket fireMessage someStack)
               = false) by (vm_compute; reflexivity).
  repeat (split; [first [exact initialCache_wf | assumption]|]).
  destruct (recorded_before_transmission initialCache fireMessage someStack
              1000 1001 initialCache_wf Hl Hp Hv Hd) as (Hdup & Hplain & _).
  split; [|exact Hdup].
  exact (proj1 (proj2 (Hplain 0 0 0 [] 70 true))).
Defined.

Lemma cache_holds_first_63_bytes_witness :
  cache_wf (HybridRelay.cache HybridRelay.initial)
  /\ length someStack = MSG_BYTES
  /\ take (MSG_BYTES - 1) (longPacket "a") = take (MSG_BYTES - 1) (longPacket "b")
  /\ longPacket "a" <> longPacket "b"
  /\ forall libc cfg t1 t2 res ok,
       HybridRelay.loop libc cfg
         (HybridRelay.mkEnv (longPacket "a") someStack t1 t2 res ok)
         HybridRelay.initial
       = HybridRelay.loop libc cfg
           (HybridRelay.mkEnv (longPacket "b") someStack t1 t2 res ok)
           HybridRelay.initial.
Proof.
  assert (Hl : length someStack = MSG_BYTES) by reflexivity.
  assert (E : take (MSG_BYTES - 1) (longPacket "a")
              = take (MSG_BYTES - 1) (longPacket "b")) by reflexivity.
  split; [exact initialCache_wf|]. split; [exact Hl|]. split; [exact E|].
  split; [vm_compute; intros H; discriminate H|].
  destruct (cache_holds_first_63_bytes HybridRelay.initial
              (longPacket "a") (longPacket "b") someStack
              initialCache_wf Hl E) as (_ & _ & _ & H & _).
  exact H.
Defined.

(** The scenario of the specification: the same message twice within 5000 ms. The
    first is forwarded, the second dropped: one duplicate counted, the
    forwarded counter unchanged, one packet on the air. *)
Example same_message_twice :
  let st1 :=
    PlainRelay.loop (PlainRelay.mkEnv fireMessage someStack 1000 1001 70 true)
                    PlainRelay.initial in
  let st2 :=
    PlainRelay.loop (PlainRelay.mkEnv fireMessage someStack 3000 3001 90 true)
                    st1 in
  (PlainRelay.messagesReceived st1, PlainRelay.messagesForwarded st1,
   PlainRelay.messagesDuplicate st1) = (1, 1, 0)
  /\ (PlainRelay.messagesReceived st2, PlainRelay.messagesForwarded st2,
      PlainRelay.messagesDuplicate st2) = (2, 1, 1)
  /\ List.filter isSend (PlainRelay.trace st2) = [LoRaPacket fireMessage true].
Proof. vm_compute. repeat split. Qed.

(** What the transmitter sends on an earthquake does not pass the relay. *)
Example quake_alert_not_relayed :
  let alerts :=
    Transmitter.sent
      (Transmitter.run [shaken 6000; shaken 6010; shaken 6020; shaken 6030]
                       booted) in
  map Transmitter.a_type alerts = [lit "QUAKE"]
  /\ forallb (fun a => isValidMessage (Transmitter.a_type a ++ lit ",0,0,0"))
             alerts = false.
Proof. vm_compute. split; reflexivity. Qed.

End RelayLoopFacts.


(** ** The transmitter *)

Module TransmitterFacts.
Import Machine CStr IEEE Transmitter MachineFacts CStrFacts.

Lemma State_eta st :
  st = mkState (fireCount st) (lastFireAlert st) (lastQuakeAlert st)
               (filteredAccel st) (quakeWindow st) (windowIndex st)
               (loraReady st) (accelReady st) (sent st).
Proof. destruct st. reflexivity. Qed.

(** The loop of lines 159-160 adds up the ten votes. *)
Lemma shakeCountOf_votes w :
  length w = WINDOW_SIZE -> Forall (fun v => v = 0 \/ v = 1) w ->
  shakeCountOf w = votes w.
Proof.
  intros Hlen Hbits.
  do 10 (destruct w as [|? w]; [discriminate Hlen|]).
  destruct w; [|discriminate Hlen]. clear Hlen.
  repeat match goal with
         | H : Forall _ (_ :: _) |- _ => apply Forall_cons in H as [? H]
         end.
  unfold shakeCountOf, votes, WINDOW_SIZE.
  cbn [seq fold_left foldr lookup list_lookup default from_option id].
  repeat match goal with
         | |- context [sint (?a + ?b)] =>
             lazymatch a with
             | context [sint] => fail
             | _ => rewrite (sint_id (a + b))
                      by (unfold INT_MIN, INT_MAX; lia)
             end
         end.
  lia.
Qed.

Lemma votes_bounds w :
  Forall (fun v => v = 0 \/ v = 1) w -> 0 <= votes w <= Z.of_nat (length w).
Proof.
  induction 1 as [|v w Hv _ IH]; cbn [votes foldr length]; [lia|].
  unfold votes in IH. lia.
Qed.

(** Writing a vote over a slot changes the sum by the difference. *)
Lemma votes_insert w i v old :
  w !! i = Some old -> votes (<[i := v]> w) = votes w - old + v.
Proof.
  unfold votes. revert i.
  induction w as [|x w IH]; intros [|i] H; try discriminate.
  - injection H as ->. cbn. lia.
  - change (<[S i:=v]> (x :: w)) with (x :: <[i:=v]> w).
    change ((x :: w) !! S i) with (w !! i) in H.
    cbn [foldr]. rewrite (IH i H). lia.
Qed.

Lemma voteOf_bit f : voteOf f = 0 \/ voteOf f = 1.
Proof. unfold voteOf. destruct (F32.gtb f QUAKE_THRESHOLD); auto. Qed.

(** *** [fireDetection] *)

Lemma fireCount_step t st :
  0 <= fireCount st < INT_MAX ->
  (if flameDetectedOf t then sint (fireCount st + 1)
   else if fireCount st >? 0 then sint (fireCount st - 1) else fireCount st)
  = leaky (fireCount st) (flameDetectedOf t).
Proof.
  unfold leaky, INT_MAX. intros H. destruct (flameDetectedOf t).
  - rewrite sint_id by (unfold INT_MIN, INT_MAX; lia). lia.
  - destruct (Z.gtb_spec (fireCount st) 0).
    + rewrite sint_id by (unfold INT_MIN, INT_MAX; lia). lia.
    + lia.
Qed.

Lemma fireDetection_effect t st :
  loraReady st = true -> 0 <= fireCount st < INT_MAX ->
  let count := leaky (fireCount st) (flameDetectedOf t) in
  let fires :=
    (FLAME_SAMPLES_NEEDED <=? count)
    && (FIRE_MIN_INTERVAL <? usub (now t) (lastFireAlert st)) in
  fireDetection t st
  = mkState (if fires then 0 else count)
            (if fires then now t else lastFireAlert st)
            (lastQuakeAlert st) (filteredAccel st) (quakeWindow st)
            (windowIndex st) (loraReady st) (accelReady st)
            (sent st
               ++ (if fires
                   then [mkAlert (lit "FIRE") (currentLat t) (currentLng t)
                                 (F32.literal 10 1) (gps_sats t)]
                   else [])).
Proof.
  intros Hlora Hcount. cbn zeta.
  pose proof (fireCount_step t st Hcount) as Hstep.
  destruct st as [fc lf lq fa qw wi lr ar se].
  cbn [fireCount lastFireAlert loraReady] in Hlora, Hcount, Hstep.
  subst lr. unfold fireDetection, sendLoRaAlert. cbn zeta.
  cbn [fireCount]. rewrite <- Hstep. rewrite !Z.geb_leb, !Z.gtb_ltb.
  destruct (flameDetectedOf t); [|destruct (0 <? fc)];
    cbn -[usub Z.leb Z.ltb F32.literal sint];
    match goal with
    | |- context [(?a <=? ?b) && (?c <? ?d)] =>
        destruct ((a <=? b) && (c <? d))
    end;
    rewrite ?app_nil_r; reflexivity.
Qed.

(** *** [quakeDetection] *)

Lemma window_after_vote w i f :
  length w = WINDOW_SIZE -> Forall (fun v => v = 0 \/ v = 1) w ->
  length (<[i := voteOf f]> w) = WINDOW_SIZE
  /\ Forall (fun v => v = 0 \/ v = 1) (<[i := voteOf f]> w).
Proof.
  intros Hlen Hbits. split.
  - rewrite length_insert. exact Hlen.
  - apply Forall_insert; [exact Hbits | apply voteOf_bit].
Qed.

Lemma quakeDetection_effect t st :
  running st -> accelReady st = true ->
  let filtered := lowPass (rawAccelOf t) (filteredAccel st) in
  let window := <[windowIndex st := voteOf filtered]> (quakeWindow st) in
  let fires :=
    (4 <=? votes window) && (5000 <? usub (now t) (lastQuakeAlert st)) in
  quakeDetection t st
  = mkState (fireCount st) (lastFireAlert st)
            (if fires then now t else lastQuakeAlert st)
            filtered window
            ((windowIndex st + 1) mod WINDOW_SIZE)%nat
            (loraReady st) (accelReady st)
            (sent st
               ++ (if fires
                   then [mkAlert (lit "QUAKE") (currentLat t) (currentLng t)
                                 filtered (gps_sats t)]
                   else [])).
Proof.
  intros (Hlora & Hlen & Hidx & Hbits) Haccel. cbn zeta.
  destruct st as [fc lf lq fa qw wi lr ar se].
  cbn [loraReady accelReady quakeWindow windowIndex] in *. subst lr ar.
  destruct (window_after_vote qw wi (lowPass (rawAccelOf t) fa) Hlen Hbits)
    as [Hlen' Hbits'].
  pose proof (shakeCountOf_votes _ Hlen' Hbits') as Hsum.
  unfold quakeDetection, sendLoRaAlert. cbn zeta.
  cbn -[usub Z.geb Z.gtb lowPass rawAccelOf shakeCountOf votes voteOf
        Nat.modulo F32.gtb QUAKE_THRESHOLD].
  fold (voteOf (lowPass (rawAccelOf t) fa)).
  rewrite Hsum, Z.geb_leb, Z.gtb_ltb.
  destruct ((4 <=? votes (<[wi:=voteOf (lowPass (rawAccelOf t) fa)]> qw))
            && (5000 <? usub (now t) lq));
    rewrite ?app_nil_r; reflexivity.
Qed.

(** *** [loop] and [run] *)

Lemma fireDetection_frame t st :
  lastQuakeAlert (fireDetection t st) = lastQuakeAlert st
  /\ filteredAccel (fireDetection t st) = filteredAccel st
  /\ quakeWindow (fireDetection t st) = quakeWindow st
  /\ windowIndex (fireDetection t st) = windowIndex st
  /\ loraReady (fireDetection t st) = loraReady st
  /\ accelReady (fireDetection t st) = accelReady st.
Proof.
  unfold fireDetection, sendLoRaAlert. cbn zeta.
  destruct (flameDetectedOf t); [|destruct (fireCount st >? 0)];
    match goal with
    | |- context [if ?b then _ else _] => destruct b
    end; cbn; try (destruct (negb (loraReady st))); cbn; repeat split.
Qed.

Lemma quakeDetection_frame t st :
  fireCount (quakeDetection t st) = fireCount st
  /\ lastFireAlert (quakeDetection t st) = lastFireAlert st
  /\ loraReady (quakeDetection t st) = loraReady st
  /\ accelReady (quakeDetection t st) = accelReady st.
Proof.
  unfold quakeDetection, sendLoRaAlert. cbn zeta.
  destruct (accelReady st) eqn:E; [|rewrite ?E; repeat split].
  match goal with
  | |- context [if ?b then _ else _] => destruct b
  end; cbn; try (destruct (negb (loraReady st))); cbn; rewrite ?E; repeat split.
Qed.

Lemma fireDetection_running t st : running st -> running (fireDetection t st).
Proof.
  intros (H1 & H2 & H3 & H4).
  destruct (fireDetection_frame t st) as (_ & _ & E3 & E4 & E5 & _).
  unfold running. rewrite E3, E4, E5. auto.
Qed.

Lemma quakeDetection_running t st : running st -> running (quakeDetection t st).
Proof.
  intros Hrun. destruct (accelReady st) eqn:Haccel.
  - rewrite (quakeDetection_effect t st Hrun Haccel).
    destruct Hrun as (H1 & H2 & H3 & H4).
    destruct (window_after_vote (quakeWindow st) (windowIndex st)
                (lowPass (rawAccelOf t) (filteredAccel st)) H2 H4) as [L B].
    unfold running. cbn [loraReady quakeWindow windowIndex].
    split; [exact H1|]. split; [exact L|]. split; [|exact B].
    apply Nat.mod_upper_bound. discriminate.
  - unfold quakeDetection. rewrite Haccel. exact Hrun.
Qed.

Lemma loop_running t st : running st -> running (loop t st).
Proof.
  intros H. apply quakeDetection_running, fireDetection_running, H.
Qed.

Lemma run_running ts st : running st -> running (run ts st).
Proof.
  revert st. induction ts as [|t ts IH]; intros st H; [exact H|].
  apply IH, loop_running, H.
Qed.

Lemma run_snoc ts t st : run (ts ++ [t]) st = loop t (run ts st).
Proof. unfold run. rewrite fold_left_app. reflexivity. Qed.

(** The flame counter grows by one a pass at most, and never below zero
    while it has not wrapped. *)
Lemma loop_fireCount t st :
  loraReady st = true -> 0 <= fireCount st < INT_MAX ->
  0 <= fireCount (loop t st) <= fireCount st + 1.
Proof.
  intros Hlora Hc. unfold loop.
  destruct (quakeDetection_frame t (fireDetection t st)) as (-> & _).
  rewrite (fireDetection_effect t st Hlora Hc). cbn [fireCount].
  unfold leaky.
  destruct (_ && _); destruct (flameDetectedOf t); lia.
Qed.

Lemma run_fireCount ts : forall st,
  running st -> 0 <= fireCount st ->
  fireCount st + Z.of_nat (length ts) <= INT_MAX ->
  0 <= fireCount (run ts st) <= fireCount st + Z.of_nat (length ts).
Proof.
  induction ts as [|t ts IH]; intros st Hrun H0 Hmax; cbn [run fold_left length].
  - lia.
  - cbn [length] in Hmax. rewrite Nat2Z.inj_succ in *.
    pose proof (loop_fireCount t st (proj1 Hrun) ltac:(lia)) as Hl.
    specialize (IH (loop t st) (loop_running t st Hrun) ltac:(lia) ltac:(lia)).
    unfold run in IH. lia.
Qed.

Lemma setup_running lora_begin accel_begin st :
  setup lora_begin accel_begin = Some st ->
  running st /\ fireCount st = 0 /\ accelReady st = accel_begin.
Proof.
  unfold setup. destruct lora_begin; [|discriminate].
  intros H. injection H as <-.
  split; [|split; reflexivity].
  split; [reflexivity|]. split; [reflexivity|]. split.
  - cbn. unfold WINDOW_SIZE. lia.
  - cbn. repeat (constructor; [left; reflexivity|]). constructor.
Qed.

(** *** The alerts of each type *)

Lemma alertsOf_app type l1 l2 :
  alertsOf type (l1 ++ l2) = alertsOf type l1 ++ alertsOf type l2.
Proof. apply List.filter_app. Qed.

(** What [fireDetection] sends is of type FIRE. *)
Lemma fireDetection_sent t st :
  exists alerts,
    sent (fireDetection t st) = sent st ++ alerts
    /\ alertsOf (lit "QUAKE") alerts = [].
Proof.
  unfold fireDetection, sendLoRaAlert. cbn zeta.
  set (st1 := if flameDetectedOf t then _ else _).
  assert (E : sent st1 = sent st).
  { subst st1. destruct (flameDetectedOf t); [reflexivity|].
    destruct (fireCount st >? 0); reflexivity. }
  destruct (_ && _).
  - destruct (negb (loraReady st1)); cbn [sent set_fireCount set_lastFireAlert set_sent].
    + exists []. rewrite app_nil_r. auto.
    + eexists. rewrite E. split; reflexivity.
  - exists []. rewrite app_nil_r. auto.
Qed.

(** What [quakeDetection] sends is of type QUAKE. *)
Lemma quakeDetection_sent t st :
  exists alerts,
    sent (quakeDetection t st) = sent st ++ alerts
    /\ alertsOf (lit "FIRE") alerts = [].
Proof.
  unfold quakeDetection, sendLoRaAlert. cbn zeta.
  destruct (accelReady st); [|exists []; rewrite app_nil_r; auto].
  destruct (_ && _).
  - cbn [loraReady set_windowIndex set_quakeWindow set_filteredAccel].
    destruct (negb (loraReady st));
      cbn [sent set_lastQuakeAlert set_sent set_windowIndex set_quakeWindow
           set_filteredAccel].
    + exists []. rewrite app_nil_r. auto.
    + eexists. split; reflexivity.
  - exists []. rewrite app_nil_r. auto.
Qed.

(** One pass of [loop], seen from the flame counter. *)
Lemma loop_fire_effect t st :
  loraReady st = true -> 0 <= fireCount st < INT_MAX ->
  let count := leaky (fireCount st) (flameDetectedOf t) in
  let fires :=
    (FLAME_SAMPLES_NEEDED <=? count)
    && (FIRE_MIN_INTERVAL <? usub (now t) (lastFireAlert st)) in
  fireCount (loop t st) = (if fires then 0 else count)
  /\ lastFireAlert (loop t st) = (if fires then now t else lastFireAlert st)
  /\ alertsOf (lit "FIRE") (sent (loop t st))
     = alertsOf (lit "FIRE") (sent st)
         ++ (if fires
             then [mkAlert (lit "FIRE") (currentLat t) (currentLng t)
                           (F32.literal 10 1) (gps_sats t)]
             else []).
Proof.
  intros Hlora Hc. cbn zeta. unfold loop.
  destruct (quakeDetection_frame t (fireDetection t st)) as (-> & -> & _).
  destruct (quakeDetection_sent t (fireDetection t st)) as (q & -> & Hq).
  rewrite alertsOf_app, Hq, app_nil_r.
  rewrite (fireDetection_effect t st Hlora Hc).
  cbn [fireCount lastFireAlert sent].
  split; [reflexivity|]. split; [reflexivity|].
  rewrite alertsOf_app. f_equal. destruct (_ && _); reflexivity.
Qed.

(** One pass of [loop], seen from the seismic detector. *)
Lemma loop_quake_effect t st :
  running st -> accelReady st = true ->
  let filtered := lowPass (rawAccelOf t) (filteredAccel st) in
  let window := <[windowIndex st := voteOf filtered]> (quakeWindow st) in
  let fires :=
    (4 <=? votes window) && (5000 <? usub (now t) (lastQuakeAlert st)) in
  filteredAccel (loop t st) = filtered
  /\ quakeWindow (loop t st) = window
  /\ windowIndex (loop t st) = ((windowIndex st + 1) mod WINDOW_SIZE)%nat
  /\ lastQuakeAlert (loop t st) = (if fires then now t else lastQuakeAlert st)
  /\ alertsOf (lit "QUAKE") (sent (loop t st))
     = alertsOf (lit "QUAKE") (sent st)
         ++ (if fires
             then [mkAlert (lit "QUAKE") (currentLat t) (currentLng t)
                           filtered (gps_sats t)]
             else []).
Proof.
  intros Hrun Haccel. cbn zeta. unfold loop.
  destruct (fireDetection_frame t st) as (E1 & E2 & E3 & E4 & _ & E6).
  destruct (fireDetection_sent t st) as (f & Ef & Hf).
  rewrite (quakeDetection_effect t (fireDetection t st)
             (fireDetection_running t st Hrun) ltac:(congruence)).
  cbn [filteredAccel quakeWindow windowIndex lastQuakeAlert sent].
  rewrite E1, E2, E3, E4, Ef.
  repeat (split; [reflexivity|]).
  rewrite !alertsOf_app, Hf, app_nil_r. f_equal.
  destruct (_ && _); reflexivity.
Qed.

(** C4. Along every sequence of passes of [loop] that starts with a
    counter that is not negative and that is too short for the counter to
    wrap, the flame counter of each pass is the previous one plus one on a
    detection, minus one otherwise, kept at zero or above. The pass sends a
    FIRE alert exactly when that count is at least 3 and more than 5000 ms
    separate [now] from [lastFireAlert]; it then sets the counter to zero
    and [lastFireAlert] to [now]. *)
Theorem fire_debounce_rule (ts : list Tick) (t : Tick) (st0 : State) :
  running st0 -> 0 <= fireCount st0 ->
  fireCount st0 + Z.of_nat (length ts) < INT_MAX ->
  let st := run ts st0 in
  let count := leaky (fireCount st) (flameDetectedOf t) in
  let fires :=
    (FLAME_SAMPLES_NEEDED <=? count)
    && (FIRE_MIN_INTERVAL <? usub (now t) (lastFireAlert st)) in
  let st' := loop t st in
  run (ts ++ [t]) st0 = st'
  /\ 0 <= fireCount st
  /\ fireCount st' = (if fires then 0 else count)
  /\ lastFireAlert st' = (if fires then now t else lastFireAlert st)
  /\ alertsOf (lit "FIRE") (sent st')
     = alertsOf (lit "FIRE") (sent st)
         ++ (if fires
             then [mkAlert (lit "FIRE") (currentLat t) (currentLng t)
                           (F32.literal 10 1) (gps_sats t)]
             else []).
Proof.
  intros Hrun H0 Hlen. cbn zeta.
  pose proof (run_fireCount ts st0 Hrun H0 ltac:(lia)) as Hc.
  pose proof (run_running ts st0 Hrun) as (Hlora & _).
  split; [apply run_snoc|]. split; [lia|].
  apply (loop_fire_effect t (run ts st0) Hlora). lia.
Qed.

Lemma loop_accelReady t st : accelReady (loop t st) = accelReady st.
Proof.
  unfold loop.
  destruct (quakeDetection_frame t (fireDetection t st)) as (_ & _ & _ & ->).
  destruct (fireDetection_frame t st) as (_ & _ & _ & _ & _ & ->).
  reflexivity.
Qed.

Lemma run_accelReady ts : forall st, accelReady (run ts st) = accelReady st.
Proof.
  induction ts as [|t ts IH]; intros st; [reflexivity|].
  cbn [run fold_left]. change (accelReady (run ts (loop t st)) = accelReady st).
  rewrite IH. apply loop_accelReady.
Qed.

(** C3. Along every sequence of samples, with the radio up and the
    accelerometer ready, a pass of [loop] filters the sample, writes the
    vote of the filtered value over the oldest slot of the window of ten,
    and sends a QUAKE alert exactly when the votes of the window add up to
    4 or more and more than 5000 ms separate [now] from [lastQuakeAlert].
    The alert carries the filtered value; sending it sets [lastQuakeAlert]
    to [now] and leaves the window as it is. So when the next sample also
    votes 1 and comes more than 5000 ms later, the next pass sends again. *)
Theorem quake_alert_rule (ts : list Tick) (t : Tick) (st0 : State) :
  running st0 -> accelReady st0 = true ->
  let st := run ts st0 in
  let filtered := lowPass (rawAccelOf t) (filteredAccel st) in
  let window := <[windowIndex st := voteOf filtered]> (quakeWindow st) in
  let fires :=
    (4 <=? votes window) && (5000 <? usub (now t) (lastQuakeAlert st)) in
  let st' := loop t st in
  run (ts ++ [t]) st0 = st'
  /\ filteredAccel st' = filtered
  /\ quakeWindow st' = window
  /\ windowIndex st' = ((windowIndex st + 1) mod WINDOW_SIZE)%nat
  /\ lastQuakeAlert st' = (if fires then now t else lastQuakeAlert st)
  /\ alertsOf (lit "QUAKE") (sent st')
     = alertsOf (lit "QUAKE") (sent st)
         ++ (if fires
             then [mkAlert (lit "QUAKE") (currentLat t) (currentLng t)
                           filtered (gps_sats t)]
             else [])
  /\ (fires = true ->
      forall t',
        voteOf (lowPass (rawAccelOf t') filtered) = 1 ->
        5000 < usub (now t') (now t) ->
        alertsOf (lit "QUAKE") (sent (loop t' st'))
        = alertsOf (lit "QUAKE") (sent st')
            ++ [mkAlert (lit "QUAKE") (currentLat t') (currentLng t')
                        (lowPass (rawAccelOf t') filtered) (gps_sats t')]).
Proof.
  intros Hrun0 Haccel0. cbn zeta.
  pose proof (run_running ts st0 Hrun0) as Hrun.
  assert (Haccel : accelReady (run ts st0) = true)
    by (rewrite run_accelReady; exact Haccel0).
  set (st := run ts st0) in *.
  split; [apply run_snoc|].
  destruct (loop_quake_effect t st Hrun Haccel) as (Ef & Ew & Ei & El & Es).
  repeat (split; [assumption|]).
  intros Hfires t' Hvote Hlater.
  pose proof (loop_running t st Hrun) as Hrun'.
  assert (Haccel' : accelReady (loop t st) = true)
    by (rewrite loop_accelReady; exact Haccel).
  destruct (loop_quake_effect t' (loop t st) Hrun' Haccel')
    as (_ & _ & _ & _ & ->).
  rewrite Ef, Ew, Ei, El, Hfires, Hvote. f_equal.
  apply andb_true_iff in Hfires as [Hsum _]. apply Z.leb_le in Hsum.
  destruct Hrun' as (_ & Hlen' & Hidx' & Hbits').
  rewrite Ew in Hlen', Hbits'. rewrite Ei in Hidx'.
  set (window := <[windowIndex st := voteOf _]> (quakeWindow st)) in *.
  set (i := ((windowIndex st + 1) mod WINDOW_SIZE)%nat) in *.
  destruct (lookup_lt_is_Some_2 window i ltac:(lia)) as [old Hold].
  assert (Hb : old = 0 \/ old = 1).
  { rewrite Forall_forall in Hbits'. apply Hbits'.
    eapply list_elem_of_lookup_2. exact Hold. }
  rewrite (votes_insert window i 1 old Hold).
  replace (4 <=? votes window - old + 1) with true
    by (symmetry; apply Z.leb_le; lia).
  replace (5000 <? usub (now t') (now t)) with true
    by (symmetry; apply Z.ltb_lt; exact Hlater).
  reflexivity.
Qed.

(** *** The rules at work *)

Lemma booted_running : running Samples.booted.
Proof. apply (setup_running true true). reflexivity. Qed.

Lemma fire_debounce_rule_witness :
  running Samples.booted
  /\ 0 <= fireCount Samples.booted
  /\ fireCount Samples.booted
       + Z.of_nat (length [Samples.flameSeen 100; Samples.flameSeen 200])
     < INT_MAX
  /\ fireCount
       (run [Samples.flameSeen 100; Samples.flameSeen 200] Samples.booted) = 2
  /\ fireCount
       (loop (Samples.flameSeen 6000)
          (run [Samples.flameSeen 100; Samples.flameSeen 200] Samples.booted))
     = 0
  /\ lastFireAlert
       (loop (Samples.flameSeen 6000)
          (run [Samples.flameSeen 100; Samples.flameSeen 200] Samples.booted))
     = 6000.
Proof.
  assert (H0 : 0 <= fireCount Samples.booted) by (vm_compute; discriminate).
  assert (Hlen : fireCount Samples.booted
                 + Z.of_nat (length [Samples.flameSeen 100;
                                     Samples.flameSeen 200]) < INT_MAX)
    by (vm_compute; reflexivity).
  destruct (fire_debounce_rule
              [Samples.flameSeen 100; Samples.flameSeen 200]
              (Samples.flameSeen 6000) Samples.booted
              booted_running H0 Hlen) as (_ & _ & Hc & Hl & _).
  split; [exact booted_running|]. split; [exact H0|]. split; [exact Hlen|].
  split; [vm_compute; reflexivity|].
  split; [rewrite Hc | rewrite Hl]; vm_compute; reflexivity.
Defined.

Lemma quake_alert_rule_witness :
  running Samples.booted
  /\ accelReady Samples.booted = true
  /\ quakeWindow
       (loop (Samples.shaken 6030)
          (run [Samples.shaken 6000; Samples.shaken 6010; Samples.shaken 6020]
               Samples.booted))
     = [1; 1; 1; 1; 0; 0; 0; 0; 0; 0]
  /\ lastQuakeAlert
       (loop (Samples.shaken 6030)
          (run [Samples.shaken 6000; Samples.shaken 6010; Samples.shaken 6020]
               Samples.booted))
     = 6030.
Proof.
  assert (A : accelReady Samples.booted = true) by reflexivity.
  destruct (quake_alert_rule
              [Samples.shaken 6000; Samples.shaken 6010; Samples.shaken 6020]
              (Samples.shaken 6030) Samples.booted booted_running A)
    as (_ & _ & Hw & _ & Hl & _).
  split; [exact booted_running|]. split; [exact A|].
  split; [rewrite Hw | rewrite Hl]; vm_compute; reflexivity.
Defined.

(** Four shaken samples in a row: the fourth pass sends the alert, with
    the filtered value as magnitude; shaking on, the next alert leaves at
    the first pass more than 5000 ms later. *)
Example sustained_shaking :
  map a_type
      (sent (run [Samples.shaken 6000; Samples.shaken 6010;
                  Samples.shaken 6020] Samples.booted)) = []
  /\ map a_type
         (sent (run [Samples.shaken 6000; Samples.shaken 6010;
                     Samples.shaken 6020; Samples.shaken 6030]
                    Samples.booted)) = [lit "QUAKE"]
  /\ map a_type
         (sent (run [Samples.shaken 6000; Samples.shaken 6010;
                     Samples.shaken 6020; Samples.shaken 6030;
                     Samples.shaken 6040; Samples.shaken 11030]
                    Samples.booted)) = [lit "QUAKE"]
  /\ map a_type
         (sent (run [Samples.shaken 6000; Samples.shaken 6010;
                     Samples.shaken 6020; Samples.shaken 6030;
                     Samples.shaken 6040; Samples.shaken 11030;
                     Samples.shaken 11031]
                    Samples.booted)) = [lit "QUAKE"; lit "QUAKE"].
Proof. vm_compute. repeat split. Qed.

(** A single strong sample is not enough: one vote, then the filter
    decays. *)
Example single_spike_rejected :
  sent (run [Samples.shaken 6000; Samples.atRest 6010; Samples.atRest 6020;
             Samples.atRest 6030; Samples.atRest 6040] Samples.booted) = []
  /\ votes (quakeWindow
              (run [Samples.shaken 6000; Samples.atRest 6010;
                    Samples.atRest 6020; Samples.atRest 6030;
                    Samples.atRest 6040] Samples.booted)) = 2.
Proof. vm_compute. repeat split. Qed.

(** The counter leaks: a detection, two gaps, a detection. *)
Example leaky_counter :
  fireCount (run [Samples.flameSeen 100; Samples.atRest 200;
                  Samples.atRest 300; Samples.flameSeen 400]
                 Samples.booted) = 1.
Proof. vm_compute. reflexivity. Qed.

End TransmitterFacts.


(** ** The decoder of the receiver *)

Module ReceiverFacts.
Import CStr IEEE Receiver CStrFacts RelayFacts.

Section Decoder.

Variable atof : list ascii -> fp.

(** A field that is absent leaves the following ones absent. *)
Lemma field_None_S n : forall msg, field n msg = None -> field (S n) msg = None.
Proof.
  induction n as [|n IH]; intros msg H; [discriminate|].
  cbn [field] in *. destruct (strchr msg comma); [|reflexivity].
  apply IH. exact H.
Qed.

Lemma field_None_le n m msg :
  field n msg = None -> (n <= m)%nat -> field m msg = None.
Proof.
  intros Hn Hle. induction Hle as [|m Hle IH]; [exact Hn|].
  apply field_None_S. exact IH.
Qed.

Lemma parseMessage_fields msg :
  let r := parseMessage atof msg in
  (p_type r = NONE
   /\ p_lat r = F32.zero /\ p_lng r = F32.zero /\ p_extra r = F32.zero)
  \/ (p_type r <> NONE
      /\ p_lat r = fieldValue atof 1 msg
      /\ p_lng r = fieldValue atof 2 msg
      /\ p_extra r = fieldValue atof 3 msg).
Proof.
  cbn zeta. unfold parseMessage, fieldValue. cbn [field].
  destruct (strncmp_eq msg (lit "FIRE") 4);
    [|destruct (strncmp_eq msg (lit "QUAKE") 5); [|left; auto]];
    right; (split; [repeat (destruct (strchr _ _)); discriminate|]);
    destruct (strchr msg comma) as [p1|]; [|auto| |auto];
    destruct (strchr (incr p1) comma) as [p2|]; [|auto| |auto];
    destruct (strchr (incr p2) comma) as [p3|]; auto.
Qed.

Lemma parseMessage_type msg :
  (lit "FIRE" `prefix_of` cstr msg -> p_type (parseMessage atof msg) = FIRE)
  /\ (lit "QUAKE" `prefix_of` cstr msg -> p_type (parseMessage atof msg) = QUAKE)
  /\ (p_type (parseMessage atof msg) <> NONE ->
      lit "FIRE" `prefix_of` cstr msg \/ lit "QUAKE" `prefix_of` cstr msg).
Proof.
  rewrite <- (strncmp_eq_lit msg (lit "FIRE")) by no_NUL.
  rewrite <- (strncmp_eq_lit msg (lit "QUAKE")) by no_NUL.
  change (length (lit "FIRE")) with 4%nat.
  change (length (lit "QUAKE")) with 5%nat.
  assert (X : strncmp_eq msg (lit "FIRE") 4 = true ->
              strncmp_eq msg (lit "QUAKE") 5 = true -> False).
  { rewrite !strncmp_eq_spec. destruct (cstr msg) as [|c r]; [discriminate|].
    cbn. intros H1 H2. congruence. }
  unfold parseMessage.
  destruct (strncmp_eq msg (lit "FIRE") 4);
    [|destruct (strncmp_eq msg (lit "QUAKE") 5)].
  - split; [intros _; repeat (destruct (strchr _ _)); reflexivity|].
    split; [intros H; exfalso; auto | auto].
  - split; [discriminate|].
    split; [intros _; repeat (destruct (strchr _ _)); reflexivity | auto].
  - split; [discriminate|]. split; [discriminate|]. cbn. congruence.
Qed.

End Decoder.

(** C7. [parseMessage] is a total function: for every string and every
    [atof] it returns a type and three numbers. When the string starts with
    FIRE or QUAKE the type is that kind, and the three numbers are read
    field by field: the [n]-th is what [atof] makes of the text after the
    [n]-th comma, and it is 0.0 when the string has fewer than [n] commas,
    as are all the fields after it. *)
Theorem parseMessage_zero_fills (atof : list ascii -> fp) (msg : list ascii) :
  lit "FIRE" `prefix_of` cstr msg \/ lit "QUAKE" `prefix_of` cstr msg ->
  let r := parseMessage atof msg in
  (lit "FIRE" `prefix_of` cstr msg -> p_type r = FIRE)
  /\ (lit "QUAKE" `prefix_of` cstr msg -> p_type r = QUAKE)
  /\ p_lat r = fieldValue atof 1 msg
  /\ p_lng r = fieldValue atof 2 msg
  /\ p_extra r = fieldValue atof 3 msg
  /\ (forall n m, field n msg = None -> (n <= m)%nat ->
        fieldValue atof m msg = F32.zero).
Proof.
  intros Hkind. cbn zeta.
  destruct (parseMessage_type atof msg) as (HF & HQ & _).
  split; [exact HF|]. split; [exact HQ|].
  destruct (parseMessage_fields atof msg) as [(Hnone & _) | (_ & H1 & H2 & H3)].
  - exfalso. destruct Hkind as [H|H]; [rewrite (HF H) in Hnone
                                      | rewrite (HQ H) in Hnone]; discriminate.
  - repeat (split; [assumption|]).
    intros n m Hn Hle. unfold fieldValue.
    rewrite (field_None_le n m msg Hn Hle). reflexivity.
Qed.

Lemma parseMessage_zero_fills_witness :
  (lit "FIRE" `prefix_of` cstr (lit "QUAKE,30.5")
   \/ lit "QUAKE" `prefix_of` cstr (lit "QUAKE,30.5"))
  /\ parseMessage atof_plain (lit "QUAKE,30.5")
     = mkParsed QUAKE (F32.literal 305 1) F32.zero F32.zero.
Proof.
  assert (H : lit "FIRE" `prefix_of` cstr (lit "QUAKE,30.5")
              \/ lit "QUAKE" `prefix_of` cstr (lit "QUAKE,30.5")).
  { right. exists (lit ",30.5"). reflexivity. }
  destruct (parseMessage_zero_fills atof_plain (lit "QUAKE,30.5") H)
    as (_ & Ht & Hlat & Hlng & Hextra & _).
  split; [exact H|].
  destruct (parseMessage atof_plain (lit "QUAKE,30.5")) as [ty la ln ex].
  cbn [p_type p_lat p_lng p_extra] in *.
  rewrite Ht, Hlat, Hlng, Hextra by (exists (lit ",30.5"); reflexivity).
  vm_compute. reflexivity.
Defined.

(** The sample message of the specification, and messages cut short. *)
Example decode_samples :
  parseMessage atof_plain Samples.fireMessage
  = mkParsed FIRE (F32.literal 30768885 6) (F32.literal 7657521 5)
             (F32.literal 10 1)
  /\ parseMessage atof_plain (lit "FIRE,30.768885,76.575210")
     = mkParsed FIRE (F32.literal 30768885 6) (F32.literal 7657521 5) F32.zero
  /\ parseMessage atof_plain (lit "FIRE")
     = mkParsed FIRE F32.zero F32.zero F32.zero
  /\ parseMessage atof_plain (lit "FIRE,north,east,big")
     = mkParsed FIRE F32.zero F32.zero F32.zero
  /\ parseMessage atof_plain (lit "SMOKE,1,2,3")
     = mkParsed NONE F32.zero F32.zero F32.zero.
Proof. vm_compute. repeat split. Qed.

End ReceiverFacts.

(** ** Runs of the transmitter *)

Module TransmitterRunFacts.
Import Machine CStr IEEE Transmitter TransmitterRuns.
Import MachineFacts CStrFacts TransmitterFacts.

Lemma run_cons t ts st : run (t :: ts) st = run ts (loop t st).
Proof. reflexivity. Qed.

(** *** At most one alert of a type in 5000 ms *)

Section RateLimit.

(** A time stamp and a count of alerts that [loop] moves together: the
    count grows by one at most, only when more than 5000 ms separate [now]
    from the stamp, and the stamp is then set to [now]. *)
Variable lastAlert : State -> Z.
Variable sentCount : State -> nat.
Hypothesis cooldown : forall t st,
  running st ->
  exists fires : bool,
    sentCount (loop t st) = (sentCount st + (if fires then 1 else 0))%nat
    /\ lastAlert (loop t st) = (if fires then now t else lastAlert st)
    /\ (fires = true -> 5000 < usub (now t) (lastAlert st)).

Lemma quiet_after_alert a ts : forall from st,
  running st -> a <= lastAlert st <= from ->
  chronological from ts -> Forall (fun t => now t <= a + 5000) ts ->
  sentCount (run ts st) = sentCount st.
Proof using cooldown.
  induction ts as [|t ts IH]; intros from st Hrun Hlast Hch Hall;
    [reflexivity|].
  destruct Hch as [Hnow Hch]. apply Forall_cons in Hall as [Ht Hall].
  destruct (cooldown t st Hrun) as (fires & Hc & Hl & Hcool).
  assert (E : usub (now t) (lastAlert st) = now t - lastAlert st).
  { unfold usub, ulong. apply Z.mod_small. unfold ULONG_MODULUS in *. lia. }
  destruct fires; [specialize (Hcool eq_refl); lia|].
  rewrite run_cons, (IH (now t) (loop t st)); try assumption.
  - rewrite Hc. lia.
  - apply loop_running, Hrun.
  - rewrite Hl. lia.
Qed.

Lemma at_most_one_alert a ts : forall from st,
  running st -> a <= from ->
  chronological from ts -> Forall (fun t => now t <= a + 5000) ts ->
  (sentCount (run ts st) <= sentCount st + 1)%nat.
Proof using cooldown.
  induction ts as [|t ts IH]; intros from st Hrun Hfrom Hch Hall;
    [cbn; lia|].
  destruct Hch as [Hnow Hch]. apply Forall_cons in Hall as [Ht Hall].
  destruct (cooldown t st Hrun) as (fires & Hc & Hl & _).
  rewrite run_cons. destruct fires.
  - rewrite (quiet_after_alert a ts (now t) (loop t st)); try assumption.
    + rewrite Hc. lia.
    + apply loop_running, Hrun.
    + rewrite Hl. lia.
  - specialize (IH (now t) (loop t st) (loop_running t st Hrun)
                   ltac:(lia) Hch Hall).
    rewrite Hc in IH. lia.
Qed.

Lemma quiet_during_cooldown ts : forall st,
  running st ->
  Forall (fun t => usub (now t) (lastAlert st) <= 5000) ts ->
  sentCount (run ts st) = sentCount st
  /\ lastAlert (run ts st) = lastAlert st.
Proof using cooldown.
  induction ts as [|t ts IH]; intros st Hrun Hall; [auto|].
  apply Forall_cons in Hall as [Ht Hall].
  destruct (cooldown t st Hrun) as (fires & Hc & Hl & Hcool).
  destruct fires; [specialize (Hcool eq_refl); lia|].
  rewrite run_cons.
  destruct (IH (loop t st) (loop_running t st Hrun)) as (-> & ->);
    [rewrite Hl; exact Hall|].
  rewrite Hc, Hl. split; [lia | reflexivity].
Qed.

End RateLimit.

Lemma fire_cooldown t st :
  running st ->
  exists fires : bool,
    length (alertsOf (lit "FIRE") (sent (loop t st)))
    = (length (alertsOf (lit "FIRE") (sent st)) + (if fires then 1 else 0))%nat
    /\ lastFireAlert (loop t st) = (if fires then now t else lastFireAlert st)
    /\ (fires = true -> 5000 < usub (now t) (lastFireAlert st)).
Proof.
  intros (Hlora & _). unfold loop.
  destruct (quakeDetection_frame t (fireDetection t st)) as (_ & -> & _).
  destruct (quakeDetection_sent t (fireDetection t st)) as (q & -> & Hq).
  rewrite alertsOf_app, Hq, app_nil_r.
  unfold fireDetection, sendLoRaAlert. cbn zeta.
  set (st1 := if flameDetectedOf t then _ else _).
  assert (E : sent st1 = sent st /\ lastFireAlert st1 = lastFireAlert st
              /\ loraReady st1 = true).
  { subst st1. destruct (flameDetectedOf t); [auto|].
    destruct (fireCount st >? 0); auto. }
  destruct E as (Es & El & Er). rewrite El.
  destruct (fireCount st1 >=? FLAME_SAMPLES_NEEDED); cbn [andb].
  - destruct (Z.gtb_spec (usub (now t) (lastFireAlert st)) FIRE_MIN_INTERVAL)
      as [L|L].
    + exists true. rewrite Er.
      cbn [negb sent set_fireCount set_lastFireAlert set_sent lastFireAlert].
      rewrite Es, alertsOf_app, length_app.
      repeat split. intros _. exact L.
    + exists false. rewrite Es, El, Nat.add_0_r. repeat split. discriminate.
  - exists false. rewrite Es, El, Nat.add_0_r. repeat split. discriminate.
Qed.

(** Without the accelerometer a pass of [loop] is the fire detection
    alone. *)
Lemma loop_without_accelerometer t st :
  accelReady st = false -> loop t st = fireDetection t st.
Proof.
  intros H. unfold loop, quakeDetection.
  destruct (fireDetection_frame t st) as (_ & _ & _ & _ & _ & ->).
  rewrite H. reflexivity.
Qed.

Lemma quake_cooldown t st :
  running st ->
  exists fires : bool,
    length (alertsOf (lit "QUAKE") (sent (loop t st)))
    = (length (alertsOf (lit "QUAKE") (sent st)) + (if fires then 1 else 0))%nat
    /\ lastQuakeAlert (loop t st) = (if fires then now t else lastQuakeAlert st)
    /\ (fires = true -> 5000 < usub (now t) (lastQuakeAlert st)).
Proof.
  intros Hrun. destruct (accelReady st) eqn:Haccel.
  - destruct (loop_quake_effect t st Hrun Haccel) as (_ & _ & _ & Hl & Hs).
    cbn zeta in Hl, Hs.
    match type of Hl with
    | _ = (if ?c then _ else _) => exists c; destruct c eqn:Hc
    end.
    + rewrite Hs, length_app. repeat split; try assumption.
      intros _. apply andb_true_iff in Hc as [_ Hc]. apply Z.ltb_lt, Hc.
    + rewrite Hs, app_nil_r, Nat.add_0_r. repeat split; try assumption.
      discriminate.
  - exists false. rewrite (loop_without_accelerometer t st Haccel).
    destruct (fireDetection_frame t st) as (-> & _).
    destruct (fireDetection_sent t st) as (f & -> & Hf).
    rewrite alertsOf_app, Hf, app_nil_r, Nat.add_0_r.
    repeat split. discriminate.
Qed.

(** X1. In a stretch of 5000 ms, on a clock that neither goes back nor wraps,
    the transmitter sends at most one FIRE alert and at most one QUAKE
    alert, whatever the sensors report. *)
Theorem one_alert_of_a_type_per_window (a : Z) (ts : list Tick) (st : State) :
  running st ->
  chronological a ts -> Forall (fun t => now t <= a + 5000) ts ->
  (length (alertsOf (lit "FIRE") (sent (run ts st)))
   <= length (alertsOf (lit "FIRE") (sent st)) + 1)%nat
  /\ (length (alertsOf (lit "QUAKE") (sent (run ts st)))
      <= length (alertsOf (lit "QUAKE") (sent st)) + 1)%nat.
Proof.
  intros Hrun Hch Hall. split.
  - apply (at_most_one_alert lastFireAlert
             (fun s => length (alertsOf (lit "FIRE") (sent s)))
             fire_cooldown a ts a st Hrun (Z.le_refl a) Hch Hall).
  - apply (at_most_one_alert lastQuakeAlert
             (fun s => length (alertsOf (lit "QUAKE") (sent s)))
             quake_cooldown a ts a st Hrun (Z.le_refl a) Hch Hall).
Qed.

Lemma one_alert_of_a_type_per_window_witness :
  running Samples.booted
  /\ chronological 6000
       [Samples.flameSeen 6000; Samples.flameSeen 6010; Samples.flameSeen 6020;
        Samples.flameSeen 8000; Samples.flameSeen 9000; Samples.flameSeen 11000]
  /\ (length
        (alertsOf (lit "FIRE")
           (sent
              (run [Samples.flameSeen 6000; Samples.flameSeen 6010;
                    Samples.flameSeen 6020; Samples.flameSeen 8000;
                    Samples.flameSeen 9000; Samples.flameSeen 11000]
                   Samples.booted)))
      <= length (alertsOf (lit "FIRE") (sent Samples.booted)) + 1)%nat.
Proof.
  assert (C : chronological 6000
       [Samples.flameSeen 6000; Samples.flameSeen 6010; Samples.flameSeen 6020;
        Samples.flameSeen 8000; Samples.flameSeen 9000; Samples.flameSeen 11000])
    by (cbn; unfold ULONG_MODULUS; lia).
  split; [exact booted_running|]. split; [exact C|].
  refine (proj1 (one_alert_of_a_type_per_window 6000 _ Samples.booted
                   booted_running C _)).
  repeat (constructor; [cbn; lia|]). constructor.
Defined.

(** *** What the transmitter sends *)

Lemma sendLoRaAlert_sent t type extra st :
  exists new,
    sent (sendLoRaAlert t type extra st) = sent st ++ new
    /\ Forall (fun a => a_type a = type) new.
Proof.
  unfold sendLoRaAlert. destruct (negb (loraReady st)).
  - exists []. rewrite app_nil_r. auto.
  - eexists. split; [reflexivity|]. repeat constructor.
Qed.

Lemma loop_sent_types t st :
  exists new,
    sent (loop t st) = sent st ++ new
    /\ Forall (fun a => a_type a = lit "FIRE" \/ a_type a = lit "QUAKE") new.
Proof.
  assert (F : exists new,
            sent (fireDetection t st) = sent st ++ new
            /\ Forall (fun a => a_type a = lit "FIRE" \/ a_type a = lit "QUAKE")
                      new).
  { unfold fireDetection. cbn zeta.
    set (st1 := if flameDetectedOf t then _ else _).
    assert (E : sent st1 = sent st).
    { subst st1. destruct (flameDetectedOf t); [reflexivity|].
      destruct (fireCount st >? 0); reflexivity. }
    destruct (_ && _).
    - destruct (sendLoRaAlert_sent t (lit "FIRE") (F32.literal 10 1) st1)
        as (new & Hs & Hn).
      exists new. cbn [sent set_fireCount set_lastFireAlert].
      rewrite Hs, E. split; [reflexivity|].
      eapply Forall_impl; [exact Hn|]. cbn. auto.
    - exists []. rewrite app_nil_r. auto. }
  destruct F as (f & Ef & Hf). unfold loop.
  assert (Q : exists new,
            sent (quakeDetection t (fireDetection t st))
            = sent (fireDetection t st) ++ new
            /\ Forall (fun a => a_type a = lit "FIRE" \/ a_type a = lit "QUAKE")
                      new).
  { generalize (fireDetection t st) as s. intros s.
    unfold quakeDetection. cbn zeta.
    destruct (accelReady s); [|exists []; rewrite app_nil_r; auto].
    destruct (_ && _); [|exists []; rewrite app_nil_r; auto].
    match goal with
    | |- context [sendLoRaAlert t ?ty ?ex ?s1] =>
        destruct (sendLoRaAlert_sent t ty ex s1) as (new & Hs & Hn)
    end.
    exists new. cbn [sent set_lastQuakeAlert]. rewrite Hs.
    split; [reflexivity|].
    eapply Forall_impl; [exact Hn|]. cbn. auto. }
  destruct Q as (q & -> & Hq). rewrite Ef, <- app_assoc.
  exists (f ++ q). split; [reflexivity|]. apply Forall_app. auto.
Qed.

Lemma run_sent_types ts : forall st,
  Forall (fun a => a_type a = lit "FIRE" \/ a_type a = lit "QUAKE") (sent st) ->
  Forall (fun a => a_type a = lit "FIRE" \/ a_type a = lit "QUAKE")
         (sent (run ts st)).
Proof.
  induction ts as [|t ts IH]; intros st H; [exact H|].
  change (run (t :: ts) st) with (run ts (loop t st)). apply IH.
  destruct (loop_sent_types t st) as (new & -> & Hn).
  apply Forall_app. auto.
Qed.

(** *** The first 5000 ms *)

(** X2. The two time stamps start at 0, so the transmitter sends nothing while
    its clock reads 5000 ms or less: a flame or a tremor sensed right after
    the start waits for the first pass later than that. *)
Theorem no_alert_in_the_first_5000_ms
    (lora_begin accel_begin : bool) (st0 : State) (ts : list Tick) :
  setup lora_begin accel_begin = Some st0 ->
  Forall (fun t => 0 <= now t <= 5000) ts ->
  sent (run ts st0) = [].
Proof.
  intros Hsetup Hall.
  pose proof (proj1 (setup_running _ _ _ Hsetup)) as Hrun.
  assert (H0 : lastFireAlert st0 = 0 /\ lastQuakeAlert st0 = 0 /\ sent st0 = []).
  { unfold setup in Hsetup. destruct lora_begin; [|discriminate].
    injection Hsetup as <-. auto. }
  destruct H0 as (Hf0 & Hq0 & Hs0).
  assert (U : forall last,
            last = 0 ->
            Forall (fun t => usub (now t) last <= 5000) ts).
  { intros last ->. eapply Forall_impl; [exact Hall|].
    intros t Ht. cbn beta in *. unfold usub, ulong.
    rewrite Z.sub_0_r, Z.mod_small; unfold ULONG_MODULUS; lia. }
  destruct (quiet_during_cooldown lastFireAlert
              (fun s => length (alertsOf (lit "FIRE") (sent s)))
              fire_cooldown ts st0 Hrun (U _ Hf0)) as (Hfire & _).
  destruct (quiet_during_cooldown lastQuakeAlert
              (fun s => length (alertsOf (lit "QUAKE") (sent s)))
              quake_cooldown ts st0 Hrun (U _ Hq0)) as (Hquake & _).
  cbn beta in Hfire, Hquake. rewrite Hs0 in Hfire, Hquake.
  pose proof (run_sent_types ts st0) as Htypes. rewrite Hs0 in Htypes.
  specialize (Htypes (Forall_nil_2 _)).
  destruct (sent (run ts st0)) as [|a rest]; [reflexivity|].
  exfalso. apply Forall_cons in Htypes as [[Ha | Ha] _].
  - unfold alertsOf in Hfire. cbn [List.filter] in Hfire.
    rewrite Ha in Hfire. discriminate Hfire.
  - unfold alertsOf in Hquake. cbn [List.filter] in Hquake.
    rewrite Ha in Hquake. discriminate Hquake.
Qed.

Lemma no_alert_in_the_first_5000_ms_witness :
  setup true true = Some Samples.booted
  /\ fireCount (run [Samples.flameSeen 10; Samples.flameSeen 20;
                    Samples.flameSeen 30; Samples.flameSeen 5000]
                   Samples.booted) = 4
  /\ sent (run [Samples.flameSeen 10; Samples.flameSeen 20;
                Samples.flameSeen 30; Samples.flameSeen 5000]
               Samples.booted) = []
  /\ map a_type
       (sent (run [Samples.flameSeen 10; Samples.flameSeen 20;
                   Samples.flameSeen 30; Samples.flameSeen 5000;
                   Samples.flameSeen 5001]
                  Samples.booted)) = [lit "FIRE"].
Proof.
  split; [reflexivity|]. split; [vm_compute; reflexivity|]. split.
  - apply (no_alert_in_the_first_5000_ms true true Samples.booted
             [Samples.flameSeen 10; Samples.flameSeen 20;
              Samples.flameSeen 30; Samples.flameSeen 5000] eq_refl).
    repeat (constructor; [cbn; lia|]). constructor.
  - vm_compute. reflexivity.
Defined.

End TransmitterRunFacts.

Module TransmitterWindowFacts.
Import Machine CStr IEEE Transmitter TransmitterRuns.
Import MachineFacts CStrFacts TransmitterFacts TransmitterRunFacts.

(** *** The price of a FIRE alert *)

Lemma detections_snoc ts t :
  detections (ts ++ [t])
  = (detections ts + (if flameDetectedOf t then 1 else 0))%nat.
Proof.
  unfold detections. rewrite List.filter_app, length_app. cbn.
  destruct (flameDetectedOf t); reflexivity.
Qed.

Lemma detections_le_length ts : (detections ts <= length ts)%nat.
Proof. apply List.filter_length_le. Qed.

(** X3. Every FIRE alert costs three detections: along a run too short for the
    counter to wrap, three times the number of FIRE alerts sent, plus what
    the counter holds at the end, is at most what the counter held at the
    start plus the number of passes that saw the flame. In particular a
    transmitter whose counter is at zero sends no FIRE alert before its
    flame sensor has fired on three passes. *)
Theorem fire_alert_costs_three_detections (ts : list Tick) (st0 : State) :
  running st0 -> 0 <= fireCount st0 ->
  fireCount st0 + Z.of_nat (length ts) < INT_MAX ->
  let st := run ts st0 in
  0 <= fireCount st
  /\ fireCount st
     + 3 * (Z.of_nat (length (alertsOf (lit "FIRE") (sent st)))
            - Z.of_nat (length (alertsOf (lit "FIRE") (sent st0))))
     <= fireCount st0 + Z.of_nat (detections ts).
Proof.
  intros Hrun H0. cbn zeta.
  induction ts as [|t ts IH] using rev_ind; intros Hmax.
  - cbn. lia.
  - rewrite length_app in Hmax. cbn [length] in Hmax.
    destruct IH as [Hlo Hhi]; [lia|].
    rewrite run_snoc, detections_snoc.
    pose proof (detections_le_length ts) as Hd.
    destruct (run_running ts st0 Hrun) as (Hlora & _).
    pose proof (run_fireCount ts st0 Hrun H0 ltac:(lia)) as Hfc.
    destruct (loop_fire_effect t (run ts st0) Hlora ltac:(lia))
      as (-> & _ & ->).
    rewrite length_app. unfold leaky, FLAME_SAMPLES_NEEDED.
    destruct (flameDetectedOf t);
      match goal with
      | |- context [if ?c then _ else _] => destruct c eqn:Hc
      end; cbn [length];
      try (apply andb_true_iff in Hc as [Hc _]; apply Z.leb_le in Hc);
      lia.
Qed.

Lemma fire_alert_costs_three_detections_witness :
  let ts := [Samples.flameSeen 6000; Samples.atRest 6010;
             Samples.flameSeen 6020; Samples.flameSeen 6030;
             Samples.flameSeen 6040] in
  running Samples.booted
  /\ fireCount (run ts Samples.booted)
     + 3 * (Z.of_nat (length (alertsOf (lit "FIRE")
                                (sent (run ts Samples.booted))))
            - Z.of_nat (length (alertsOf (lit "FIRE") (sent Samples.booted))))
     <= fireCount Samples.booted + Z.of_nat (detections ts).
Proof.
  cbn zeta. split; [exact booted_running|].
  refine (proj2 (fire_alert_costs_three_detections
                   [Samples.flameSeen 6000; Samples.atRest 6010;
                    Samples.flameSeen 6020; Samples.flameSeen 6030;
                    Samples.flameSeen 6040] Samples.booted
                   booted_running _ _)).
  - cbn. lia.
  - vm_compute. reflexivity.
Defined.

(** *** A transmitter without accelerometer *)

Lemma fireDetection_keeps_quake t st :
  alertsOf (lit "QUAKE") (sent (fireDetection t st))
  = alertsOf (lit "QUAKE") (sent st).
Proof.
  destruct (fireDetection_sent t st) as (f & -> & Hf).
  rewrite alertsOf_app, Hf, app_nil_r. reflexivity.
Qed.

(** X4. When the accelerometer did not answer in [setup], every pass of [loop]
    is the fire detection alone: no QUAKE alert is ever sent, and the
    filter, the window, its index and the QUAKE time stamp stay as they
    were, whatever the sensor lines carry. *)
Theorem no_accelerometer_no_quake (ts : list Tick) (st0 : State) :
  accelReady st0 = false ->
  let st := run ts st0 in
  st = fold_left (fun s t => fireDetection t s) ts st0
  /\ alertsOf (lit "QUAKE") (sent st) = alertsOf (lit "QUAKE") (sent st0)
  /\ filteredAccel st = filteredAccel st0
  /\ quakeWindow st = quakeWindow st0
  /\ windowIndex st = windowIndex st0
  /\ lastQuakeAlert st = lastQuakeAlert st0.
Proof.
  cbn zeta. revert st0.
  induction ts as [|t ts IH]; intros st0 Haccel; [cbn; auto 6|].
  rewrite run_cons. cbn [fold_left].
  rewrite (loop_without_accelerometer t st0 Haccel).
  destruct (fireDetection_frame t st0) as (E1 & E2 & E3 & E4 & _ & E6).
  destruct (IH (fireDetection t st0)) as (-> & -> & -> & -> & -> & ->);
    [congruence|].
  rewrite fireDetection_keeps_quake, E1, E2, E3, E4. auto 6.
Qed.

Lemma no_accelerometer_no_quake_witness :
  alertsOf (lit "QUAKE")
    (sent (run [Samples.shaken 6000; Samples.shaken 6010; Samples.shaken 6020;
                Samples.shaken 6030; Samples.shaken 6040]
               (mkState 0 0 0 F32.zero (replicate WINDOW_SIZE 0) 0
                        true false [])))
  = [].
Proof.
  exact (proj1 (proj2 (no_accelerometer_no_quake
                         [Samples.shaken 6000; Samples.shaken 6010;
                          Samples.shaken 6020; Samples.shaken 6030;
                          Samples.shaken 6040]
                         (mkState 0 0 0 F32.zero (replicate WINDOW_SIZE 0) 0
                                  true false [])
                         eq_refl))).
Defined.

(** *** The window is a ring of the last ten votes *)

Lemma unrolled_length st :
  length (unrolled st) = length (quakeWindow st).
Proof.
  unfold unrolled. rewrite length_app, length_drop, length_take. lia.
Qed.

Lemma votes_app a b : votes (a ++ b) = votes a + votes b.
Proof.
  unfold votes. induction a as [|x a IH]; cbn; [reflexivity|].
  rewrite IH. lia.
Qed.

Lemma votes_unrolled st : votes (unrolled st) = votes (quakeWindow st).
Proof.
  unfold unrolled.
  rewrite <- (take_drop (windowIndex st) (quakeWindow st)) at 3.
  rewrite !votes_app. lia.
Qed.

(** Writing at the index and moving it on drops the oldest vote and
    appends the new one. *)
Lemma ring_step (w : list Z) (i : nat) (v : Z) :
  length w = WINDOW_SIZE -> (i < WINDOW_SIZE)%nat ->
  let w' := <[i:=v]> w in
  let i' := ((i + 1) mod WINDOW_SIZE)%nat in
  drop i' w' ++ take i' w' = tail (drop i w ++ take i w) ++ [v].
Proof.
  intros Hlen Hi. cbn zeta.
  assert (Hd : drop i w ++ take i w
               = default 0 (w !! i) :: drop (S i) w ++ take i w).
  { destruct (lookup_lt_is_Some_2 w i ltac:(lia)) as [x Hx].
    rewrite (drop_S w x i Hx), Hx. reflexivity. }
  rewrite Hd. cbn [tail].
  destruct (decide (i + 1 < WINDOW_SIZE)%nat) as [L|L].
  - rewrite Nat.mod_small by exact L.
    rewrite drop_insert_lt by lia.
    rewrite (insert_take_drop w i v) by lia.
    rewrite take_app_add' by (rewrite length_take; lia).
    replace (i + 1)%nat with (S i) by lia.
    rewrite <- app_assoc. reflexivity.
  - assert (i = 9)%nat as -> by (unfold WINDOW_SIZE in *; lia).
    change ((9 + 1) mod WINDOW_SIZE)%nat with 0%nat.
    rewrite drop_0, take_0, app_nil_r.
    rewrite (insert_take_drop w 9 v) by lia.
    rewrite (drop_ge w 10) by (unfold WINDOW_SIZE in *; lia).
    reflexivity.
Qed.

Lemma unrolled_loop t st :
  running st -> accelReady st = true ->
  unrolled (loop t st)
  = tail (unrolled st)
      ++ [voteOf (lowPass (rawAccelOf t) (filteredAccel st))].
Proof.
  intros Hrun Haccel.
  destruct (loop_quake_effect t st Hrun Haccel) as (_ & Hw & Hi & _).
  cbn zeta in Hw, Hi. unfold unrolled. rewrite Hw, Hi.
  destruct Hrun as (_ & Hlen & Hidx & _).
  apply (ring_step (quakeWindow st) (windowIndex st) _ Hlen Hidx).
Qed.

Lemma unrolled_run ts : forall st,
  running st -> accelReady st = true ->
  unrolled (run ts st) = drop (length ts) (unrolled st ++ casts ts st).
Proof.
  induction ts as [|t ts IH]; intros st Hrun Haccel.
  - cbn. rewrite app_nil_r. reflexivity.
  - rewrite run_cons, IH
      by (try apply loop_running; try rewrite loop_accelReady; assumption).
    rewrite (unrolled_loop t st Hrun Haccel). cbn [casts length].
    pose proof (unrolled_length st) as Hl.
    destruct Hrun as (_ & Hlen & _). rewrite Hlen in Hl.
    destruct (unrolled st) as [|x u]; [discriminate Hl|].
    cbn [tail app drop]. rewrite <- app_assoc. reflexivity.
Qed.

Lemma casts_length ts : forall st, length (casts ts st) = length ts.
Proof.
  induction ts as [|t ts IH]; intros st; cbn; [reflexivity|].
  rewrite IH. reflexivity.
Qed.

(** X5. After ten passes or more, the window read from its index onwards is
    the list of the votes of the last ten passes, oldest first, whatever it
    held before; so the count the QUAKE decision compares with 4 is the
    number of passes, among the last ten, whose filtered acceleration
    exceeded the threshold. *)
Theorem window_is_last_ten_votes (ts : list Tick) (st0 : State) :
  running st0 -> accelReady st0 = true ->
  (WINDOW_SIZE <= length ts)%nat ->
  let st := run ts st0 in
  let recent := drop (length ts - WINDOW_SIZE) (casts ts st0) in
  unrolled st = recent
  /\ length recent = WINDOW_SIZE
  /\ shakeCountOf (quakeWindow st) = votes recent.
Proof.
  intros Hrun Haccel Hlen. cbn zeta.
  assert (E : unrolled (run ts st0)
              = drop (length ts - WINDOW_SIZE) (casts ts st0)).
  { rewrite (unrolled_run ts st0 Hrun Haccel).
    pose proof (unrolled_length st0) as Hl.
    destruct Hrun as (_ & Hw & _). rewrite Hw in Hl.
    rewrite drop_app_ge by lia. rewrite Hl. reflexivity. }
  split; [exact E|]. split.
  - rewrite length_drop, casts_length. lia.
  - rewrite <- E, votes_unrolled.
    destruct (run_running ts st0 Hrun) as (_ & Hw & _ & Hbits).
    apply shakeCountOf_votes; assumption.
Qed.

Lemma window_is_last_ten_votes_witness :
  let ts := [Samples.shaken 1; Samples.shaken 2; Samples.shaken 3;
             Samples.shaken 4; Samples.shaken 5; Samples.shaken 6;
             Samples.atRest 7; Samples.atRest 8; Samples.atRest 9;
             Samples.atRest 10; Samples.atRest 11; Samples.atRest 12] in
  running Samples.booted
  /\ unrolled (run ts Samples.booted)
     = drop (length ts - WINDOW_SIZE) (casts ts Samples.booted).
Proof.
  cbn zeta. split; [exact booted_running|].
  refine (proj1 (window_is_last_ten_votes
                   [Samples.shaken 1; Samples.shaken 2; Samples.shaken 3;
                    Samples.shaken 4; Samples.shaken 5; Samples.shaken 6;
                    Samples.atRest 7; Samples.atRest 8; Samples.atRest 9;
                    Samples.atRest 10; Samples.atRest 11; Samples.atRest 12]
                   Samples.booted booted_running eq_refl _)).
  unfold WINDOW_SIZE. cbn [length]. lia.
Defined.

End TransmitterWindowFacts.

(** ** Runs of the relays *)

Module RelayRunFacts.
Import Machine CStr IEEE Relay RelayRuns.
Import MachineFacts CStrFacts IEEEFacts RelayFacts RelayLoopFacts.

Lemma uadd_ulong a : uadd (ulong a) 1 = ulong (a + 1).
Proof. unfold uadd, ulong. apply Zplus_mod_idemp_l. Qed.

Lemma count_app p tr1 tr2 : count p (tr1 ++ tr2) = count p tr1 + count p tr2.
Proof. unfold count. rewrite List.filter_app, length_app. lia. Qed.

Lemma count_nonneg p tr : 0 <= count p tr.
Proof. unfold count. lia. Qed.

(** *** One pass of [loop], case by case *)

Lemma hybrid_loop_effect libc cfg env st :
  let text := readPacket (HybridRelay.packet env) (HybridRelay.stack env) in
  let dist := HybridRelay.distanceToReceiver libc cfg text in
  let short := F32.ltb dist (HybridRelay.DISTANCE_THRESHOLD_METERS cfg) in
  let ok := HybridRelay.hybridSuccess cfg env dist in
  let st' := HybridRelay.loop libc cfg env st in
  (HybridRelay.packet env = [] /\ st' = st)
  \/ (HybridRelay.packet env <> []
      /\ HybridRelay.messagesReceived st'
         = uadd (HybridRelay.messagesReceived st) 1
      /\ ((isValidMessage text = false
           /\ HybridRelay.cache st' = HybridRelay.cache st
           /\ HybridRelay.messagesDuplicate st'
              = HybridRelay.messagesDuplicate st
           /\ HybridRelay.messagesForwardedLoRa st'
              = HybridRelay.messagesForwardedLoRa st
           /\ HybridRelay.messagesForwardedEspNow st'
              = HybridRelay.messagesForwardedEspNow st
           /\ HybridRelay.trace st'
              = HybridRelay.trace st
                  ++ [BlinkRx; Received (cstr text);
                      Log "Invalid format - not forwarding"])
          \/ (isValidMessage text = true
              /\ isDuplicate (HybridRelay.millis_isDuplicate env)
                             (HybridRelay.cache st) text = true
              /\ HybridRelay.cache st' = HybridRelay.cache st
              /\ HybridRelay.messagesDuplicate st'
                 = uadd (HybridRelay.messagesDuplicate st) 1
              /\ HybridRelay.messagesForwardedLoRa st'
                 = HybridRelay.messagesForwardedLoRa st
              /\ HybridRelay.messagesForwardedEspNow st'
                 = HybridRelay.messagesForwardedEspNow st
              /\ HybridRelay.trace st'
                 = HybridRelay.trace st
                     ++ [BlinkRx; Received (cstr text);
                         Log "Duplicate - not forwarding"])
          \/ (isValidMessage text = true
              /\ isDuplicate (HybridRelay.millis_isDuplicate env)
                             (HybridRelay.cache st) text = false
              /\ HybridRelay.cache st'
                 = cacheMessage (HybridRelay.millis_cacheMessage env) text
                                (HybridRelay.cache st)
              /\ HybridRelay.messagesDuplicate st'
                 = HybridRelay.messagesDuplicate st
              /\ HybridRelay.messagesForwardedLoRa st'
                 = (if negb short && ok
                    then uadd (HybridRelay.messagesForwardedLoRa st) 1
                    else HybridRelay.messagesForwardedLoRa st)
              /\ HybridRelay.messagesForwardedEspNow st'
                 = (if short && ok
                    then uadd (HybridRelay.messagesForwardedEspNow st) 1
                    else HybridRelay.messagesForwardedEspNow st)
              /\ HybridRelay.trace st'
                 = HybridRelay.trace st
                     ++ [BlinkRx; Received (cstr text);
                         Log "Distance to Receiver";
                         HybridRelay.hybridSend cfg env dist text]
                     ++ (if ok
                         then [Log (if short then "FORWARDED (ESP-NOW)"
                                    else "FORWARDED (LoRa)"); BlinkTx]
                         else [Log (if short then "ESP-NOW Forward failed"
                                    else "LoRa Forward failed")])))).
Proof.
  cbn zeta. destruct (HybridRelay.packet env) as [|b rest] eqn:Hp.
  - left. split; [reflexivity|]. unfold HybridRelay.loop. rewrite Hp.
    reflexivity.
  - right. split; [discriminate|]. rewrite <- Hp.
    assert (Hne : HybridRelay.packet env <> []) by (rewrite Hp; discriminate).
    set (text := readPacket (HybridRelay.packet env) (HybridRelay.stack env)).
    destruct (isValidMessage text) eqn:Hv.
    + destruct (isDuplicate (HybridRelay.millis_isDuplicate env)
                            (HybridRelay.cache st) text) eqn:Hd.
      * unfold HybridRelay.loop. rewrite (nonempty_packetSize _ Hne).
        cbn zeta. fold text. rewrite Hv. cbn [negb].
        cbn [HybridRelay.cache HybridRelay.emit
             HybridRelay.incr_messagesReceived].
        rewrite Hd. split; [reflexivity|]. right. left.
        cbn. rewrite <- !app_assoc. repeat split; reflexivity.
      * rewrite (hybrid_loop_new libc cfg env st Hne Hv Hd). fold text.
        destruct (hybrid_forwardMessage_effect libc cfg env text
                    (HybridRelay.recorded
                       text (HybridRelay.millis_cacheMessage env) st))
          as (H1 & H2 & H3 & H4 & H5 & H6).
        split; [rewrite H2; reflexivity|]. right. right.
        split; [reflexivity|]. split; [reflexivity|].
        split; [rewrite H1; reflexivity|].
        split; [rewrite H3; reflexivity|].
        split; [rewrite H5; reflexivity|].
        split; [rewrite H4; reflexivity|].
        rewrite H6. cbn. rewrite <- !app_assoc. reflexivity.
    + unfold HybridRelay.loop. rewrite (nonempty_packetSize _ Hne).
      cbn zeta. fold text. rewrite Hv. cbn [negb].
      split; [reflexivity|]. left.
      cbn. rewrite <- !app_assoc. repeat split; reflexivity.
Qed.

Lemma plain_loop_effect env st :
  let text := readPacket (PlainRelay.packet env) (PlainRelay.stack env) in
  let ok := PlainRelay.lora_endPacket env in
  let st' := PlainRelay.loop env st in
  (PlainRelay.packet env = [] /\ st' = st)
  \/ (PlainRelay.packet env <> []
      /\ PlainRelay.messagesReceived st'
         = uadd (PlainRelay.messagesReceived st) 1
      /\ ((isValidMessage text = false
           /\ PlainRelay.cache st' = PlainRelay.cache st
           /\ PlainRelay.messagesDuplicate st' = PlainRelay.messagesDuplicate st
           /\ PlainRelay.messagesForwarded st' = PlainRelay.messagesForwarded st
           /\ PlainRelay.trace st'
              = PlainRelay.trace st
                  ++ [BlinkRx; Received (cstr text);
                      Log "Invalid format - not forwarding"])
          \/ (isValidMessage text = true
              /\ isDuplicate (PlainRelay.millis_isDuplicate env)
                             (PlainRelay.cache st) text = true
              /\ PlainRelay.cache st' = PlainRelay.cache st
              /\ PlainRelay.messagesDuplicate st'
                 = uadd (PlainRelay.messagesDuplicate st) 1
              /\ PlainRelay.messagesForwarded st'
                 = PlainRelay.messagesForwarded st
              /\ PlainRelay.trace st'
                 = PlainRelay.trace st
                     ++ [BlinkRx; Received (cstr text);
                         Log "Duplicate - not forwarding"])
          \/ (isValidMessage text = true
              /\ isDuplicate (PlainRelay.millis_isDuplicate env)
                             (PlainRelay.cache st) text = false
              /\ PlainRelay.cache st'
                 = cacheMessage (PlainRelay.millis_cacheMessage env) text
                                (PlainRelay.cache st)
              /\ PlainRelay.messagesDuplicate st'
                 = PlainRelay.messagesDuplicate st
              /\ PlainRelay.messagesForwarded st'
                 = (if ok then uadd (PlainRelay.messagesForwarded st) 1
                    else PlainRelay.messagesForwarded st)
              /\ PlainRelay.trace st'
                 = PlainRelay.trace st
                     ++ [BlinkRx; Received (cstr text);
                         Delay (PlainRelay.random_50_150 env);
                         LoRaPacket (cstr text) ok]
                     ++ (if ok then [BlinkTx; Log "FORWARDED"]
                         else [Log "Forward failed"])))).
Proof.
  cbn zeta. destruct (PlainRelay.packet env) as [|b rest] eqn:Hp.
  - left. split; [reflexivity|]. unfold PlainRelay.loop. rewrite Hp.
    reflexivity.
  - right. split; [discriminate|]. rewrite <- Hp.
    assert (Hne : PlainRelay.packet env <> []) by (rewrite Hp; discriminate).
    set (text := readPacket (PlainRelay.packet env) (PlainRelay.stack env)).
    destruct (isValidMessage text) eqn:Hv.
    + destruct (isDuplicate (PlainRelay.millis_isDuplicate env)
                            (PlainRelay.cache st) text) eqn:Hd.
      * unfold PlainRelay.loop. rewrite (nonempty_packetSize _ Hne).
        cbn zeta. fold text. rewrite Hv. cbn [negb].
        cbn [PlainRelay.cache PlainRelay.emit PlainRelay.incr_messagesReceived].
        rewrite Hd. split; [reflexivity|]. right. left.
        cbn. rewrite <- !app_assoc. repeat split; reflexivity.
      * rewrite (plain_loop_new env st Hne Hv Hd). fold text.
        destruct (plain_forwardMessage_effect env text
                    (PlainRelay.recorded
                       text (PlainRelay.millis_cacheMessage env) st))
          as (H1 & H2 & H3 & H4 & H5).
        split; [rewrite H2; reflexivity|]. right. right.
        split; [reflexivity|]. split; [reflexivity|].
        split; [rewrite H1; reflexivity|].
        split; [rewrite H3; reflexivity|].
        split; [rewrite H4; reflexivity|].
        rewrite H5. cbn. rewrite <- !app_assoc. reflexivity.
    + unfold PlainRelay.loop. rewrite (nonempty_packetSize _ Hne).
      cbn zeta. fold text. rewrite Hv. cbn [negb].
      split; [reflexivity|]. left.
      cbn. rewrite <- !app_assoc. repeat split; reflexivity.
Qed.

(** *** The statistics and the trace *)

Ltac count_new :=
  rewrite ?count_app; unfold count in *; cbn [List.filter isReceived isLog isSend
    isForwardedLoRa isForwardedEspNow String.eqb Ascii.eqb Bool.eqb length
    app];
  rewrite ?uadd_ulong; try (f_equal; lia); try lia.

Lemma hybrid_loop_counted libc cfg env st :
  hybridCounted st -> hybridCounted (HybridRelay.loop libc cfg env st).
Proof.
  intros (Hr & Hd & Hl & He). unfold hybridCounted. cbn zeta.
  destruct (hybrid_loop_effect libc cfg env st)
    as [(_ & ->) | (_ & Er & [H | [H | H]])]; [repeat split; assumption | | |].
  - destruct H as (_ & _ & Ed & El & Ee & ->).
    rewrite Er, Ed, El, Ee, Hr, Hd, Hl, He. repeat split; count_new.
  - destruct H as (_ & _ & _ & Ed & El & Ee & ->).
    rewrite Er, Ed, El, Ee, Hr, Hd, Hl, He. repeat split; count_new.
  - destruct H as (_ & _ & _ & Ed & El & Ee & ->).
    rewrite Er, Ed, El, Ee, Hr, Hd, Hl, He.
    unfold HybridRelay.hybridSend, HybridRelay.hybridSuccess.
    destruct (F32.ltb _ _); cbn [negb andb].
    + destruct (HybridRelay.esp_now_result env =? 0) eqn:E;
        repeat split; count_new; rewrite ?E; count_new.
    + destruct (HybridRelay.lora_endPacket env) eqn:E;
        repeat split; count_new.
Qed.

Lemma plain_loop_counted env st :
  plainCounted st -> plainCounted (PlainRelay.loop env st).
Proof.
  intros (Hr & Hd & Hf). unfold plainCounted. cbn zeta.
  destruct (plain_loop_effect env st)
    as [(_ & ->) | (_ & Er & [H | [H | H]])]; [repeat split; assumption | | |].
  - destruct H as (_ & _ & Ed & Ef & ->).
    rewrite Er, Ed, Ef, Hr, Hd, Hf. repeat split; count_new.
  - destruct H as (_ & _ & _ & Ed & Ef & ->).
    rewrite Er, Ed, Ef, Hr, Hd, Hf. repeat split; count_new.
  - destruct H as (_ & _ & _ & Ed & Ef & ->).
    rewrite Er, Ed, Ef, Hr, Hd, Hf.
    destruct (PlainRelay.lora_endPacket env) eqn:E;
      repeat split; count_new.
Qed.

Lemma hybrid_loop_accounted libc cfg env st :
  accounted (HybridRelay.trace st) ->
  accounted (HybridRelay.trace (HybridRelay.loop libc cfg env st)).
Proof.
  unfold accounted. intros H.
  destruct (hybrid_loop_effect libc cfg env st)
    as [(_ & ->) | (_ & _ & [H1 | [H1 | H1]])]; [exact H | | |].
  - destruct H1 as (_ & _ & _ & _ & _ & ->). count_new.
  - destruct H1 as (_ & _ & _ & _ & _ & _ & ->). count_new.
  - destruct H1 as (_ & _ & _ & _ & _ & _ & ->).
    unfold HybridRelay.hybridSend, HybridRelay.hybridSuccess.
    destruct (F32.ltb _ _);
      [destruct (HybridRelay.esp_now_result env =? 0)
      |destruct (HybridRelay.lora_endPacket env)]; count_new.
Qed.

Lemma plain_loop_accounted env st :
  accounted (PlainRelay.trace st) ->
  accounted (PlainRelay.trace (PlainRelay.loop env st)).
Proof.
  unfold accounted. intros H.
  destruct (plain_loop_effect env st)
    as [(_ & ->) | (_ & _ & [H1 | [H1 | H1]])]; [exact H | | |].
  - destruct H1 as (_ & _ & _ & _ & ->). count_new.
  - destruct H1 as (_ & _ & _ & _ & _ & ->). count_new.
  - destruct H1 as (_ & _ & _ & _ & _ & ->).
    destruct (PlainRelay.lora_endPacket env); count_new.
Qed.

Lemma hybridRun_snoc libc cfg envs env st :
  hybridRun libc cfg (envs ++ [env]) st
  = HybridRelay.loop libc cfg env (hybridRun libc cfg envs st).
Proof. unfold hybridRun. rewrite fold_left_app. reflexivity. Qed.

Lemma plainRun_snoc envs env st :
  plainRun (envs ++ [env]) st = PlainRelay.loop env (plainRun envs st).
Proof. unfold plainRun. rewrite fold_left_app. reflexivity. Qed.

(** X6. However long the relays run and whatever they receive, their
    statistics are the numbers of events of their traces, modulo 2^32:
    packets received, duplicates dropped, and messages a radio accepted,
    per transport for the hybrid relay. *)
Theorem statistics_count_the_trace :
  (forall libc cfg envs,
     hybridCounted (hybridRun libc cfg envs HybridRelay.initial))
  /\ (forall envs, plainCounted (plainRun envs PlainRelay.initial)).
Proof.
  split.
  - intros libc cfg envs. induction envs as [|env envs IH] using rev_ind.
    + repeat split.
    + rewrite hybridRun_snoc. apply hybrid_loop_counted, IH.
  - intros envs. induction envs as [|env envs IH] using rev_ind.
    + repeat split.
    + rewrite plainRun_snoc. apply plain_loop_counted, IH.
Qed.

(** X7. Every packet a relay receives ends in exactly one of three ways: it is
    refused as invalid, dropped as a duplicate, or handed to a radio, once.
    So a relay never transmits more packets than it received, and never
    transmits on its own. *)
Theorem every_packet_accounted :
  (forall libc cfg envs,
     let tr := HybridRelay.trace (hybridRun libc cfg envs HybridRelay.initial) in
     accounted tr /\ count isSend tr <= count isReceived tr)
  /\ (forall envs,
        let tr := PlainRelay.trace (plainRun envs PlainRelay.initial) in
        accounted tr /\ count isSend tr <= count isReceived tr).
Proof.
  assert (L : forall tr, accounted tr -> count isSend tr <= count isReceived tr).
  { unfold accounted. intros tr ->.
    pose proof (count_nonneg (isLog "Invalid format - not forwarding") tr).
    pose proof (count_nonneg (isLog "Duplicate - not forwarding") tr). lia. }
  split.
  - intros libc cfg envs. cbn zeta.
    assert (A : accounted (HybridRelay.trace
                             (hybridRun libc cfg envs HybridRelay.initial))).
    { induction envs as [|env envs IH] using rev_ind; [reflexivity|].
      rewrite hybridRun_snoc. apply hybrid_loop_accounted, IH. }
    split; [exact A | apply L, A].
  - intros envs. cbn zeta.
    assert (A : accounted (PlainRelay.trace (plainRun envs PlainRelay.initial))).
    { induction envs as [|env envs IH] using rev_ind; [reflexivity|].
      rewrite plainRun_snoc. apply plain_loop_accounted, IH. }
    split; [exact A | apply L, A].
Qed.

(** *** A recorded text and the records that follow *)

Lemma cacheAll_snoc records r c :
  cacheAll (records ++ [r]) c = cacheMessage (fst r) (snd r) (cacheAll records c).
Proof. unfold cacheAll. rewrite fold_left_app. reflexivity. Qed.

(** Fewer than ten records do not bring the ring back to the slot written
    last. *)
Lemma cacheAll_keeps records : forall c i j,
  (i < CACHE_SIZE)%nat -> (j + length records < CACHE_SIZE)%nat ->
  cacheIndex c = ((i + 1 + j) mod CACHE_SIZE)%nat ->
  messageCache (cacheAll records c) !! i = messageCache c !! i.
Proof.
  induction records as [|r rs IH]; intros c i j Hi Hj Hidx; [reflexivity|].
  cbn [length] in Hj.
  change (cacheAll (r :: rs) c)
    with (cacheAll rs (cacheMessage (fst r) (snd r) c)).
  rewrite (IH (cacheMessage (fst r) (snd r) c) i (S j)); try assumption.
  - apply cacheMessage_kept. rewrite Hidx. unfold CACHE_SIZE in *.
    intros E.
    destruct (le_lt_dec 10 (i + 1 + j)) as [L|L].
    + replace (i + 1 + j)%nat with ((i + 1 + j - 10) + 1 * 10)%nat in E by lia.
      rewrite Nat.Div0.mod_add, Nat.mod_small in E by lia. lia.
    + rewrite Nat.mod_small in E by lia. lia.
  - lia.
  - rewrite cacheMessage_index, Hidx, Nat.Div0.add_mod_idemp_l.
    f_equal. lia.
Qed.

(** A text of at most 63 bytes stays a duplicate for the whole window,
    through as many as nine records of any texts. *)
Lemma recorded_survives now t0 text c records :
  cache_wf c -> (strlen text <= MSG_BYTES - 1)%nat ->
  (length records < CACHE_SIZE)%nat ->
  usub now t0 < DEDUPE_WINDOW ->
  isDuplicate now (cacheAll records (cacheMessage t0 text c)) text = true.
Proof.
  intros Hwf Hlen Hfew Hwin. apply isDuplicate_true.
  destruct (cacheMessage_written t0 text c Hwf) as (slot & E & Ht & Hs & _).
  exists (cacheIndex c), slot. split; [apply Hwf|]. split.
  - rewrite (cacheAll_keeps records (cacheMessage t0 text c) (cacheIndex c) 0);
      [exact E | apply Hwf | lia |].
    rewrite cacheMessage_index, Nat.add_0_r. reflexivity.
  - split.
    + rewrite Ht. apply take_ge. exact Hlen.
    + rewrite Hs. exact Hwin.
Qed.

(** A run of [loop] records at most one text per pass. *)
Lemma hybridRun_cache libc cfg envs st :
  exists records,
    HybridRelay.cache (hybridRun libc cfg envs st)
    = cacheAll records (HybridRelay.cache st)
    /\ (length records <= length envs)%nat.
Proof.
  induction envs as [|env envs IH] using rev_ind.
  - exists []. split; [reflexivity | cbn; lia].
  - destruct IH as (records & E & Hlen). rewrite hybridRun_snoc, length_app.
    cbn [length].
    destruct (hybrid_loop_effect libc cfg env (hybridRun libc cfg envs st))
      as [(_ & ->) | (_ & _ & [H | [H | H]])].
    + exists records. split; [exact E | lia].
    + destruct H as (_ & -> & _). exists records. split; [exact E | lia].
    + destruct H as (_ & _ & -> & _). exists records. split; [exact E | lia].
    + destruct H as (_ & _ & -> & _).
      exists (records
                ++ [(HybridRelay.millis_cacheMessage env,
                     readPacket (HybridRelay.packet env)
                                (HybridRelay.stack env))]).
      rewrite cacheAll_snoc, E, length_app. cbn [length fst snd].
      split; [reflexivity | lia].
Qed.

Lemma isValidMessage_cstr a b :
  cstr a = cstr b -> isValidMessage a = isValidMessage b.
Proof.
  intros E. apply eq_true_iff_eq. rewrite !isValidMessage_true, E. tauto.
Qed.

Lemma isDuplicate_cstr now c a b :
  cstr a = cstr b -> isDuplicate now c a = isDuplicate now c b.
Proof.
  intros E. apply eq_true_iff_eq. rewrite !isDuplicate_true.
  setoid_rewrite E. tauto.
Qed.

(** X8. A message the relay has forwarded is not forwarded again while its
    record is less than 5000 ms old, when the relay made fewer than ten
    passes in between: the second copy is logged and counted as a duplicate,
    and nothing is handed to a radio. Two packets are copies when they
    agree on their first 63 bytes. *)
Theorem no_second_forward_within_window
    (libc : HybridRelay.CLibrary) (cfg : HybridRelay.Config)
    (st : HybridRelay.State) (first : HybridRelay.Env)
    (between : list HybridRelay.Env) (second : HybridRelay.Env) :
  let text :=
    readPacket (HybridRelay.packet first) (HybridRelay.stack first) in
  cache_wf (HybridRelay.cache st) ->
  length (HybridRelay.stack first) = MSG_BYTES ->
  length (HybridRelay.stack second) = MSG_BYTES ->
  HybridRelay.packet first <> [] ->
  isValidMessage text = true ->
  isDuplicate (HybridRelay.millis_isDuplicate first) (HybridRelay.cache st)
              text = false ->
  take (MSG_BYTES - 1) (HybridRelay.packet second)
  = take (MSG_BYTES - 1) (HybridRelay.packet first) ->
  (length between < CACHE_SIZE)%nat ->
  usub (HybridRelay.millis_isDuplicate second)
       (HybridRelay.millis_cacheMessage first) < DEDUPE_WINDOW ->
  let st1 :=
    hybridRun libc cfg between (HybridRelay.loop libc cfg first st) in
  let st2 := HybridRelay.loop libc cfg second st1 in
  HybridRelay.trace st2
  = HybridRelay.trace st1
      ++ [BlinkRx; Received (cstr text); Log "Duplicate - not forwarding"]
  /\ HybridRelay.cache st2 = HybridRelay.cache st1
  /\ HybridRelay.messagesDuplicate st2
     = uadd (HybridRelay.messagesDuplicate st1) 1.
Proof.
  cbn zeta. intros Hwf Hs1 Hs2 Hp Hv Hd Hsame Hfew Hwin.
  set (text := readPacket (HybridRelay.packet first)
                          (HybridRelay.stack first)) in *.
  set (text2 := readPacket (HybridRelay.packet second)
                           (HybridRelay.stack second)).
  assert (Et : cstr text2 = cstr text).
  { subst text text2. rewrite !readPacket_text by assumption.
    rewrite Hsame. reflexivity. }
  assert (Hp2 : HybridRelay.packet second <> []).
  { pose proof (first_63_nonempty _ _ Hsame) as E.
    rewrite (nonempty_packetSize _ Hp) in E.
    destruct (HybridRelay.packet second); [discriminate E | discriminate]. }
  set (st1 := hybridRun libc cfg between (HybridRelay.loop libc cfg first st)).
  assert (Hdup : isDuplicate (HybridRelay.millis_isDuplicate second)
                             (HybridRelay.cache st1) text2 = true).
  { rewrite (isDuplicate_cstr _ _ _ _ Et). subst st1.
    destruct (hybridRun_cache libc cfg between
                (HybridRelay.loop libc cfg first st)) as (records & -> & Hlen).
    rewrite (hybrid_loop_new libc cfg first st Hp Hv Hd). fold text.
    destruct (hybrid_forwardMessage_effect libc cfg first text
                (HybridRelay.recorded
                   text (HybridRelay.millis_cacheMessage first) st))
      as (-> & _).
    apply recorded_survives; try assumption; [|lia].
    subst text. apply readPacket_strlen. exact Hs1. }
  destruct (hybrid_loop_effect libc cfg second st1)
    as [(E & _) | (_ & _ & [H | [H | H]])].
  - contradiction.
  - destruct H as (H & _). fold text2 in H.
    rewrite (isValidMessage_cstr _ _ Et), Hv in H. discriminate H.
  - destruct H as (_ & _ & Ec & Ed & _ & _ & Etr). fold text2 in Etr.
    rewrite Et in Etr. auto.
  - destruct H as (_ & H & _). fold text2 in H. rewrite Hdup in H.
    discriminate H.
Qed.

Lemma no_second_forward_within_window_witness :
  let first := HybridRelay.mkEnv Samples.fireMessage Samples.someStack
                                 1000 1001 0 true in
  let other := HybridRelay.mkEnv (lit "FIRE,1.000000,2.000000,1.00")
                                 Samples.someStack 2000 2001 0 true in
  let second := HybridRelay.mkEnv Samples.fireMessage Samples.someStack
                                  3000 3001 0 true in
  cache_wf (HybridRelay.cache HybridRelay.initial)
  /\ isValidMessage (readPacket Samples.fireMessage Samples.someStack) = true
  /\ usub 3000 1001 < DEDUPE_WINDOW
  /\ forall libc cfg,
       HybridRelay.messagesDuplicate
         (HybridRelay.loop libc cfg second
            (hybridRun libc cfg [other]
               (HybridRelay.loop libc cfg first HybridRelay.initial)))
       = uadd (HybridRelay.messagesDuplicate
                 (hybridRun libc cfg [other]
                    (HybridRelay.loop libc cfg first HybridRelay.initial))) 1.
Proof.
  cbn zeta.
  assert (Hv : isValidMessage (readPacket Samples.fireMessage Samples.someStack)
               = true) by (vm_compute; reflexivity).
  assert (Hw : usub 3000 1001 < DEDUPE_WINDOW) by (vm_compute; reflexivity).
  split; [exact initialCache_wf|]. split; [exact Hv|]. split; [exact Hw|].
  intros libc cfg.
  refine (proj2 (proj2 (no_second_forward_within_window libc cfg
            HybridRelay.initial
            (HybridRelay.mkEnv Samples.fireMessage Samples.someStack
                               1000 1001 0 true)
            [HybridRelay.mkEnv (lit "FIRE,1.000000,2.000000,1.00")
                               Samples.someStack 2000 2001 0 true]
            (HybridRelay.mkEnv Samples.fireMessage Samples.someStack
                               3000 3001 0 true)
            initialCache_wf eq_refl eq_refl _ Hv _ eq_refl _ Hw))).
  - discriminate.
  - vm_compute. reflexivity.
  - vm_compute. lia.
Defined.

End RelayRunFacts.

(** ** The relay between transmitter and receiver *)

Module RelayLinkFacts.
Import Machine CStr IEEE Relay RelayRuns.
Import MachineFacts CStrFacts IEEEFacts RelayFacts RelayLoopFacts RelayRunFacts.
Import ReceiverFacts.

(** *** A relay just started *)

Lemma slotText_emptySlot : slotText emptySlot = [].
Proof. reflexivity. Qed.

Lemma valid_text_nonempty text : isValidMessage text = true -> cstr text <> [].
Proof.
  intros H E. apply isValidMessage_true in H. rewrite E in H.
  destruct H as [[k H] | [k H]]; discriminate H.
Qed.

(** X9. The slots [setup] clears hold the empty string and time 0. No valid
    text matches them, so a relay that has recorded nothing yet hands every
    valid packet to a radio, also during the first 5000 ms after the clock
    started (or wrapped), when the time of these slots is within the
    window. *)
Theorem fresh_relay_forwards_valid_packet
    (libc : HybridRelay.CLibrary) (cfg : HybridRelay.Config)
    (env : HybridRelay.Env) :
  let text := readPacket (HybridRelay.packet env) (HybridRelay.stack env) in
  HybridRelay.packet env <> [] -> isValidMessage text = true ->
  (forall now, isDuplicate now initialCache text = false)
  /\ List.filter isSend
       (HybridRelay.trace (HybridRelay.loop libc cfg env HybridRelay.initial))
     = [HybridRelay.hybridSend
          cfg env (HybridRelay.distanceToReceiver libc cfg text) text].
Proof.
  cbn zeta. intros Hp Hv.
  assert (Hd : forall now,
             isDuplicate now initialCache
               (readPacket (HybridRelay.packet env) (HybridRelay.stack env))
             = false).
  { intros now. apply isDuplicate_false. intros i slot _ Hslot Htext.
    unfold initialCache in Hslot. cbn [messageCache] in Hslot.
    apply lookup_replicate in Hslot as [-> _].
    rewrite slotText_emptySlot in Htext.
    exfalso. apply (valid_text_nonempty _ Hv). symmetry. exact Htext. }
  split; [exact Hd|].
  destruct (hybrid_loop_effect libc cfg env HybridRelay.initial)
    as [(E & _) | (_ & _ & [H | [H | H]])].
  - contradiction.
  - destruct H as (H & _). rewrite Hv in H. discriminate H.
  - destruct H as (_ & H & _). cbn [HybridRelay.cache HybridRelay.initial] in H.
    rewrite Hd in H. discriminate H.
  - destruct H as (_ & _ & _ & _ & _ & _ & ->).
    cbn [HybridRelay.trace HybridRelay.initial app].
    unfold HybridRelay.hybridSend.
    destruct (F32.ltb _ _); destruct (HybridRelay.hybridSuccess _ _ _);
      reflexivity.
Qed.

Lemma fresh_relay_forwards_valid_packet_witness :
  isValidMessage (readPacket Samples.fireMessage Samples.someStack) = true
  /\ forall now,
       isDuplicate now initialCache
         (readPacket Samples.fireMessage Samples.someStack) = false.
Proof.
  assert (Hv : isValidMessage (readPacket Samples.fireMessage Samples.someStack)
               = true) by (vm_compute; reflexivity).
  split; [exact Hv|].
  refine (proj1 (fresh_relay_forwards_valid_packet
                   (HybridRelay.mkCLibrary Receiver.atof_plain id id
                                           (fun y _ => y) 24 128)
                   HybridRelay.sketchConfig
                   (HybridRelay.mkEnv Samples.fireMessage Samples.someStack
                                      10 11 0 true) _ Hv)).
  discriminate.
Defined.

(** *** What the two transports carry *)

Lemma espNowMessage_copy text :
  HybridRelay.espNowMessage text = strncpy_bytes text (MSG_BYTES - 1) ++ [NUL].
Proof.
  unfold HybridRelay.espNowMessage. apply copy_63. apply length_replicate.
Qed.

Lemma strncpy_bytes_pad n : forall src,
  strncpy_bytes src n
  = take n (cstr src) ++ replicate (n - length (take n (cstr src))) NUL.
Proof.
  induction n as [|n IH]; intros src; [reflexivity|].
  cbn [strncpy_bytes].
  destruct (Ascii.eqb_spec (deref src) NUL) as [E|E].
  - rewrite (deref_NUL_cstr _ E). reflexivity.
  - rewrite (deref_cstr _ E), IH. reflexivity.
Qed.

(** X10. The frame handed to [esp_now_send] is 64 bytes that do not depend on
    what the local structure held before: the text cut at 63 bytes, then
    NUL up to the end. A text read by [loop] has 63 bytes at most, so both
    transports carry the same text: the first 63 bytes of the packet
    received, up to its first NUL. *)
Theorem both_transports_carry_the_received_text
    (cfg : HybridRelay.Config) (env : HybridRelay.Env) (dist : fp)
    (packet stack : list ascii) :
  length stack = MSG_BYTES ->
  let text := readPacket packet stack in
  (forall any,
     let kept := take (MSG_BYTES - 1) (cstr any) in
     HybridRelay.espNowMessage any
     = kept ++ replicate (MSG_BYTES - length kept) NUL
     /\ length (HybridRelay.espNowMessage any) = MSG_BYTES
     /\ cstr (HybridRelay.espNowMessage any) = kept)
  /\ carried (HybridRelay.hybridSend cfg env dist text)
     = cstr (take (MSG_BYTES - 1) packet).
Proof.
  intros Hlen. cbn zeta. split.
  - intros any. split; [|split].
    + rewrite espNowMessage_copy, strncpy_bytes_pad, <- app_assoc. f_equal.
      assert (L : (length (take (MSG_BYTES - 1) (cstr any)) <= MSG_BYTES - 1)%nat)
        by (rewrite length_take; lia).
      replace (MSG_BYTES - length (take (MSG_BYTES - 1) (cstr any)))%nat
        with (S (MSG_BYTES - 1 - length (take (MSG_BYTES - 1) (cstr any))))
        by (unfold MSG_BYTES in *; lia).
      rewrite replicate_S_end. reflexivity.
    + rewrite espNowMessage_copy, length_app, strncpy_bytes_length. reflexivity.
    + rewrite espNowMessage_copy. apply cstr_strncpy_bytes.
  - unfold HybridRelay.hybridSend. destruct (F32.ltb _ _); cbn [carried].
    + rewrite espNowMessage_copy, cstr_strncpy_bytes.
      rewrite take_ge by (apply readPacket_strlen; exact Hlen).
      apply readPacket_text. exact Hlen.
    + apply readPacket_text. exact Hlen.
Qed.

Lemma both_transports_carry_the_received_text_witness :
  length Samples.someStack = MSG_BYTES
  /\ forall cfg env dist,
       carried (HybridRelay.hybridSend cfg env dist
                  (readPacket (Samples.longPacket "a") Samples.someStack))
       = cstr (take (MSG_BYTES - 1) (Samples.longPacket "a")).
Proof.
  split; [reflexivity|]. intros cfg env dist.
  exact (proj2 (both_transports_carry_the_received_text
                  cfg env dist (Samples.longPacket "a") Samples.someStack
                  eq_refl)).
Defined.

(** *** The relay and the receiver on the same text *)

(** X11. The relay and the receiver read the position off a message in the same
    way: the distance the relay computes is the distance between the
    receiver's coordinates and the values after the first and the second
    comma, zero standing for a missing field; for a message the receiver
    recognises these are the latitude and the longitude it displays. *)
Theorem relay_and_receiver_read_the_same_position
    (libc : HybridRelay.CLibrary) (cfg : HybridRelay.Config)
    (text : list ascii) :
  let atof := HybridRelay.atof libc in
  let shown := Receiver.parseMessage atof text in
  HybridRelay.distanceToReceiver libc cfg text
  = HybridRelay.calculateDistance libc
      (Receiver.fieldValue atof 1 text) (Receiver.fieldValue atof 2 text)
      (HybridRelay.RECEIVER_LAT cfg) (HybridRelay.RECEIVER_LNG cfg)
  /\ (Receiver.p_type shown <> Receiver.NONE ->
      HybridRelay.distanceToReceiver libc cfg text
      = HybridRelay.calculateDistance libc
          (Receiver.p_lat shown) (Receiver.p_lng shown)
          (HybridRelay.RECEIVER_LAT cfg) (HybridRelay.RECEIVER_LNG cfg)).
Proof.
  cbn zeta.
  assert (E : HybridRelay.distanceToReceiver libc cfg text
              = HybridRelay.calculateDistance libc
                  (Receiver.fieldValue (HybridRelay.atof libc) 1 text)
                  (Receiver.fieldValue (HybridRelay.atof libc) 2 text)
                  (HybridRelay.RECEIVER_LAT cfg) (HybridRelay.RECEIVER_LNG cfg)).
  { unfold HybridRelay.distanceToReceiver, Receiver.fieldValue.
    cbn [Receiver.field]. unfold Receiver.comma, Receiver.atof_float.
    destruct (strchr text ",") as [p|]; [|reflexivity].
    destruct (strchr (incr p) ",") as [q|]; reflexivity. }
  split; [exact E|]. intros Hkind.
  destruct (parseMessage_fields (HybridRelay.atof libc) text)
    as [(Hnone & _) | (_ & -> & -> & _)]; [contradiction | exact E].
Qed.

Lemma relay_and_receiver_read_the_same_position_witness :
  let libc :=
    HybridRelay.mkCLibrary Receiver.atof_plain (fun x => x)
                           (fun _ => F32.of_int 1) (fun y _ => y) 24 128 in
  let shown := Receiver.parseMessage Receiver.atof_plain Samples.fireMessage in
  Receiver.p_type shown <> Receiver.NONE
  /\ HybridRelay.distanceToReceiver libc HybridRelay.sketchConfig
       Samples.fireMessage
     = HybridRelay.calculateDistance libc
         (Receiver.p_lat shown) (Receiver.p_lng shown)
         (HybridRelay.RECEIVER_LAT HybridRelay.sketchConfig)
         (HybridRelay.RECEIVER_LNG HybridRelay.sketchConfig).
Proof.
  cbn zeta.
  assert (K : Receiver.p_type
                (Receiver.parseMessage Receiver.atof_plain Samples.fireMessage)
              <> Receiver.NONE) by (vm_compute; discriminate).
  split; [exact K|].
  exact (proj2 (relay_and_receiver_read_the_same_position
                  (HybridRelay.mkCLibrary Receiver.atof_plain (fun x => x)
                                          (fun _ => F32.of_int 1)
                                          (fun y _ => y) 24 128)
                  HybridRelay.sketchConfig Samples.fireMessage) K).
Defined.

(** X12. Of the texts the relay accepts, the receiver recognises those that
    start with FIRE, as fire alerts, and no other: a text that starts with
    EARTHQUAKE passes the relay and is ignored by the receiver. *)
Theorem relayed_text_is_FIRE_or_ignored
    (atof : list ascii -> fp) (text : list ascii) :
  isValidMessage text = true ->
  (lit "FIRE" `prefix_of` cstr text
   /\ Receiver.p_type (Receiver.parseMessage atof text) = Receiver.FIRE)
  \/ (lit "EARTHQUAKE" `prefix_of` cstr text
      /\ Receiver.parseMessage atof text
         = Receiver.mkParsed Receiver.NONE F32.zero F32.zero F32.zero).
Proof.
  intros Hv. apply isValidMessage_true in Hv.
  destruct (parseMessage_type atof text) as (HF & _ & Hback).
  destruct Hv as [H | H]; [left; split; [exact H | exact (HF H)]|].
  right. split; [exact H|].
  destruct (parseMessage_fields atof text) as [(Ht & Hla & Hln & Hex) | (Ht & _)].
  - destruct (Receiver.parseMessage atof text) as [ty la ln ex].
    cbn in Ht, Hla, Hln, Hex. subst. reflexivity.
  - exfalso. destruct H as [k Hk].
    destruct (Hback Ht) as [[k' Hk'] | [k' Hk']]; rewrite Hk in Hk';
      discriminate Hk'.
Qed.

Lemma relayed_text_is_FIRE_or_ignored_witness :
  isValidMessage (lit "EARTHQUAKE,30.768885,76.575210,0.15") = true
  /\ Receiver.parseMessage Receiver.atof_plain
       (lit "EARTHQUAKE,30.768885,76.575210,0.15")
     = Receiver.mkParsed Receiver.NONE F32.zero F32.zero F32.zero.
Proof.
  assert (Hv : isValidMessage (lit "EARTHQUAKE,30.768885,76.575210,0.15")
               = true) by reflexivity.
  split; [exact Hv|].
  destruct (relayed_text_is_FIRE_or_ignored
              Receiver.atof_plain
              (lit "EARTHQUAKE,30.768885,76.575210,0.15") Hv)
    as [([k Hk] & _) | (_ & H)]; [discriminate Hk | exact H].
Defined.

End RelayLinkFacts.

(** ** The receiver *)

Module ReceiverLoopFacts.
Import Machine CStr IEEE Receiver ReceiverLoop.
Import MachineFacts CStrFacts.

(** *** The buzzer *)

Lemma pinLevel_snoc l tr e :
  pinLevel l (tr ++ [e])
  = match e with BuzzerPin l' => l' | _ => pinLevel l tr end.
Proof. unfold pinLevel. rewrite fold_left_app. reflexivity. Qed.

Lemma pinWrites_snoc level tr e :
  pinWrites level (tr ++ [e])
  = pinWrites level tr + (if isPin level e then 1 else 0).
Proof.
  unfold pinWrites. rewrite List.filter_app, length_app. cbn [List.filter].
  destruct (isPin level e); cbn [length]; lia.
Qed.

(** One call of [updateBuzzer] on an active pattern with beeps left. *)
Lemma updateBuzzer_effect now st :
  active (buzzer st) = true -> 1 <= beepsRemaining (buzzer st) <= 255 ->
  let b := buzzer st in
  updateBuzzer now st
  = if now >=? nextToggle b then
      if isHigh b then
        if beepsRemaining b =? 1 then
          mkState (mkBuzzer false false 0 (beepDuration b) (nextToggle b))
                  (lastAlertTime st) (alertDisplayed st) (displayReady st)
                  (out st ++ [BuzzerPin LOW; BuzzerPin LOW])
        else
          mkState (mkBuzzer true false (beepsRemaining b - 1) (beepDuration b)
                            (uadd now 120))
                  (lastAlertTime st) (alertDisplayed st) (displayReady st)
                  (out st ++ [BuzzerPin LOW])
      else
        mkState (mkBuzzer true true (beepsRemaining b) (beepDuration b)
                          (uadd now (beepDuration b)))
                (lastAlertTime st) (alertDisplayed st) (displayReady st)
                (out st ++ [BuzzerPin HIGH])
    else st.
Proof.
  intros Hact Hrem. cbn zeta. unfold updateBuzzer. cbn zeta.
  rewrite Hact. cbn [negb].
  destruct (now >=? nextToggle (buzzer st)); [|reflexivity].
  destruct (isHigh (buzzer st)); cbn [negb].
  - rewrite (Z.mod_small (beepsRemaining (buzzer st) - 1) 256) by lia.
    destruct (Z.eqb_spec (beepsRemaining (buzzer st)) 1) as [E|E].
    + rewrite E. change (1 - 1 =? 0) with true.
      unfold emit, set_buzzer.
      cbn [buzzer lastAlertTime alertDisplayed displayReady out].
      rewrite <- app_assoc. reflexivity.
    + destruct (Z.eqb_spec (beepsRemaining (buzzer st) - 1) 0) as [E0|E0];
        [lia|]. reflexivity.
  - reflexivity.
Qed.

Lemma updateBuzzer_inactive now st :
  active (buzzer st) = false -> updateBuzzer now st = st.
Proof. intros H. unfold updateBuzzer. cbn zeta. rewrite H. reflexivity. Qed.

Lemma pattern_updateBuzzer n highs lows now st :
  n <= 255 -> pattern n highs lows st ->
  pattern n highs lows (updateBuzzer now st).
Proof.
  intros Hn H. unfold pattern in H. cbn zeta in H.
  destruct (active (buzzer st)) eqn:Hact.
  - destruct H as (Hrem & Hh & Hl).
    rewrite (updateBuzzer_effect now st Hact
               ltac:(destruct (isHigh (buzzer st)); lia)). cbn zeta.
    destruct (now >=? nextToggle (buzzer st));
      [|unfold pattern; cbn zeta; rewrite Hact; auto].
    destruct (isHigh (buzzer st)).
    + destruct (Z.eqb_spec (beepsRemaining (buzzer st)) 1) as [E|E];
        unfold pattern; cbn [buzzer active isHigh beepsRemaining out].
      * change (out st ++ [BuzzerPin LOW; BuzzerPin LOW])
          with (out st ++ [BuzzerPin LOW] ++ [BuzzerPin LOW]).
        rewrite app_assoc, !pinWrites_snoc, pinLevel_snoc.
        cbn [isPin Bool.eqb HIGH LOW]. repeat split; lia.
      * rewrite !pinWrites_snoc. cbn [isPin Bool.eqb HIGH LOW].
        repeat split; lia.
    + unfold pattern; cbn [buzzer active isHigh beepsRemaining out].
      rewrite !pinWrites_snoc. cbn [isPin Bool.eqb HIGH LOW].
      repeat split; lia.
  - rewrite (updateBuzzer_inactive now st Hact).
    unfold pattern. cbn zeta. rewrite Hact. exact H.
Qed.

Lemma pattern_startBuzzer type now st :
  pattern (beepsOf type) (pinWrites HIGH (out st)) (pinWrites LOW (out st))
          (startBuzzer type now st).
Proof.
  unfold pattern, startBuzzer. cbn zeta.
  cbn [buzzer active isHigh beepsRemaining out emit set_buzzer].
  rewrite !pinWrites_snoc. cbn [isPin Bool.eqb HIGH LOW].
  destruct type; cbn [beepsOf]; repeat split; lia.
Qed.

Lemma beepsOf_bounds type : 3 <= beepsOf type <= 5.
Proof. destruct type; cbn; lia. Qed.

(** X13. The pattern of an alert, however [updateBuzzer] is polled afterwards:
    the buzzer pin is driven high 5 times for a fire alert and 3 times for
    another one, never more; while the pattern is active the beeps left
    and the beeps begun add up to that number; once it is over the pin
    has been driven low once more than high and is left low. *)
Theorem buzzer_beeps_per_alert
    (type : AlertType) (t0 : Z) (nows : list Z) (st : State) :
  let n := beepsOf type in
  let st' := updates nows (startBuzzer type t0 st) in
  let highs := pinWrites HIGH (out st') - pinWrites HIGH (out st) in
  let lows := pinWrites LOW (out st') - pinWrites LOW (out st) in
  1 <= highs <= n
  /\ (active (buzzer st') = true ->
      1 <= beepsRemaining (buzzer st') <= n
      /\ highs + beepsRemaining (buzzer st')
         = n + (if isHigh (buzzer st') then 1 else 0)
      /\ lows = highs - (if isHigh (buzzer st') then 1 else 0))
  /\ (active (buzzer st') = false ->
      highs = n /\ lows = n + 1 /\ pinLevel LOW (out st') = LOW).
Proof.
  cbn zeta.
  assert (P : pattern (beepsOf type) (pinWrites HIGH (out st))
                      (pinWrites LOW (out st))
                      (updates nows (startBuzzer type t0 st))).
  { unfold updates.
    generalize (pattern_startBuzzer type t0 st).
    generalize (startBuzzer type t0 st) as s.
    induction nows as [|now nows IH]; intros s Hs; [exact Hs|].
    cbn [fold_left]. apply IH, pattern_updateBuzzer; [|exact Hs].
    pose proof (beepsOf_bounds type). lia. }
  pose proof (beepsOf_bounds type) as Hn.
  unfold pattern in P. cbn zeta in P.
  set (st' := updates nows (startBuzzer type t0 st)) in *.
  destruct (active (buzzer st')).
  - destruct P as (Hrem & Hh & Hl).
    destruct (isHigh (buzzer st')).
    + split; [lia|]. split; [|discriminate]. intros _. repeat split; lia.
    + split; [lia|]. split; [|discriminate]. intros _. repeat split; lia.
  - destruct P as (Hh & Hl & Hp).
    split; [lia|]. split; [discriminate|]. intros _.
    split; [lia|]. split; [lia | exact Hp].
Qed.

Lemma buzzer_beeps_per_alert_witness :
  let st := mkState initialBuzzer 0 false true [BuzzerPin LOW] in
  let st' := updates [1100; 1150; 1200; 1270; 1400; 1420; 1600; 1700; 1800;
                      1900; 2000; 2100; 2200; 2400; 2600]
                     (startBuzzer FIRE 1000 st) in
  active (buzzer st') = false
  /\ pinWrites HIGH (out st') - pinWrites HIGH (out st) = 5
  /\ pinWrites LOW (out st') - pinWrites LOW (out st) = 6.
Proof.
  cbn zeta.
  assert (A : active (buzzer (updates [1100; 1150; 1200; 1270; 1400; 1420;
                                       1600; 1700; 1800; 1900; 2000; 2100;
                                       2200; 2400; 2600]
                                (startBuzzer FIRE 1000
                                   (mkState initialBuzzer 0 false true
                                            [BuzzerPin LOW]))))
              = false) by (vm_compute; reflexivity).
  split; [exact A|].
  destruct (proj2 (proj2 (buzzer_beeps_per_alert FIRE 1000
                            [1100; 1150; 1200; 1270; 1400; 1420; 1600; 1700;
                             1800; 1900; 2000; 2100; 2200; 2400; 2600]
                            (mkState initialBuzzer 0 false true
                                     [BuzzerPin LOW]))) A) as (H1 & H2 & _).
  split; [exact H1 | exact H2].
Defined.

Lemma updates_inactive nows : forall st,
  active (buzzer st) = false -> updates nows st = st.
Proof.
  induction nows as [|now nows IH]; intros st H; [reflexivity|].
  unfold updates in *. cbn [fold_left].
  rewrite (updateBuzzer_inactive now st H). apply IH, H.
Qed.

Lemma pattern_runs_out nows : forall prev st,
  0 <= prev -> spaced prev nows ->
  active (buzzer st) = true ->
  nextToggle (buzzer st) <= prev + 300 ->
  0 <= beepDuration (buzzer st) <= 300 ->
  1 <= beepsRemaining (buzzer st) <= 255 ->
  2 * beepsRemaining (buzzer st) - (if isHigh (buzzer st) then 1 else 0)
  <= Z.of_nat (length nows) ->
  active (buzzer (updates nows st)) = false.
Proof.
  induction nows as [|now nows IH]; intros prev st Hprev Hsp Hact Hnext Hdur
                                           Hrem Hlen.
  - cbn [length] in Hlen. destruct (isHigh (buzzer st)); lia.
  - destruct Hsp as (Hnow & Hsp). cbn [length] in Hlen.
    change (updates (now :: nows) st) with (updates nows (updateBuzzer now st)).
    rewrite (updateBuzzer_effect now st Hact Hrem). cbn zeta.
    destruct (Z.geb_spec now (nextToggle (buzzer st))) as [_|L]; [|lia].
    assert (U : forall d, 0 <= d <= 300 -> uadd now d = now + d).
    { intros d Hd. unfold uadd, ulong. apply Z.mod_small.
      unfold ULONG_MODULUS in *. lia. }
    destruct (isHigh (buzzer st)).
    + destruct (Z.eqb_spec (beepsRemaining (buzzer st)) 1) as [E|E].
      * rewrite updates_inactive; reflexivity.
      * apply (IH now); cbn [buzzer active isHigh beepsRemaining beepDuration
                             nextToggle]; try assumption; try lia.
        rewrite U; lia.
    + apply (IH now); cbn [buzzer active isHigh beepsRemaining beepDuration
                           nextToggle]; try assumption; try lia.
      rewrite U; lia.
Qed.

(** X14. A pattern comes to its end: polled at readings 300 ms apart or more,
    [updateBuzzer] toggles the pin at every call, and after 2 n - 1 calls, n
    being the number of beeps of the alert, the pattern is over. *)
Theorem buzzer_pattern_ends
    (type : AlertType) (t0 : Z) (nows : list Z) (st : State) :
  0 <= t0 -> spaced t0 nows ->
  2 * beepsOf type - 1 <= Z.of_nat (length nows) ->
  active (buzzer (updates nows (startBuzzer type t0 st))) = false.
Proof.
  intros Ht0 Hsp Hlen.
  destruct nows as [|now nows];
    [pose proof (beepsOf_bounds type); cbn [length] in Hlen; lia|].
  assert (Hnow : t0 + 300 <= now < ULONG_MODULUS - 300) by apply Hsp.
  apply (pattern_runs_out (now :: nows) t0); try assumption;
    unfold startBuzzer; cbn zeta;
    cbn [buzzer emit set_buzzer active isHigh beepsRemaining beepDuration
         nextToggle].
  - reflexivity.
  - assert (D : 0 <= match type with FIRE => 150 | _ => 300 end <= 300)
      by (destruct type; lia).
    unfold uadd, ulong. rewrite Z.mod_small; unfold ULONG_MODULUS in *; lia.
  - destruct type; lia.
  - destruct type; lia.
Qed.

Lemma buzzer_pattern_ends_witness :
  spaced 1000 [1300; 1600; 1900; 2200; 2500]
  /\ active (buzzer (updates [1300; 1600; 1900; 2200; 2500]
                       (startBuzzer QUAKE 1000
                          (mkState initialBuzzer 0 false true []))))
     = false.
Proof.
  assert (S : spaced 1000 [1300; 1600; 1900; 2200; 2500])
    by (cbn; unfold ULONG_MODULUS; lia).
  split; [exact S|].
  apply (buzzer_pattern_ends QUAKE 1000 [1300; 1600; 1900; 2200; 2500]);
    [lia | exact S | cbn; lia].
Defined.

(** *** The buzzer through [loop] *)

Lemma pinLevel_app l tr1 tr2 :
  pinLevel l (tr1 ++ tr2) = pinLevel (pinLevel l tr1) tr2.
Proof. unfold pinLevel. apply fold_left_app. Qed.

Lemma updateBuzzer_wf now st : buzzer_wf st -> buzzer_wf (updateBuzzer now st).
Proof.
  intros (Hpin & Hrem).
  destruct (active (buzzer st)) eqn:Hact.
  - specialize (Hrem eq_refl).
    rewrite (updateBuzzer_effect now st Hact ltac:(lia)). cbn zeta.
    destruct (now >=? nextToggle (buzzer st));
      [|split; [rewrite Hact; exact Hpin | intros _; exact Hrem]].
    destruct (isHigh (buzzer st)).
    + destruct (Z.eqb_spec (beepsRemaining (buzzer st)) 1) as [E|E];
        split; cbn [buzzer active isHigh beepsRemaining out];
        rewrite ?pinLevel_app; try reflexivity; try discriminate.
      intros _. lia.
    + split; cbn [buzzer active isHigh beepsRemaining out];
        rewrite ?pinLevel_app; [reflexivity | intros _; exact Hrem].
  - rewrite (updateBuzzer_inactive now st Hact).
    split; [rewrite Hact; exact Hpin | rewrite Hact; discriminate].
Qed.

Lemma buzzer_wf_frame st st' :
  buzzer st' = buzzer st ->
  pinLevel LOW (out st') = pinLevel LOW (out st) ->
  buzzer_wf st -> buzzer_wf st'.
Proof. unfold buzzer_wf. intros -> ->. auto. Qed.

Lemma showListeningScreen_wf st :
  buzzer_wf st -> buzzer_wf (showListeningScreen st).
Proof.
  apply buzzer_wf_frame; unfold showListeningScreen;
    destruct (negb (displayReady st)); try reflexivity.
  cbn [out emit]. apply pinLevel_snoc.
Qed.

Lemma startBuzzer_wf type now st : buzzer_wf (startBuzzer type now st).
Proof.
  unfold startBuzzer, buzzer_wf. cbn zeta.
  cbn [buzzer emit set_buzzer out active isHigh beepsRemaining].
  rewrite pinLevel_snoc. split; [reflexivity|]. intros _. destruct type; lia.
Qed.

Section Sketch.

Variable atof : list ascii -> fp.

Lemma loop_wf env st : buzzer_wf st -> buzzer_wf (loop atof env st).
Proof.
  intros Hwf. unfold loop. cbn zeta.
  set (st1 := updateBuzzer (millis_updateBuzzer env) st).
  assert (H1 : buzzer_wf st1) by (apply updateBuzzer_wf, Hwf).
  set (st2 := if alertDisplayed st1 && _ then _ else st1).
  assert (H2 : buzzer_wf st2).
  { subst st2. destruct (alertDisplayed st1 && _); [|exact H1].
    apply (buzzer_wf_frame (showListeningScreen st1)); try reflexivity.
    apply showListeningScreen_wf, H1. }
  destruct (Z.of_nat (length (packet env)) >? 0); [|exact H2].
  destruct (p_type (parseMessage atof (readPacket (packet env)))) eqn:Ht;
    [exact H2 | |];
    match goal with
    | |- buzzer_wf (set_alertDisplayed _ (set_lastAlertTime _ ?s)) =>
        apply (buzzer_wf_frame s); [reflexivity | reflexivity |]
    end; apply startBuzzer_wf.
Qed.

Lemma receiver_run_snoc envs env st :
  run atof (envs ++ [env]) st = loop atof env (run atof envs st).
Proof. unfold run. rewrite fold_left_app. reflexivity. Qed.

End Sketch.

(** X15. From [setup] on and whatever arrives, also a new alert in the middle
    of a pattern, the buzzer pin is high exactly in the high phase of an
    active pattern: it is low whenever no pattern is active. The counter
    of beeps of an active pattern is between 1 and 5, so its decrement
    never wraps below zero. *)
Theorem buzzer_silent_when_idle
    (atof : list ascii -> fp) (oled_3C oled_3D : bool) (st0 : State)
    (envs : list Env) :
  setup oled_3C oled_3D true = Some st0 ->
  let st := run atof envs st0 in
  pinLevel LOW (out st) = active (buzzer st) && isHigh (buzzer st)
  /\ (active (buzzer st) = true -> 1 <= beepsRemaining (buzzer st) <= 5)
  /\ (active (buzzer st) = false -> pinLevel LOW (out st) = LOW).
Proof.
  intros Hsetup. cbn zeta.
  assert (W : buzzer_wf (run atof envs st0)).
  { induction envs as [|env envs IH] using rev_ind.
    - destruct oled_3C, oled_3D; injection Hsetup as <-;
        (split; [reflexivity | discriminate]).
    - rewrite receiver_run_snoc. apply loop_wf, IH. }
  destruct W as (Hpin & Hrem). split; [exact Hpin|]. split; [exact Hrem|].
  intros Hact. rewrite Hpin, Hact. reflexivity.
Qed.

Lemma buzzer_silent_when_idle_witness :
  setup true false true
  = Some (mkState initialBuzzer 0 false true
                  [Screen listeningScreen; BuzzerPin LOW])
  /\ pinLevel LOW
       (out (run atof_plain
               [mkEnv 0 0 Samples.fireMessage 1000 1000;
                mkEnv 1150 1150 [] 0 0;
                mkEnv 1270 1270 Samples.quakeMessage 1280 1280]
               (mkState initialBuzzer 0 false true
                        [Screen listeningScreen; BuzzerPin LOW])))
     = HIGH.
Proof.
  assert (S : setup true false true
              = Some (mkState initialBuzzer 0 false true
                              [Screen listeningScreen; BuzzerPin LOW]))
    by reflexivity.
  split; [exact S|].
  rewrite (proj1 (buzzer_silent_when_idle atof_plain true false _
                    [mkEnv 0 0 Samples.fireMessage 1000 1000;
                     mkEnv 1150 1150 [] 0 0;
                     mkEnv 1270 1270 Samples.quakeMessage 1280 1280] S)).
  vm_compute. reflexivity.
Defined.

End ReceiverLoopFacts.

(** ** The display of the receiver *)

Module ReceiverDisplayFacts.
Import Machine CStr IEEE Receiver ReceiverLoop.
Import MachineFacts CStrFacts ReceiverLoopFacts.

(** [updateBuzzer] writes the buzzer and its pin only. *)
Lemma updateBuzzer_frame now st :
  lastAlertTime (updateBuzzer now st) = lastAlertTime st
  /\ alertDisplayed (updateBuzzer now st) = alertDisplayed st
  /\ displayReady (updateBuzzer now st) = displayReady st
  /\ List.filter isScreen (out (updateBuzzer now st))
     = List.filter isScreen (out st).
Proof.
  unfold updateBuzzer. cbn zeta.
  destruct (negb (active (buzzer st))); [auto|].
  destruct (now >=? nextToggle (buzzer st)); [|auto].
  destruct (isHigh (buzzer st)); cbn [negb]; [destruct (_ =? 0)|];
    cbn [lastAlertTime alertDisplayed displayReady out emit set_buzzer];
    rewrite ?List.filter_app; cbn [List.filter isScreen];
    rewrite ?app_nil_r; auto.
Qed.

Section Sketch.

Variable atof : list ascii -> fp.

(** A pass of [loop] that finds no alert. *)
Lemma loop_unrecognised env st :
  recognised atof env = false ->
  let over := alertDisplayed st && expired (lastAlertTime st) env in
  lastAlertTime (loop atof env st) = lastAlertTime st
  /\ displayReady (loop atof env st) = displayReady st
  /\ alertDisplayed (loop atof env st) = alertDisplayed st && negb over
  /\ List.filter isScreen (out (loop atof env st))
     = List.filter isScreen (out st)
         ++ (if over && displayReady st then [Screen listeningScreen] else []).
Proof.
  intros Hrec. cbn zeta. unfold loop. cbn zeta.
  destruct (updateBuzzer_frame (millis_updateBuzzer env) st)
    as (E1 & E2 & E3 & E4).
  set (st1 := updateBuzzer (millis_updateBuzzer env) st) in *.
  unfold recognised in Hrec.
  match goal with
  | |- context [lastAlertTime ?big] =>
      replace big with
        (if alertDisplayed st1
            && (usub (millis_timeout env) (lastAlertTime st1) >? DISPLAY_TIMEOUT)
         then set_alertDisplayed false (showListeningScreen st1)
         else st1)
  end.
  2:{ symmetry.
      destruct (Z.of_nat (length (packet env)) >? 0); [|reflexivity].
      destruct (p_type (parseMessage atof (readPacket (packet env))));
        [reflexivity | discriminate Hrec | discriminate Hrec]. }
  rewrite E1, E2. unfold expired.
  destruct (alertDisplayed st); cbn [andb];
    [|rewrite app_nil_r; rewrite E1, E2, E3, E4; auto].
  destruct (usub (millis_timeout env) (lastAlertTime st) >? DISPLAY_TIMEOUT);
    cbn [andb negb];
    [|rewrite app_nil_r; rewrite E1, E2, E3, E4; auto].
  unfold showListeningScreen. rewrite E3.
  destruct (displayReady st);
    cbn [negb lastAlertTime alertDisplayed displayReady out emit
         set_alertDisplayed];
    rewrite ?List.filter_app, ?app_nil_r, E1, ?E3, E4; auto.
Qed.

End Sketch.

(** X16. While no alert arrives, the alert on display stays until a pass of
    [loop] finds it more than 15000 ms old, in [unsigned long] arithmetic;
    that pass draws the listening screen, once, and no later pass draws
    anything. Without a display nothing is drawn and the flag is cleared
    all the same. *)
Theorem alert_screen_times_out_once
    (atof : list ascii -> fp) (envs : list Env) (st : State) :
  Forall (fun env => recognised atof env = false) envs ->
  let st' := run atof envs st in
  let over := alertDisplayed st && existsb (expired (lastAlertTime st)) envs in
  lastAlertTime st' = lastAlertTime st
  /\ alertDisplayed st' = alertDisplayed st && negb over
  /\ List.filter isScreen (out st')
     = List.filter isScreen (out st)
         ++ (if over && displayReady st then [Screen listeningScreen] else []).
Proof.
  cbn zeta. revert st.
  induction envs as [|env envs IH]; intros st Hall.
  - cbn [run fold_left existsb]. rewrite andb_false_r, andb_true_r.
    cbn [andb]. rewrite app_nil_r. auto.
  - apply Forall_cons in Hall as [Hrec Hall].
    change (run atof (env :: envs) st) with (run atof envs (loop atof env st)).
    destruct (IH (loop atof env st) Hall) as (E1 & E2 & E3).
    destruct (loop_unrecognised atof env st Hrec) as (L1 & L2 & L3 & L4).
    cbn zeta in L3, L4.
    rewrite E1, E2, E3, L1, L2, L3, L4. cbn [existsb].
    split; [reflexivity|].
    destruct (alertDisplayed st); cbn [andb negb];
      [|rewrite !app_nil_r; auto].
    destruct (expired (lastAlertTime st) env); cbn [andb negb orb].
    + rewrite app_nil_r. auto.
    + rewrite app_nil_r. auto.
Qed.

Lemma alert_screen_times_out_once_witness :
  let shown := mkState initialBuzzer 20000 true true [] in
  let envs := [mkEnv 0 30000 [] 0 0; mkEnv 0 35001 [] 0 0;
               mkEnv 0 36000 (lit "SMOKE,1,2,3") 0 0] in
  Forall (fun env => recognised atof_plain env = false) envs
  /\ List.filter isScreen (out (run atof_plain envs shown))
     = [Screen listeningScreen]
  /\ alertDisplayed (run atof_plain envs shown) = false.
Proof.
  cbn zeta.
  assert (F : Forall (fun env => recognised atof_plain env = false)
                [mkEnv 0 30000 [] 0 0; mkEnv 0 35001 [] 0 0;
                 mkEnv 0 36000 (lit "SMOKE,1,2,3") 0 0])
    by (repeat constructor).
  split; [exact F|].
  destruct (alert_screen_times_out_once atof_plain _
              (mkState initialBuzzer 20000 true true []) F) as (_ & E2 & E3).
  split; [rewrite E3 | rewrite E2]; vm_compute; reflexivity.
Defined.

(** *** A receiver without display *)

Lemma withoutDisplay_emit e st :
  withoutDisplay (emit e st)
  = if isScreen e then withoutDisplay st else emit e (withoutDisplay st).
Proof.
  unfold withoutDisplay, emit.
  cbn [buzzer lastAlertTime alertDisplayed displayReady out].
  rewrite List.filter_app. cbn [List.filter].
  destruct (isScreen e); cbn [negb]; rewrite ?app_nil_r; reflexivity.
Qed.

Lemma withoutDisplay_updateBuzzer now st :
  withoutDisplay (updateBuzzer now st) = updateBuzzer now (withoutDisplay st).
Proof.
  unfold updateBuzzer. cbn zeta.
  change (buzzer (withoutDisplay st)) with (buzzer st).
  destruct (negb (active (buzzer st))); [reflexivity|].
  destruct (now >=? nextToggle (buzzer st)); [|reflexivity].
  destruct (isHigh (buzzer st)); cbn [negb]; [destruct (_ =? 0)|];
    unfold withoutDisplay, emit, set_buzzer;
    cbn [buzzer lastAlertTime alertDisplayed displayReady out];
    rewrite ?List.filter_app; reflexivity.
Qed.

Lemma withoutDisplay_loop atof env st :
  withoutDisplay (loop atof env st) = loop atof env (withoutDisplay st).
Proof.
  unfold loop. cbn zeta.
  rewrite <- (withoutDisplay_updateBuzzer (millis_updateBuzzer env) st).
  set (st1 := updateBuzzer (millis_updateBuzzer env) st).
  change (alertDisplayed (withoutDisplay st1)) with (alertDisplayed st1).
  change (lastAlertTime (withoutDisplay st1)) with (lastAlertTime st1).
  set (st2 := if alertDisplayed st1 && _ then _ else st1).
  assert (E2 : (if alertDisplayed st1
                   && (usub (millis_timeout env) (lastAlertTime st1)
                       >? DISPLAY_TIMEOUT)
                then set_alertDisplayed false
                       (showListeningScreen (withoutDisplay st1))
                else withoutDisplay st1) = withoutDisplay st2).
  { subst st2. destruct (alertDisplayed st1 && _); [|reflexivity].
    unfold showListeningScreen.
    change (displayReady (withoutDisplay st1)) with false. cbn [negb].
    destruct (negb (displayReady st1)); [reflexivity|].
    unfold withoutDisplay, set_alertDisplayed, emit.
    cbn [buzzer lastAlertTime alertDisplayed displayReady out].
    rewrite List.filter_app. cbn. rewrite app_nil_r. reflexivity. }
  rewrite E2.
  destruct (Z.of_nat (length (packet env)) >? 0); [|reflexivity].
  destruct (p_type (parseMessage atof (readPacket (packet env))));
    [reflexivity | |];
    unfold displayAlert, startBuzzer; cbn zeta;
    change (displayReady (emit ?e (withoutDisplay st2))) with false;
    cbn [negb displayReady emit];
    destruct (negb (displayReady st2));
    unfold withoutDisplay, set_alertDisplayed, set_lastAlertTime, emit,
      set_buzzer;
    cbn [buzzer lastAlertTime alertDisplayed displayReady out];
    rewrite ?List.filter_app; cbn [List.filter isScreen negb];
    rewrite ?app_nil_r; reflexivity.
Qed.

(** X17. The display is an output only: a receiver whose display did not
    answer goes through the same states as one with a display, sounds the
    buzzer and logs the alerts alike, and draws nothing. *)
Theorem receiver_works_without_display
    (atof : list ascii -> fp) (envs : list Env) (st : State) :
  withoutDisplay (run atof envs st) = run atof envs (withoutDisplay st)
  /\ (displayReady st = false ->
      List.filter isScreen (out (run atof envs st))
      = List.filter isScreen (out st)).
Proof.
  assert (C : forall envs st,
            withoutDisplay (run atof envs st)
            = run atof envs (withoutDisplay st)).
  { clear. intros envs. induction envs as [|env envs IH]; intros st;
      [reflexivity|].
    change (run atof (env :: envs) st) with (run atof envs (loop atof env st)).
    rewrite IH, withoutDisplay_loop. reflexivity. }
  split; [apply C|]. intros Hno. revert st Hno.
  induction envs as [|env envs IH]; intros st Hno; [reflexivity|].
  change (run atof (env :: envs) st) with (run atof envs (loop atof env st)).
  assert (L : displayReady (loop atof env st) = false
              /\ List.filter isScreen (out (loop atof env st))
                 = List.filter isScreen (out st)).
  { unfold loop. cbn zeta.
    destruct (updateBuzzer_frame (millis_updateBuzzer env) st)
      as (_ & _ & E3 & E4).
    set (st1 := updateBuzzer (millis_updateBuzzer env) st) in *.
    rewrite Hno in E3.
    set (st2 := if alertDisplayed st1 && _ then _ else st1).
    assert (E : displayReady st2 = false
                /\ List.filter isScreen (out st2)
                   = List.filter isScreen (out st)).
    { subst st2. destruct (alertDisplayed st1 && _); [|auto].
      unfold showListeningScreen. rewrite E3. cbn. auto. }
    destruct E as (Ed & Eo).
    destruct (Z.of_nat (length (packet env)) >? 0); [|auto].
    destruct (p_type (parseMessage atof (readPacket (packet env)))); [auto| |];
      unfold displayAlert, startBuzzer; cbn zeta;
      cbn [negb displayReady emit]; rewrite Ed;
      cbn [negb displayReady out emit set_alertDisplayed set_lastAlertTime
           set_buzzer];
      rewrite ?List.filter_app; cbn [List.filter isScreen];
      rewrite ?app_nil_r; auto. }
  destruct L as (Ld & Lo). rewrite (IH _ Ld). exact Lo.
Qed.

Lemma receiver_works_without_display_witness :
  displayReady (mkState initialBuzzer 0 false false []) = false
  /\ List.filter isScreen
       (out (run atof_plain [mkEnv 0 0 Samples.fireMessage 1000 1000]
                 (mkState initialBuzzer 0 false false [])))
     = []
  /\ List.filter (isPin HIGH)
       (out (run atof_plain [mkEnv 0 0 Samples.fireMessage 1000 1000]
                 (mkState initialBuzzer 0 false false [])))
     = [BuzzerPin HIGH].
Proof.
  split; [reflexivity|]. split.
  - exact (proj2 (receiver_works_without_display atof_plain
                    [mkEnv 0 0 Samples.fireMessage 1000 1000]
                    (mkState initialBuzzer 0 false false [])) eq_refl).
  - vm_compute. reflexivity.
Defined.

(** *** The receive buffer *)

Lemma receiver_readBytes_closed packet : forall buf idx,
  (idx <= MSG_BYTES - 1)%nat -> length buf = MSG_BYTES ->
  readBytes packet buf idx
  = (take idx buf
       ++ take (MSG_BYTES - 1 - idx) packet
       ++ drop (idx + min (MSG_BYTES - 1 - idx) (length packet)) buf,
     (idx + min (MSG_BYTES - 1 - idx) (length packet))%nat).
Proof.
  unfold MSG_BYTES.
  induction packet as [|b rest IH]; intros buf idx Hidx Hlen.
  - cbn [readBytes length]. rewrite Nat.min_0_r, Nat.add_0_r, take_nil.
    cbn [app]. rewrite take_drop. reflexivity.
  - cbn [readBytes]. unfold MSG_BYTES.
    destruct (Nat.ltb_spec idx (80 - 1)) as [L|L].
    + rewrite IH by (rewrite ?length_insert; lia).
      assert (E : (<[idx:=b]> buf) !! idx = Some b)
        by (apply list_lookup_insert_eq; lia).
      rewrite (take_S_r _ _ _ E), take_insert_ge by lia.
      rewrite drop_insert_lt by lia.
      replace (80 - 1 - idx)%nat with (S (80 - 1 - S idx)) by lia.
      cbn [take length]. rewrite <- Nat.succ_min_distr.
      rewrite <- app_assoc. cbn [app].
      rewrite <- !Nat.add_succ_comm. reflexivity.
    + replace (80 - 1 - idx)%nat with 0%nat by lia.
      rewrite take_0, Nat.min_0_l, Nat.add_0_r. cbn [app].
      rewrite take_drop. reflexivity.
Qed.

Lemma receiver_readPacket_closed packet :
  readPacket packet
  = take (MSG_BYTES - 1) packet
      ++ replicate (MSG_BYTES - length (take (MSG_BYTES - 1) packet)) NUL.
Proof.
  unfold readPacket.
  rewrite receiver_readBytes_closed
    by (rewrite ?length_replicate; unfold MSG_BYTES; lia).
  rewrite take_0, Nat.sub_0_r, Nat.add_0_l. cbn [app].
  set (n := min (MSG_BYTES - 1) (length packet)).
  assert (Ln : length (take (MSG_BYTES - 1) packet) = n)
    by (rewrite length_take; reflexivity).
  rewrite insert_app_r_alt by lia.
  rewrite Ln, Nat.sub_diag. f_equal.
  rewrite drop_replicate.
  assert (Hn : (n <= MSG_BYTES - 1)%nat) by (subst n; lia).
  replace (MSG_BYTES - n)%nat with (S (MSG_BYTES - n - 1))
    by (unfold MSG_BYTES in *; lia).
  reflexivity.
Qed.

(** X18. The receiver decodes the first 79 bytes of a packet, up to the first
    NUL; what its 80-byte buffer holds depends on nothing else. A text the
    relay sends on over LoRa has 63 bytes at most and is read whole: it is
    the first 63 bytes of the packet the relay received. *)
Theorem receiver_reads_first_79_bytes (packet stack : list ascii) :
  length stack = Relay.MSG_BYTES ->
  let kept := take (MSG_BYTES - 1) packet in
  readPacket packet = kept ++ replicate (MSG_BYTES - length kept) NUL
  /\ length (readPacket packet) = MSG_BYTES
  /\ cstr (readPacket packet) = cstr kept
  /\ cstr (readPacket (cstr (Relay.readPacket packet stack)))
     = cstr (take (Relay.MSG_BYTES - 1) packet).
Proof.
  intros Hlen. cbn zeta.
  assert (C : forall p, cstr (readPacket p) = cstr (take (MSG_BYTES - 1) p)).
  { intros p. rewrite receiver_readPacket_closed.
    assert (L : (length (take (MSG_BYTES - 1) p) <= MSG_BYTES - 1)%nat)
      by (rewrite length_take; lia).
    replace (MSG_BYTES - length (take (MSG_BYTES - 1) p))%nat
      with (S (MSG_BYTES - 1 - length (take (MSG_BYTES - 1) p)))
      by (unfold MSG_BYTES in *; lia).
    cbn [replicate]. apply RelayFacts.cstr_app_terminator. }
  split; [apply receiver_readPacket_closed|]. split; [|split; [apply C|]].
  - rewrite receiver_readPacket_closed, length_app, length_replicate, length_take.
    unfold MSG_BYTES. lia.
  - rewrite C, (RelayFacts.readPacket_text packet stack Hlen).
    rewrite take_ge.
    + apply cstr_idemp.
    + etransitivity; [apply cstr_length_le|]. rewrite length_take.
      unfold MSG_BYTES, Relay.MSG_BYTES. lia.
Qed.

Lemma receiver_reads_first_79_bytes_witness :
  length Samples.someStack = Relay.MSG_BYTES
  /\ cstr (readPacket (cstr (Relay.readPacket (Samples.longPacket "a")
                                              Samples.someStack)))
     = take 63 (Samples.longPacket "a").
Proof.
  split; [reflexivity|].
  rewrite (proj2 (proj2 (proj2 (receiver_reads_first_79_bytes
                                  (Samples.longPacket "a") Samples.someStack
                                  eq_refl)))).
  vm_compute. reflexivity.
Defined.

End ReceiverDisplayFacts.

(** ** From the transmitter to the receiver *)

Module WireFacts.
Import Machine CStr IEEE Transmitter Receiver Wire.
Import MachineFacts CStrFacts RelayFacts ReceiverDisplayFacts.
Import TransmitterRunFacts.

Lemma strchr_skip s c rest :
  c ∉ s -> NUL ∉ s -> strchr (s ++ c :: rest) c = Some (c :: rest).
Proof.
  induction s as [|x s IH]; intros Hc Hn; cbn [app strchr].
  - rewrite Ascii.eqb_refl. reflexivity.
  - apply not_elem_of_cons in Hc as [Hxc Hc].
    apply not_elem_of_cons in Hn as [Hxn Hn].
    destruct (Ascii.eqb_spec x c) as [E|_]; [congruence|].
    destruct (Ascii.eqb_spec x NUL) as [E|_]; [congruence|].
    apply IH; assumption.
Qed.

Lemma cstr_app_no_NUL s r : NUL ∉ s -> cstr (s ++ r) = s ++ cstr r.
Proof.
  induction s as [|x s IH]; intros Hn; [reflexivity|].
  apply not_elem_of_cons in Hn as [Hx Hn]. cbn [app cstr].
  destruct (Ascii.eqb_spec x NUL) as [E|_]; [congruence|].
  rewrite IH by exact Hn. reflexivity.
Qed.

Lemma cstr_comma r : cstr (comma :: r) = comma :: cstr r.
Proof. reflexivity. Qed.

Lemma cstr_pad s n : NUL ∉ s -> cstr (s ++ replicate n NUL) = s.
Proof.
  intros Hn. rewrite cstr_app_no_NUL by exact Hn.
  destruct n; cbn; apply app_nil_r.
Qed.

(** What [parseMessage] makes of a text laid out as the transmitter lays
    it out, [c] being the byte that follows the third number. *)
Lemma parseMessage_layout atof type la ln ex c rest :
  type = lit "FIRE" \/ type = lit "QUAKE" ->
  Forall (fun s => (comma ∉ s) /\ (NUL ∉ s)) [la; ln; ex] ->
  (forall s rest, atof (s ++ comma :: rest) = atof s) ->
  atof (ex ++ c :: rest) = atof ex ->
  parseMessage atof
    (type ++ comma :: la ++ comma :: ln ++ comma :: ex ++ c :: rest)
  = mkParsed (kindOf type) (atof_float atof la) (atof_float atof ln)
             (atof_float atof ex).
Proof.
  intros Htype Hall Hcomma Hlast.
  apply Forall_cons in Hall as [[Hla1 Hla2] Hall].
  apply Forall_cons in Hall as [[Hln1 Hln2] Hall].
  apply Forall_cons in Hall as [[Hex1 Hex2] _].
  assert (E : forall T : list ascii,
            strchr (comma :: T) comma = Some (comma :: T)) by reflexivity.
  unfold parseMessage.
  destruct Htype as [-> | ->].
  - change (strncmp_eq (lit "FIRE" ++ ?r) (lit "FIRE") 4) with true.
    cbn iota.
    change (strchr (lit "FIRE" ++ comma :: ?r) comma) with (Some (comma :: r)).
    cbn iota. cbn [incr tail].
    rewrite (strchr_skip la comma _ Hla1 Hla2). cbn [incr tail].
    rewrite (strchr_skip ln comma _ Hln1 Hln2). cbn [incr tail].
    unfold atof_float. rewrite !Hcomma, Hlast. reflexivity.
  - change (strncmp_eq (lit "QUAKE" ++ ?r) (lit "FIRE") 4) with false.
    change (strncmp_eq (lit "QUAKE" ++ ?r) (lit "QUAKE") 5) with true.
    cbn iota.
    change (strchr (lit "QUAKE" ++ comma :: ?r) comma) with (Some (comma :: r)).
    cbn iota. cbn [incr tail].
    rewrite (strchr_skip la comma _ Hla1 Hla2). cbn [incr tail].
    rewrite (strchr_skip ln comma _ Hln1 Hln2). cbn [incr tail].
    unfold atof_float. rewrite !Hcomma, Hlast. reflexivity.
Qed.

(** *** The conversion of plain numerals stops at a separator *)

Lemma digits_app c rest : forall p acc cnt,
  digit c = None ->
  digits (p ++ c :: rest) acc cnt
  = (let '(a, k, r) := digits p acc cnt in (a, k, r ++ c :: rest)).
Proof.
  induction p as [|x p IH]; intros acc cnt Hc.
  - cbn [app digits]. rewrite Hc. reflexivity.
  - cbn [app digits]. destruct (digit x); [apply IH, Hc | reflexivity].
Qed.

Lemma atof_plain_stops c s rest :
  digit c = None -> c <> "-"%char -> c <> "+"%char -> c <> "."%char ->
  atof_plain (s ++ c :: rest) = atof_plain s.
Proof.
  intros Hd Hm Hp Hdot. unfold atof_plain.
  assert (T : forall p,
            (let '(int_part, _, p0) := digits (p ++ c :: rest) 0 0 in
             let '(mant, frac_digits) :=
               match p0 with
               | [] => (int_part, 0)
               | c0 :: r =>
                   if Ascii.eqb c0 "."
                   then let '(m, k, _) := digits r int_part 0 in (m, k)
                   else (int_part, 0)
               end in (mant, frac_digits))
            = (let '(int_part, _, p0) := digits p 0 0 in
               let '(mant, frac_digits) :=
                 match p0 with
                 | [] => (int_part, 0)
                 | c0 :: r =>
                     if Ascii.eqb c0 "."
                     then let '(m, k, _) := digits r int_part 0 in (m, k)
                     else (int_part, 0)
                 end in (mant, frac_digits))).
  { intros p. rewrite (digits_app c rest p 0 0 Hd).
    destruct (digits p 0 0) as [[a k] r].
    destruct r as [|y r]; cbn [app].
    - destruct (Ascii.eqb_spec c "."); [congruence | reflexivity].
    - destruct (Ascii.eqb y "."); [|reflexivity].
      rewrite (digits_app c rest r a 0 Hd).
      destruct (digits r a 0) as [[m k'] r']. reflexivity. }
  assert (G : forall neg p,
            (let '(int_part, _, p0) := digits (p ++ c :: rest) 0 0 in
             let '(mant, frac_digits) :=
               match p0 with
               | [] => (int_part, 0)
               | c0 :: r =>
                   if Ascii.eqb c0 "."
                   then let '(m, k, _) := digits r int_part 0 in (m, k)
                   else (int_part, 0)
               end in
             match mant with
             | Z.pos m =>
                 SFdiv F64.prec F64.emax (S754_finite neg m 0)
                   (S754_finite false (Z.to_pos (10 ^ frac_digits)) 0)
             | _ => S754_zero neg
             end)
            = (let '(int_part, _, p0) := digits p 0 0 in
               let '(mant, frac_digits) :=
                 match p0 with
                 | [] => (int_part, 0)
                 | c0 :: r =>
                     if Ascii.eqb c0 "."
                     then let '(m, k, _) := digits r int_part 0 in (m, k)
                     else (int_part, 0)
                 end in
               match mant with
               | Z.pos m =>
                   SFdiv F64.prec F64.emax (S754_finite neg m 0)
                     (S754_finite false (Z.to_pos (10 ^ frac_digits)) 0)
               | _ => S754_zero neg
               end)).
  { intros neg p. specialize (T p).
    destruct (digits (p ++ c :: rest) 0 0) as [[a1 k1] r1].
    destruct (digits p 0 0) as [[a2 k2] r2].
    destruct (match r1 with [] => _ | _ => _ end) as [m1 f1].
    destruct (match r2 with [] => _ | _ => _ end) as [m2 f2].
    injection T as -> ->. reflexivity. }
  destruct s as [|x s]; cbn [app].
  - destruct (Ascii.eqb_spec c "-"); [congruence|].
    destruct (Ascii.eqb_spec c "+"); [congruence|].
    apply (G false []).
  - destruct (Ascii.eqb x "-"); [apply (G true s)|].
    destruct (Ascii.eqb x "+"); [apply (G false s)|].
    apply (G false (x :: s)).
Qed.

(** *** The two payloads *)

Section Payloads.

Variable pf : Printf.
Variable atof : list ascii -> fp.

Hypothesis atof_comma : forall s rest, atof (s ++ comma :: rest) = atof s.

(** The packet of the sketch with GPS, when [snprintf] had room. *)
Lemma payload_text (a : Alert) :
  a_type a = lit "FIRE" \/ a_type a = lit "QUAKE" ->
  Forall (fun s => (comma ∉ s) /\ (NUL ∉ s))
         [field_f pf 6 (a_lat a); field_f pf 6 (a_lng a);
          field_f pf 2 (a_extra a)] ->
  (length (formatted pf a) <= PAYLOAD_BYTES - 1)%nat ->
  payload pf a
  = a_type a ++ comma :: field_f pf 6 (a_lat a)
      ++ comma :: field_f pf 6 (a_lng a)
      ++ comma :: field_f pf 2 (a_extra a)
      ++ comma :: lit "Sats:" ++ cstr (fmt_u pf (a_sats a)).
Proof using Type.
  intros Htype Hall Hlen.
  apply Forall_cons in Hall as [[Hla1 Hla2] Hall].
  apply Forall_cons in Hall as [[Hln1 Hln2] Hall].
  apply Forall_cons in Hall as [[Hex1 Hex2] _].
  unfold payload. rewrite take_ge by exact Hlen. unfold formatted.
  set (la := field_f pf 6 (a_lat a)) in *.
  set (ln := field_f pf 6 (a_lng a)) in *.
  set (ex := field_f pf 2 (a_extra a)) in *.
  assert (Ht : cstr (a_type a) = a_type a /\ NUL ∉ a_type a).
  { destruct Htype as [-> | ->]; (split; [reflexivity | no_NUL]). }
  destruct Ht as (-> & Ht).
  change (a_type a ++ lit "," ++ la ++ lit "," ++ ln ++ lit "," ++ ex
            ++ lit ",Sats:" ++ fmt_u pf (a_sats a))
    with (a_type a ++ comma :: la ++ comma :: ln ++ comma :: ex
            ++ comma :: lit "Sats:" ++ fmt_u pf (a_sats a)).
  rewrite (cstr_app_no_NUL (a_type a)) by exact Ht.
  rewrite cstr_comma, (cstr_app_no_NUL la) by exact Hla2.
  rewrite cstr_comma, (cstr_app_no_NUL ln) by exact Hln2.
  rewrite cstr_comma, (cstr_app_no_NUL ex) by exact Hex2.
  rewrite cstr_comma, (cstr_app_no_NUL (lit "Sats:")) by no_NUL.
  reflexivity.
Qed.

Lemma payload_length (a : Alert) :
  (length (payload pf a) <= PAYLOAD_BYTES - 1)%nat
  /\ (length (payload pf a) <= length (formatted pf a))%nat.
Proof using Type.
  unfold payload. split.
  - etransitivity; [apply cstr_length_le|]. rewrite length_take. lia.
  - etransitivity; [apply cstr_length_le|]. rewrite length_take. lia.
Qed.

Lemma payload_decoded (a : Alert) :
  a_type a = lit "FIRE" \/ a_type a = lit "QUAKE" ->
  Forall (fun s => (comma ∉ s) /\ (NUL ∉ s))
         [field_f pf 6 (a_lat a); field_f pf 6 (a_lng a);
          field_f pf 2 (a_extra a)] ->
  (length (formatted pf a) <= PAYLOAD_BYTES - 1)%nat ->
  parseMessage atof (ReceiverLoop.readPacket (payload pf a))
  = mkParsed (kindOf (a_type a))
             (atof_float atof (field_f pf 6 (a_lat a)))
             (atof_float atof (field_f pf 6 (a_lng a)))
             (atof_float atof (field_f pf 2 (a_extra a))).
Proof using atof_comma.
  intros Htype Hall Hlen.
  rewrite receiver_readPacket_closed.
  rewrite (take_ge (payload pf a)) by apply payload_length.
  rewrite (payload_text a Htype Hall Hlen) at 1.
  repeat (rewrite <- app_assoc; cbn [app]).
  apply parseMessage_layout; try assumption.
  apply atof_comma.
Qed.

End Payloads.

(** X19. Every alert the transmitter sends is decoded by a receiver in range as
    the alert it is. When the printed numbers hold neither comma nor NUL
    and [snprintf] had room for the whole text, [parseMessage], on the
    buffer [loop] fills from the packet, returns the kind of the alert and
    what [atof] reads in the latitude, the longitude and the magnitude as
    they were printed; the count of satellites that follows is ignored. *)
Theorem receiver_decodes_gps_payload
    (pf : Printf) (atof : list ascii -> fp)
    (ts : list Tick) (st0 : State) (a : Alert) :
  sent st0 = [] -> a ∈ sent (run ts st0) ->
  Forall (fun s => (comma ∉ s) /\ (NUL ∉ s))
         [field_f pf 6 (a_lat a); field_f pf 6 (a_lng a);
          field_f pf 2 (a_extra a)] ->
  (length (formatted pf a) <= PAYLOAD_BYTES - 1)%nat ->
  (forall s rest, atof (s ++ comma :: rest) = atof s) ->
  kindOf (a_type a) <> NONE
  /\ parseMessage atof (ReceiverLoop.readPacket (payload pf a))
     = mkParsed (kindOf (a_type a))
                (atof_float atof (field_f pf 6 (a_lat a)))
                (atof_float atof (field_f pf 6 (a_lng a)))
                (atof_float atof (field_f pf 2 (a_extra a))).
Proof.
  intros Hempty Hin Hall Hlen Hcomma.
  assert (Htype : a_type a = lit "FIRE" \/ a_type a = lit "QUAKE").
  { pose proof (run_sent_types ts st0) as H. rewrite Hempty in H.
    specialize (H (Forall_nil_2 _)). rewrite Forall_forall in H.
    apply H, Hin. }
  split; [destruct Htype as [-> | ->]; discriminate|].
  apply payload_decoded; assumption.
Qed.

Lemma receiver_decodes_gps_payload_witness :
  let ts := [Samples.shaken 6000; Samples.shaken 6010; Samples.shaken 6020;
             Samples.shaken 6030] in
  let a := mkAlert (lit "QUAKE") FALLBACK_LAT FALLBACK_LNG
                   (S754_finite false 16033271 (-25)) 0 in
  a ∈ sent (run ts Samples.booted)
  /\ string_of_list_ascii (payload printf_plain a)
     = "QUAKE,30.768885,76.575211,0.48,Sats:0"%string
  /\ parseMessage atof_plain (ReceiverLoop.readPacket (payload printf_plain a))
     = mkParsed QUAKE FALLBACK_LAT FALLBACK_LNG (F32.literal 48 2).
Proof.
  cbn zeta.
  assert (Hin : mkAlert (lit "QUAKE") FALLBACK_LAT FALLBACK_LNG
                        (S754_finite false 16033271 (-25)) 0
                ∈ sent (run [Samples.shaken 6000; Samples.shaken 6010;
                             Samples.shaken 6020; Samples.shaken 6030]
                            Samples.booted)).
  { vm_compute. apply list_elem_of_here. }
  split; [exact Hin|]. split; [vm_compute; reflexivity|].
  rewrite (proj2 (receiver_decodes_gps_payload printf_plain atof_plain
                    _ Samples.booted _ eq_refl Hin
                    ltac:(repeat (constructor; [split; no_NUL|]); constructor)
                    ltac:(vm_compute; lia)
                    (fun s rest =>
                       atof_plain_stops comma s rest eq_refl
                         ltac:(discriminate) ltac:(discriminate)
                         ltac:(discriminate)))).
  vm_compute. reflexivity.
Defined.

(** X20. The payload of the sketch with demonstration coordinates ends with
    the magnitude; the receiver decodes it in the same way, [atof] reading
    the last number up to the end of the string. *)
Theorem receiver_decodes_demo_payload
    (pf : Printf) (atof : list ascii -> fp)
    (type : list ascii) (lat lng extra : fp) :
  type = lit "FIRE" \/ type = lit "QUAKE" ->
  Forall (fun s => (comma ∉ s) /\ (NUL ∉ s))
         [field_f pf 6 lat; field_f pf 6 lng; field_f pf 2 extra] ->
  (length (demoFormatted pf type lat lng extra) <= DEMO_PAYLOAD_BYTES - 1)%nat ->
  (forall s rest, atof (s ++ comma :: rest) = atof s) ->
  (forall s rest, atof (s ++ NUL :: rest) = atof s) ->
  kindOf type <> NONE
  /\ parseMessage atof
       (ReceiverLoop.readPacket (demoPayload pf type lat lng extra))
     = mkParsed (kindOf type)
                (atof_float atof (field_f pf 6 lat))
                (atof_float atof (field_f pf 6 lng))
                (atof_float atof (field_f pf 2 extra)).
Proof.
  intros Htype Hall Hlen Hcomma Hnul.
  split; [destruct Htype as [-> | ->]; discriminate|].
  pose proof Hall as Hall'.
  apply Forall_cons in Hall' as [[Hla1 Hla2] Hall'].
  apply Forall_cons in Hall' as [[Hln1 Hln2] Hall'].
  apply Forall_cons in Hall' as [[Hex1 Hex2] _].
  set (la := field_f pf 6 lat) in *.
  set (ln := field_f pf 6 lng) in *.
  set (ex := field_f pf 2 extra) in *.
  assert (P : demoPayload pf type lat lng extra
              = type ++ comma :: la ++ comma :: ln ++ comma :: ex).
  { unfold demoPayload. rewrite take_ge by exact Hlen. unfold demoFormatted.
    fold la ln ex.
    assert (Ht : cstr type = type /\ NUL ∉ type).
    { destruct Htype as [-> | ->]; (split; [reflexivity | no_NUL]). }
    destruct Ht as (-> & Ht).
    change (type ++ lit "," ++ la ++ lit "," ++ ln ++ lit "," ++ ex)
      with (type ++ comma :: la ++ comma :: ln ++ comma :: ex).
    rewrite (cstr_app_no_NUL type) by exact Ht.
    rewrite cstr_comma, (cstr_app_no_NUL la) by exact Hla2.
    rewrite cstr_comma, (cstr_app_no_NUL ln) by exact Hln2.
    rewrite cstr_comma, (cstr_id ex) by exact Hex2.
    reflexivity. }
  assert (L : (length (demoPayload pf type lat lng extra)
               <= DEMO_PAYLOAD_BYTES - 1)%nat).
  { unfold demoPayload. etransitivity; [apply cstr_length_le|].
    rewrite length_take. lia. }
  rewrite receiver_readPacket_closed.
  rewrite (take_ge (demoPayload pf type lat lng extra))
    by (unfold DEMO_PAYLOAD_BYTES, ReceiverLoop.MSG_BYTES in *; lia).
  replace (ReceiverLoop.MSG_BYTES
           - length (demoPayload pf type lat lng extra))%nat
    with (S (ReceiverLoop.MSG_BYTES
             - length (demoPayload pf type lat lng extra) - 1))
    by (unfold DEMO_PAYLOAD_BYTES, ReceiverLoop.MSG_BYTES in *; lia).
  cbn [replicate].
  rewrite P. repeat (rewrite <- app_assoc; cbn [app]).
  apply parseMessage_layout; try assumption.
  apply Hnul.
Qed.

Lemma receiver_decodes_demo_payload_witness :
  string_of_list_ascii
    (demoPayload printf_plain (lit "FIRE") FALLBACK_LAT FALLBACK_LNG
                 (F32.literal 10 1))
  = "FIRE,30.768885,76.575211,1.00"%string
  /\ parseMessage atof_plain
       (ReceiverLoop.readPacket
          (demoPayload printf_plain (lit "FIRE") FALLBACK_LAT FALLBACK_LNG
                       (F32.literal 10 1)))
     = mkParsed FIRE FALLBACK_LAT FALLBACK_LNG (F32.literal 10 1).
Proof.
  split; [vm_compute; reflexivity|].
  rewrite (proj2 (receiver_decodes_demo_payload printf_plain atof_plain
                    (lit "FIRE") FALLBACK_LAT FALLBACK_LNG (F32.literal 10 1)
                    (or_introl eq_refl)
                    ltac:(repeat (constructor; [split; no_NUL|]); constructor)
                    ltac:(vm_compute; lia)
                    (fun s rest =>
                       atof_plain_stops comma s rest eq_refl
                         ltac:(discriminate) ltac:(discriminate)
                         ltac:(discriminate))
                    (fun s rest =>
                       atof_plain_stops NUL s rest eq_refl
                         ltac:(discriminate) ltac:(discriminate)
                         ltac:(discriminate)))).
  vm_compute. reflexivity.
Defined.

(** *** Across the relay, over LoRa *)

Lemma onAir_app tr1 tr2 :
  AlertPath.onAir (tr1 ++ tr2) = AlertPath.onAir tr1 ++ AlertPath.onAir tr2.
Proof. apply omap_app. Qed.

(** A pass of the receiver's [loop] on a packet it decodes as an alert. *)
Lemma receiver_loop_alert atof renv rst type lat lng extra :
  ReceiverLoop.packet renv <> [] ->
  parseMessage atof (ReceiverLoop.readPacket (ReceiverLoop.packet renv))
  = mkParsed type lat lng extra ->
  type <> NONE ->
  let rst' := ReceiverLoop.loop atof renv rst in
  ReceiverLoop.alertDisplayed rst' = true
  /\ ReceiverLoop.lastAlertTime rst' = ReceiverLoop.millis_alert renv
  /\ ReceiverLoop.buzzer rst'
     = ReceiverLoop.mkBuzzer true true (ReceiverLoop.beepsOf type)
         (match type with FIRE => 150 | _ => 300 end)
         (uadd (ReceiverLoop.millis_startBuzzer renv)
               (match type with FIRE => 150 | _ => 300 end))
  /\ exists before,
       ReceiverLoop.out rst'
       = before
           ++ [ReceiverLoop.SerialReceived
                 (cstr (ReceiverLoop.readPacket (ReceiverLoop.packet renv)))]
           ++ (if ReceiverLoop.displayReady rst
               then [ReceiverLoop.Screen
                       (ReceiverLoop.alertScreen type lat lng extra)]
               else [])
           ++ [ReceiverLoop.BuzzerPin ReceiverLoop.HIGH].
Proof.
  intros Hp Hparse Htype. cbn zeta. unfold ReceiverLoop.loop. cbn zeta.
  rewrite (RelayLoopFacts.nonempty_packetSize _ Hp), Hparse.
  cbn [p_type p_lat p_lng p_extra].
  destruct (updateBuzzer_frame (ReceiverLoop.millis_updateBuzzer renv) rst)
    as (_ & _ & E3 & _).
  set (st1 := ReceiverLoop.updateBuzzer _ rst) in *.
  match goal with
  | |- context [ReceiverLoop.emit _ ?p] =>
      match p with
      | (if _ then _ else _) => set (pre := p)
      end
  end.
  assert (Hready : ReceiverLoop.displayReady pre = ReceiverLoop.displayReady rst).
  { subst pre. rewrite <- E3.
    destruct (_ && _); [|reflexivity].
    unfold ReceiverLoop.showListeningScreen.
    destruct (negb (ReceiverLoop.displayReady st1)); reflexivity. }
  clearbody pre. clear E3 st1.
  unfold ReceiverLoop.displayAlert.
  cbn [ReceiverLoop.displayReady ReceiverLoop.emit].
  rewrite Hready.
  destruct type; [contradiction| |];
    (destruct (ReceiverLoop.displayReady rst); cbn [negb];
     (repeat split; try reflexivity);
     exists (ReceiverLoop.out pre); cbn; rewrite <- ?app_assoc; reflexivity).
Qed.

(** X21. A fire alert of 63 bytes or less crosses a relay over LoRa and
    is shown by the receiver. On a packet that is the payload of the
    transmitter and no duplicate, [loop] of the single-transport relay
    leaves on the LoRa channel, when [LoRa.endPacket()] succeeds, one
    packet more, equal to the payload; [loop] of the hybrid relay does so
    when the distance it computes is not below the threshold, and leaves
    nothing on the LoRa channel otherwise (the alert is then handed to
    ESP-NOW). On a packet equal to the payload, [loop] of the receiver
    prints the payload, shows the fire screen with the numbers the
    transmitter printed, starts the five beeps and marks the alert as
    displayed. *)
Theorem fire_alert_relayed_over_LoRa
    (pf : Printf) (atof : list ascii -> fp) (a : Alert) :
  a_type a = lit "FIRE" ->
  Forall (fun s => (comma ∉ s) /\ (NUL ∉ s))
         [field_f pf 6 (a_lat a); field_f pf 6 (a_lng a);
          field_f pf 2 (a_extra a)] ->
  (length (formatted pf a) <= Relay.MSG_BYTES - 1)%nat ->
  (forall s rest, atof (s ++ comma :: rest) = atof s) ->
  (forall env st,
      PlainRelay.packet env = payload pf a ->
      length (PlainRelay.stack env) = Relay.MSG_BYTES ->
      Relay.isDuplicate (PlainRelay.millis_isDuplicate env)
        (PlainRelay.cache st)
        (Relay.readPacket (payload pf a) (PlainRelay.stack env)) = false ->
      AlertPath.onAir (PlainRelay.trace (PlainRelay.loop env st))
      = AlertPath.onAir (PlainRelay.trace st)
          ++ (if PlainRelay.lora_endPacket env then [payload pf a] else []))
  /\ (forall libc cfg env st,
         HybridRelay.packet env = payload pf a ->
         length (HybridRelay.stack env) = Relay.MSG_BYTES ->
         Relay.isDuplicate (HybridRelay.millis_isDuplicate env)
           (HybridRelay.cache st)
           (Relay.readPacket (payload pf a) (HybridRelay.stack env)) = false ->
         AlertPath.onAir
           (HybridRelay.trace (HybridRelay.loop libc cfg env st))
         = AlertPath.onAir (HybridRelay.trace st)
             ++ (if negb (F32.ltb
                            (HybridRelay.distanceToReceiver libc cfg
                               (Relay.readPacket (payload pf a)
                                                 (HybridRelay.stack env)))
                            (HybridRelay.DISTANCE_THRESHOLD_METERS cfg))
                    && HybridRelay.lora_endPacket env
                 then [payload pf a] else []))
  /\ (forall renv rst,
         ReceiverLoop.packet renv = payload pf a ->
         ReceiverLoop.alertDisplayed (ReceiverLoop.loop atof renv rst) = true
         /\ ReceiverLoop.lastAlertTime (ReceiverLoop.loop atof renv rst)
            = ReceiverLoop.millis_alert renv
         /\ ReceiverLoop.buzzer (ReceiverLoop.loop atof renv rst)
            = ReceiverLoop.mkBuzzer true true 5 150
                (uadd (ReceiverLoop.millis_startBuzzer renv) 150)
         /\ exists before,
              ReceiverLoop.out (ReceiverLoop.loop atof renv rst)
              = before
                  ++ [ReceiverLoop.SerialReceived (payload pf a)]
                  ++ (if ReceiverLoop.displayReady rst
                      then [ReceiverLoop.Screen
                              (ReceiverLoop.alertScreen FIRE
                                 (atof_float atof (field_f pf 6 (a_lat a)))
                                 (atof_float atof (field_f pf 6 (a_lng a)))
                                 (atof_float atof (field_f pf 2 (a_extra a))))]
                      else [])
                  ++ [ReceiverLoop.BuzzerPin ReceiverLoop.HIGH]).
Proof.
  intros Htype Hall Hlen Hcomma.
  assert (Hlen' : (length (formatted pf a) <= PAYLOAD_BYTES - 1)%nat)
    by (unfold Relay.MSG_BYTES, PAYLOAD_BYTES in *; lia).
  pose proof (payload_text pf a (or_introl Htype) Hall Hlen') as Htext.
  assert (Hne : payload pf a <> []).
  { rewrite Htext, Htype. discriminate. }
  assert (E : forall stack, length stack = Relay.MSG_BYTES ->
                cstr (Relay.readPacket (payload pf a) stack) = payload pf a).
  { intros stack Hstack. rewrite (readPacket_text _ _ Hstack).
    rewrite take_ge by (etransitivity; [apply payload_length | exact Hlen]).
    unfold payload. apply cstr_idemp. }
  assert (Hv : forall stack, length stack = Relay.MSG_BYTES ->
                 Relay.isValidMessage (Relay.readPacket (payload pf a) stack)
                 = true).
  { intros stack Hstack. apply isValidMessage_true. left.
    rewrite (E stack Hstack), Htext, Htype. eexists. reflexivity. }
  split; [|split].
  - intros env st Hp Hstack Hdup.
    rewrite (RelayLoopFacts.plain_loop_new env st); rewrite Hp;
      [|exact Hne|exact (Hv _ Hstack)|exact Hdup].
    destruct (RelayLoopFacts.plain_forwardMessage_effect env
                (Relay.readPacket (payload pf a) (PlainRelay.stack env))
                (PlainRelay.recorded
                   (Relay.readPacket (payload pf a) (PlainRelay.stack env))
                   (PlainRelay.millis_cacheMessage env) st))
      as (_ & _ & _ & _ & ->).
    rewrite (E _ Hstack). cbn [PlainRelay.recorded PlainRelay.set_cache
      PlainRelay.emit PlainRelay.trace PlainRelay.incr_messagesReceived].
    rewrite !onAir_app.
    destruct (PlainRelay.lora_endPacket env); cbn;
      rewrite ?app_nil_r; reflexivity.
  - intros libc cfg env st Hp Hstack Hdup.
    rewrite (RelayLoopFacts.hybrid_loop_new libc cfg env st); rewrite Hp;
      [|exact Hne|exact (Hv _ Hstack)|exact Hdup].
    destruct (RelayLoopFacts.hybrid_forwardMessage_effect libc cfg env
                (Relay.readPacket (payload pf a) (HybridRelay.stack env))
                (HybridRelay.recorded
                   (Relay.readPacket (payload pf a) (HybridRelay.stack env))
                   (HybridRelay.millis_cacheMessage env) st))
      as (_ & _ & _ & _ & _ & ->).
    cbn [HybridRelay.recorded HybridRelay.set_cache
      HybridRelay.emit HybridRelay.trace HybridRelay.incr_messagesReceived].
    rewrite !onAir_app.
    unfold HybridRelay.hybridSend, HybridRelay.hybridSuccess.
    rewrite (E _ Hstack).
    destruct (F32.ltb _ _); cbn [negb andb].
    + destruct (_ =? 0); cbn; rewrite ?app_nil_r; reflexivity.
    + destruct (HybridRelay.lora_endPacket env); cbn;
        rewrite ?app_nil_r; reflexivity.
  - intros renv rst Hp.
    pose proof (payload_decoded pf atof Hcomma a (or_introl Htype) Hall Hlen')
      as Hdec.
    rewrite Htype in Hdec. change (kindOf (lit "FIRE")) with FIRE in Hdec.
    assert (Hmsg : cstr (ReceiverLoop.readPacket (payload pf a))
                   = payload pf a).
    { rewrite receiver_readPacket_closed.
      assert (L : (length (payload pf a) <= ReceiverLoop.MSG_BYTES - 1)%nat).
      { pose proof (proj1 (payload_length pf a)) as L.
        unfold ReceiverLoop.MSG_BYTES, PAYLOAD_BYTES in *. lia. }
      rewrite take_ge by exact L.
      apply cstr_pad. unfold payload. apply cstr_no_NUL. }
    rewrite <- Hp in Hdec, Hne.
    pose proof (receiver_loop_alert atof renv rst FIRE _ _ _ Hne Hdec
                  ltac:(discriminate)) as H.
    cbn zeta in H. rewrite Hp, Hmsg in H. exact H.
Qed.

Lemma fire_alert_relayed_over_LoRa_witness :
  let a := mkAlert (lit "FIRE") (F32.of_int 31) (F32.of_int 77)
                   (F32.literal 10 1) 7 in
  let text := payload printf_plain a in
  let penv := PlainRelay.mkEnv text Samples.someStack 1000 1001 70 true in
  let henv := HybridRelay.mkEnv text Samples.someStack 1000 1001 0 true in
  let renv := ReceiverLoop.mkEnv 2000 2000 text 2001 2002 in
  let rst := ReceiverLoop.mkState ReceiverLoop.initialBuzzer 0 false true [] in
  string_of_list_ascii text = "FIRE,31.000000,77.000000,1.00,Sats:7"%string
  /\ AlertPath.onAir (PlainRelay.trace (PlainRelay.loop penv PlainRelay.initial))
     = [text]
  /\ F32.ltb (HybridRelay.distanceToReceiver DistanceSamples.standInLibc
                HybridRelay.sketchConfig
                (Relay.readPacket text Samples.someStack))
             (HybridRelay.DISTANCE_THRESHOLD_METERS HybridRelay.sketchConfig)
     = false
  /\ AlertPath.onAir
       (HybridRelay.trace
          (HybridRelay.loop DistanceSamples.standInLibc HybridRelay.sketchConfig
                            henv HybridRelay.initial))
     = [text]
  /\ ReceiverLoop.alertDisplayed (ReceiverLoop.loop atof_plain renv rst) = true
  /\ ReceiverLoop.buzzer (ReceiverLoop.loop atof_plain renv rst)
     = ReceiverLoop.mkBuzzer true true 5 150 2151
  /\ ReceiverLoop.out (ReceiverLoop.loop atof_plain renv rst)
     = [ReceiverLoop.SerialReceived text;
        ReceiverLoop.Screen
          [ReceiverLoop.Text "FIRE ALERT!"; ReceiverLoop.Text "";
           ReceiverLoop.Number "Lat: " (F32.of_int 31) 5 "";
           ReceiverLoop.Number "Lng: " (F32.of_int 77) 5 ""];
        ReceiverLoop.BuzzerPin ReceiverLoop.HIGH].
Proof.
  cbn zeta.
  destruct (fire_alert_relayed_over_LoRa printf_plain atof_plain
              (mkAlert (lit "FIRE") (F32.of_int 31) (F32.of_int 77)
                       (F32.literal 10 1) 7)
              eq_refl
              ltac:(repeat (constructor; [split; no_NUL|]); constructor)
              ltac:(vm_compute; lia)
              (fun s rest =>
                 atof_plain_stops comma s rest eq_refl
                   ltac:(discriminate) ltac:(discriminate)
                   ltac:(discriminate))) as (Hplain & Hhybrid & Hrecv).
  split; [vm_compute; reflexivity|]. split; [|split; [|split]].
  - rewrite Hplain; [reflexivity|reflexivity|reflexivity|].
    vm_compute. reflexivity.
  - vm_compute. reflexivity.
  - rewrite Hhybrid; [|reflexivity|reflexivity|vm_compute; reflexivity].
    vm_compute. reflexivity.
  - destruct (Hrecv (ReceiverLoop.mkEnv 2000 2000
                       (payload printf_plain
                          (mkAlert (lit "FIRE") (F32.of_int 31) (F32.of_int 77)
                                   (F32.literal 10 1) 7)) 2001 2002)
                    (ReceiverLoop.mkState ReceiverLoop.initialBuzzer 0 false
                                          true [])
                    eq_refl) as (Hshown & _ & Hbuzz & _).
    split; [exact Hshown|]. split; [exact Hbuzz|].
    vm_compute. reflexivity.
Defined.

End WireFacts.

(** ** The distance of the relay *)

Module DistanceFacts.
Import Machine CStr IEEE.

(** *** The sign through the arithmetic *)

Lemma SFopp_involutive x : SFopp (SFopp x) = x.
Proof. destruct x as [s| s| |s m e]; cbn; rewrite ?negb_involutive; reflexivity. Qed.

Lemma binary_round_aux_opp prec emax s m e l :
  binary_round_aux prec emax (negb s) m e l
  = SFopp (binary_round_aux prec emax s m e l).
Proof.
  unfold binary_round_aux.
  destruct (shr_fexp prec emax m e l) as [mrs' e'].
  destruct (shr_fexp prec emax _ e' loc_Exact) as [mrs'' e''].
  destruct (shr_m mrs''); [reflexivity | | reflexivity].
  destruct (e'' <=? emax - prec); reflexivity.
Qed.

Lemma binary_round_opp prec emax s m e :
  binary_round prec emax (negb s) m e = SFopp (binary_round prec emax s m e).
Proof.
  unfold binary_round. destruct (shl_align m e _) as [mz ez].
  apply binary_round_aux_opp.
Qed.

Lemma round_to_opp prec emax x :
  round_to prec emax (SFopp x) = SFopp (round_to prec emax x).
Proof.
  destruct x as [s| s| |s m e]; try reflexivity. apply binary_round_opp.
Qed.

Lemma SFmul_opp_l prec emax x y :
  SFmul prec emax (SFopp x) y = SFopp (SFmul prec emax x y).
Proof.
  destruct x as [sx| sx| |sx mx ex], y as [sy| sy| |sy my ey]; cbn [SFopp SFmul];
    rewrite <- ?negb_xorb_l; try reflexivity.
  apply binary_round_aux_opp.
Qed.

Lemma SFmul_comm prec emax x y : SFmul prec emax x y = SFmul prec emax y x.
Proof.
  destruct x as [sx| sx| |sx mx ex], y as [sy| sy| |sy my ey]; cbn [SFmul];
    rewrite ?(xorb_comm sx sy); try reflexivity.
  rewrite (Pos.mul_comm mx my), (Z.add_comm ex ey). reflexivity.
Qed.

Lemma SFmul_opp_r prec emax x y :
  SFmul prec emax x (SFopp y) = SFopp (SFmul prec emax x y).
Proof. rewrite SFmul_comm, SFmul_opp_l, SFmul_comm. reflexivity. Qed.

Lemma SFdiv_opp_l prec emax x y :
  SFdiv prec emax (SFopp x) y = SFopp (SFdiv prec emax x y).
Proof.
  destruct x as [sx| sx| |sx mx ex], y as [sy| sy| |sy my ey]; cbn [SFopp SFdiv];
    rewrite <- ?negb_xorb_l; try reflexivity.
  destruct (SFdiv_core_binary prec emax (Z.pos mx) ex (Z.pos my) ey)
    as [[mz ez] lz].
  apply binary_round_aux_opp.
Qed.

(** Exchanging the operands of a subtraction changes the sign of the
    difference, or nothing (a zero or a NaN). *)
Lemma SFsub_swap prec emax x y :
  SFsub prec emax y x = SFsub prec emax x y
  \/ SFsub prec emax y x = SFopp (SFsub prec emax x y).
Proof.
  destruct x as [sx| sx| |sx mx ex], y as [sy| sy| |sy my ey]; cbn [SFsub];
    try (destruct sx, sy; cbn; auto; fail);
    try (destruct sx; cbn; auto; fail);
    try (destruct sy; cbn; auto; fail);
    try (cbn; rewrite ?negb_involutive; auto; fail).
  cbn zeta. rewrite (Z.min_comm ey ex).
  set (a := cond_Zopp sx (Z.pos (fst (shl_align mx ex (Z.min ex ey))))).
  set (b := cond_Zopp sy (Z.pos (fst (shl_align my ey (Z.min ex ey))))).
  replace (b - a) with (- (a - b)) by lia.
  destruct (a - b) as [|p|p]; cbn [Z.opp binary_normalize].
  - left. reflexivity.
  - right. apply (binary_round_opp prec emax false).
  - right. apply (binary_round_opp prec emax true).
Qed.

Lemma square_sign prec emax s s' :
  s' = s \/ s' = SFopp s -> SFmul prec emax s' s' = SFmul prec emax s s.
Proof.
  intros [-> | ->]; [reflexivity|].
  rewrite SFmul_opp_l, SFmul_opp_r. apply SFopp_involutive.
Qed.

Lemma scaled_square_sign prec emax c s s' :
  s' = s \/ s' = SFopp s ->
  SFmul prec emax (SFmul prec emax c s') s'
  = SFmul prec emax (SFmul prec emax c s) s.
Proof.
  intros [-> | ->]; [reflexivity|].
  rewrite !SFmul_opp_r, SFmul_opp_l. apply SFopp_involutive.
Qed.

Section Haversine.

Variable libc : HybridRelay.CLibrary.

Hypothesis sin_odd :
  forall x, HybridRelay.sin libc (SFopp x) = SFopp (HybridRelay.sin libc x).

Lemma radians_opp x : HybridRelay.radians (SFopp x) = SFopp (HybridRelay.radians x).
Proof.
  unfold HybridRelay.radians, F32.of_double, F64.div, F64.mul, F64.of_float.
  rewrite round_to_opp, SFmul_opp_l, SFdiv_opp_l, round_to_opp. reflexivity.
Qed.

Lemma half_angle_sine x x' :
  x' = x \/ x' = SFopp x ->
  let h v :=
    HybridRelay.sin libc
      (HybridRelay.promote libc
         (F32.div (HybridRelay.radians v) (F32.of_int 2))) in
  h x' = h x \/ h x' = SFopp (h x).
Proof using sin_odd.
  cbn zeta. intros [-> | ->]; [left; reflexivity|]. right.
  unfold HybridRelay.promote, F32.div.
  rewrite radians_opp, SFdiv_opp_l, round_to_opp, sin_odd. reflexivity.
Qed.

End Haversine.

(** X22. The distance does not depend on which of the two points comes first:
    when the sine of the C library is odd, [calculateDistance] returns the
    same [float], bit for bit and NaN included, with the two points
    exchanged. The differences of the coordinates change sign; the sines of
    the half angles only occur squared, and the product of the cosines
    commutes. *)
Theorem calculateDistance_exchange
    (libc : HybridRelay.CLibrary) (lat1 lon1 lat2 lon2 : fp) :
  (forall x, HybridRelay.sin libc (SFopp x) = SFopp (HybridRelay.sin libc x)) ->
  HybridRelay.calculateDistance libc lat2 lon2 lat1 lon1
  = HybridRelay.calculateDistance libc lat1 lon1 lat2 lon2.
Proof.
  intros Hodd. unfold HybridRelay.calculateDistance. cbn zeta.
  pose proof (half_angle_sine libc Hodd (F32.sub lat2 lat1) (F32.sub lat1 lat2)
                (SFsub_swap F32.prec F32.emax lat2 lat1)) as Hphi.
  pose proof (half_angle_sine libc Hodd (F32.sub lon2 lon1) (F32.sub lon1 lon2)
                (SFsub_swap F32.prec F32.emax lon2 lon1)) as Hlam.
  cbn zeta in Hphi, Hlam.
  unfold HybridRelay.m_mul.
  rewrite (square_sign _ _ _ _ Hphi).
  rewrite (scaled_square_sign _ _ _ _ _ Hlam).
  rewrite (SFmul_comm _ _
             (HybridRelay.cos libc
                (HybridRelay.promote libc (HybridRelay.radians lat2)))).
  reflexivity.
Qed.

Lemma calculateDistance_exchange_witness :
  let libc :=
    HybridRelay.mkCLibrary Receiver.atof_plain (fun x => x)
                           (fun _ => F32.of_int 1) (fun y _ => y) 24 128 in
  (forall x, HybridRelay.sin libc (SFopp x) = SFopp (HybridRelay.sin libc x))
  /\ HybridRelay.calculateDistance libc (F32.of_int 30) (F32.of_int 76)
                                   (F32.of_int 31) (F32.of_int 77)
     = HybridRelay.calculateDistance libc (F32.of_int 31) (F32.of_int 77)
                                     (F32.of_int 30) (F32.of_int 76).
Proof.
  cbn zeta. split; [intros x; reflexivity|].
  apply (calculateDistance_exchange
           (HybridRelay.mkCLibrary Receiver.atof_plain (fun x => x)
                                   (fun _ => F32.of_int 1) (fun y _ => y)
                                   24 128)).
  intros x. reflexivity.
Defined.

End DistanceFacts.

(** ** The two equations of the distance *)

Module DistanceEqualityFacts.
Import Machine CStr IEEE IEEEFacts DistanceFacts DistanceSamples.


Lemma eqb_NaN_l y : F32.eqb S754_nan y = false.
Proof. reflexivity. Qed.

Lemma eqb_NaN_r x : F32.eqb x S754_nan = false.
Proof. destruct x as [s| s| |s m e]; reflexivity. Qed.







Section Library.

Variable libc : HybridRelay.CLibrary.

Hypothesis sin_odd :
  forall x, HybridRelay.sin libc (SFopp x) = SFopp (HybridRelay.sin libc x).




End Library.





End DistanceEqualityFacts.
